(** * Resume screening: retry controller, provider adapters, batch loop,
      shortlist and CSV export

    A shallow embedding of [services/geminiService.ts] (retryOperation,
    generateMockResult, screenResume), of the batch and shortlist handlers of
    [App.tsx] (handleScreening, handleShortlist, handleRemoveFromShortlist)
    and of [components/TableView.tsx] (handleExportCSV), followed by the
    properties that the design document states about them.  A second part
    covers more of the code: the footprint of the service, the settings, the
    pages of cards and the rejection of a card, the summary of a batch
    ([components/BatchSummary.tsx]), the summary and the export of the
    shortlist, the saved job descriptions with the JSON text that the local
    storage holds, and the selection of the file picker.

    JavaScript strings are modelled as Rocq strings holding the text in
    UTF-8, with the white space of [trim] read in that encoding; counters
    and indices are [Z]; the Numbers that [JSON.parse], [Math.random] and
    the average of the scores produce are binary64 values ([Double.Number]:
    a finite value as the rational it stands for, the negative zero, the
    infinities and NaN), every operation rounding to the nearest, ties to
    even.  Asynchronous code is sequential in the source (every promise is
    awaited at once), so a promise is a computation in a state-and-exception
    monad over the trace of observable effects. *)

From Stdlib Require Import String Ascii List ZArith QArith Lia Bool Arith.
From Stdlib Require Import Qround Sorted Permutation.
From Equations Require Import Equations.
From Equations.Prop Require Import Logic.
Import ListNotations.

Local Open Scope string_scope.
Local Open Scope Z_scope.

Set Warnings "-register-all".

(** ** Strings of the JavaScript runtime *)

Module JsString.

Definition chars (s : string) : list ascii := list_ascii_of_string s.
Definition of_chars (l : list ascii) : string := string_of_list_ascii l.

(** [!s] for a string: only the empty string is falsy. *)
Definition truthy (s : string) : bool :=
  match s with EmptyString => false | _ => true end.

(** [!x] for [string | null | undefined]. *)
Definition truthy_opt (o : option string) : bool :=
  match o with Some s => truthy s | None => false end.

(** White space and line terminators, which [String.prototype.trim]
    removes, in a text held as UTF-8.  In one byte: TAB, LF, VT, FF, CR and
    SPACE.  In two bytes: U+00A0.  In three bytes: U+1680, U+2000 to
    U+200A, U+2028, U+2029, U+202F, U+205F, U+3000 and U+FEFF. *)
Definition is_space (c : ascii) : bool :=
  let n := nat_of_ascii c in
  ((9 <=? n)%nat && (n <=? 13)%nat) || (n =? 32)%nat.

Definition is_space2 (c1 c2 : ascii) : bool :=
  (nat_of_ascii c1 =? 194)%nat && (nat_of_ascii c2 =? 160)%nat.

Definition is_space3 (c1 c2 c3 : ascii) : bool :=
  let n1 := nat_of_ascii c1 in
  let n2 := nat_of_ascii c2 in
  let n3 := nat_of_ascii c3 in
  ((n1 =? 225) && (n2 =? 154) && (n3 =? 128))%nat
  || ((n1 =? 226) && (n2 =? 128)
      && (((128 <=? n3) && (n3 <=? 138)) || (n3 =? 168) || (n3 =? 169) || (n3 =? 175)))%nat
  || ((n1 =? 226) && (n2 =? 129) && (n3 =? 159))%nat
  || ((n1 =? 227) && (n2 =? 128) && (n3 =? 128))%nat
  || ((n1 =? 239) && (n2 =? 187) && (n3 =? 191))%nat.

Fixpoint trimStart (s : string) : string :=
  match s with
  | String c r =>
      if is_space c then trimStart r
      else
        match r with
        | String c2 r2 =>
            if is_space2 c c2 then trimStart r2
            else
              match r2 with
              | String c3 r3 => if is_space3 c c2 c3 then trimStart r3 else s
              | EmptyString => s
              end
        | EmptyString => s
        end
  | EmptyString => EmptyString
  end.

(** A text of white space only. *)
Definition all_space (s : string) : bool :=
  match trimStart s with EmptyString => true | _ => false end.

(** The text without the longest end of it that is white space only. *)
Fixpoint trimEnd (s : string) : string :=
  match s with
  | String c r => if all_space s then EmptyString else String c (trimEnd r)
  | EmptyString => EmptyString
  end.

Definition trim (s : string) : string := trimEnd (trimStart s).

(** [parts.join(sep)] *)
Fixpoint join (sep : string) (parts : list string) : string :=
  match parts with
  | [] => ""
  | [p] => p
  | p :: rest => p ++ sep ++ join sep rest
  end.

(** [s.replace(/c/g, by)] for a one-character pattern. *)
Fixpoint replaceAll (c : ascii) (by_ : string) (s : string) : string :=
  match s with
  | EmptyString => EmptyString
  | String d r =>
      if Ascii.eqb d c then by_ ++ replaceAll c by_ r
      else String d (replaceAll c by_ r)
  end.

(** A text in which each backquote stands for a double quote. *)
Definition backquoted (s : string) : string :=
  replaceAll "`" (String "034" "") s.

(** [s.endsWith(suffix)] and the text before a suffix of known
    length. *)
Definition dropEnd (n : nat) (s : string) : string :=
  substring 0 (String.length s - n) s.

Definition endsWith (suffix s : string) : bool :=
  let n := String.length suffix in
  let m := String.length s in
  (n <=? m)%nat && String.eqb (substring (m - n) n s) suffix.

(** Decimal rendering of a counter, as template literals print it. *)
Definition digit (n : nat) : ascii := ascii_of_nat (48 + n).

Fixpoint of_nat_aux (fuel n : nat) (acc : string) : string :=
  match fuel with
  | O => acc
  | S fuel' =>
      let acc' := String (digit (n mod 10)) acc in
      match (n / 10)%nat with
      | O => acc'
      | q => of_nat_aux fuel' q acc'
      end
  end.

Definition of_nat (n : nat) : string := of_nat_aux (S n) n "".

Definition of_Z (z : Z) : string :=
  match z with
  | Z0 => "0"
  | Zpos _ => of_nat (Z.to_nat z)
  | Zneg _ => "-" ++ of_nat (Z.to_nat (- z))
  end.

End JsString.

(** ** Numbers of the JavaScript runtime

    A Number is a binary64 value.  The finite ones are the multiples
    [m * 2^e] of a power of two by an integer below [2^53], down to the
    multiples of [2^-1074]; an operation gives the value nearest to its
    exact result, a tie going to the even significand, and the infinity
    beyond the largest value. *)

Module Double.

(** [Finite q] is the finite value [q], zero being the positive zero. *)
Inductive Number : Type :=
| Finite (q : Q)
| NegZero
| Infinity (negative : bool)
| NaN.

(** The integer nearest to [a / b], a tie going to the even one; [b] is
    positive. *)
Definition rne (a b : Z) : Z :=
  let q := a / b in
  let r := a mod b in
  if 2 * r <? b then q
  else if b <? 2 * r then q + 1
  else if Z.even q then q else q + 1.

(** Every finite value is a multiple of [2^-1074]; [ulps] is the weight of
    one in these units, and [huge] is [2^1024] in them. *)
Definition ulps : Z := 2 ^ 1074.
Definition huge : Z := 2 ^ 2098.

(** The value nearest to [a / b], which is not negative, both in units of
    [2^-1074]: the integer with at most 53 significant bits nearest to
    it. *)
Definition round_scaled (a b : Z) : Z :=
  let s := Z.max 0 (Z.log2 (a / b) - 52) in
  rne a (b * 2 ^ s) * 2 ^ s.

Definition of_scaled (m : Z) : Q := Qred (Qmake m (Z.to_pos ulps)).

(** The Number value for a real. *)
Definition round (x : Q) : Number :=
  match Qnum x with
  | Z0 => Finite 0
  | Zpos _ =>
      let m := round_scaled (Qnum x * ulps) (Zpos (Qden x)) in
      if m <? huge then Finite (of_scaled m) else Infinity false
  | Zneg _ =>
      let m := round_scaled (- Qnum x * ulps) (Zpos (Qden x)) in
      if m =? 0 then NegZero
      else if m <? huge then Finite (- of_scaled m) else Infinity true
  end.

(** The sign bit. *)
Definition negative (x : Number) : bool :=
  match x with
  | Finite q => Qnum q <? 0
  | NegZero => true
  | Infinity n => n
  | NaN => false
  end.

(** The real that a finite Number stands for. *)
Definition value (x : Number) : option Q :=
  match x with
  | Finite q => Some q
  | NegZero => Some 0%Q
  | _ => None
  end.

Definition zero (negative_ : bool) : Number :=
  if negative_ then NegZero else Finite 0.

Definition is_zero (q : Q) : bool := Qnum q =? 0.

(** [x + y] *)
Definition add (x y : Number) : Number :=
  match x, y with
  | NaN, _ | _, NaN => NaN
  | Infinity a, Infinity b => if Bool.eqb a b then Infinity a else NaN
  | Infinity a, _ => Infinity a
  | _, Infinity b => Infinity b
  | NegZero, NegZero => NegZero
  | NegZero, Finite q => round q
  | Finite p, NegZero => round p
  | Finite p, Finite q => round (p + q)
  end.

(** [x * y] *)
Definition mul (x y : Number) : Number :=
  let sign := xorb (negative x) (negative y) in
  match x, y with
  | NaN, _ | _, NaN => NaN
  | Infinity _, Infinity _ => Infinity sign
  | Infinity _, other | other, Infinity _ =>
      match value other with
      | Some q => if is_zero q then NaN else Infinity sign
      | None => NaN
      end
  | _, _ =>
      match value x, value y with
      | Some p, Some q =>
          if is_zero p || is_zero q then zero sign else round (p * q)
      | _, _ => NaN
      end
  end.

(** [x / y] *)
Definition div (x y : Number) : Number :=
  let sign := xorb (negative x) (negative y) in
  match x, y with
  | NaN, _ | _, NaN => NaN
  | Infinity _, Infinity _ => NaN
  | Infinity _, _ => Infinity sign
  | _, Infinity _ => zero sign
  | _, _ =>
      match value x, value y with
      | Some p, Some q =>
          if is_zero q then (if is_zero p then NaN else Infinity sign)
          else if is_zero p then zero sign
          else round (p / q)
      | _, _ => NaN
      end
  end.

(** [Math.floor(x)] *)
Definition Math_floor (x : Number) : Number :=
  match x with
  | Finite q => Finite (inject_Z (Qfloor q))
  | _ => x
  end.

(** [Math.round(x)]: the nearest integer, a half going up; a result of
    zero keeps the sign of [x]. *)
Definition Math_round (x : Number) : Number :=
  match x with
  | Finite q =>
      let r := Qfloor (q + (1 # 2)) in
      if (r =? 0) && (Qnum q <? 0) then NegZero else Finite (inject_Z r)
  | _ => x
  end.

(** The Number value of the decimal numeral [m * 10^e] with its sign;
    [m] is not negative. *)
Definition of_decimal (negative_ : bool) (m e : Z) : Number :=
  if m =? 0 then zero negative_
  else
    let q := if 0 <=? e then inject_Z (m * 10 ^ e)
             else Qmake m (Z.to_pos (10 ^ (- e))) in
    round (if negative_ then (- q)%Q else q).

End Double.

Coercion Double.Finite : Q >-> Double.Number.

(** ** JSON values and [JSON.parse] *)

Module Json.

(** The value [JSON.parse] returns.  An object keeps its keys in insertion
    order; a repeated key keeps its first position and its last value. *)
Inductive json : Type :=
| JNull
| JBool (b : bool)
| JNum (n : Double.Number)
| JStr (s : string)
| JArr (items : list json)
| JObj (fields : list (string * json)).

(** [obj[key] = v] on the list of fields. *)
Fixpoint set_field (key : string) (v : json) (fields : list (string * json))
  : list (string * json) :=
  match fields with
  | [] => [(key, v)]
  | (k, old) :: rest =>
      if String.eqb k key then (k, v) :: rest
      else (k, old) :: set_field key v rest
  end.

Fixpoint lookup (key : string) (fields : list (string * json)) : option json :=
  match fields with
  | [] => None
  | (k, v) :: rest => if String.eqb k key then Some v else lookup key rest
  end.

(** [j.key]; [None] is [undefined]. *)
Definition get (key : string) (j : json) : option json :=
  match j with
  | JObj fields => lookup key fields
  | _ => None
  end.

(** *** Lexical layer *)

Definition is_ws (c : ascii) : bool :=
  let n := nat_of_ascii c in
  (n =? 32)%nat || (n =? 9)%nat || (n =? 10)%nat || (n =? 13)%nat.

Fixpoint skip_ws (s : list ascii) : list ascii :=
  match s with
  | c :: r => if is_ws c then skip_ws r else s
  | [] => []
  end.

Definition digit_val (c : ascii) : option Z :=
  let n := nat_of_ascii c in
  if ((48 <=? n) && (n <=? 57))%nat then Some (Z.of_nat (n - 48)) else None.

Definition hex_val (c : ascii) : option Z :=
  let n := nat_of_ascii c in
  if ((48 <=? n) && (n <=? 57))%nat then Some (Z.of_nat (n - 48))
  else if ((65 <=? n) && (n <=? 70))%nat then Some (Z.of_nat (n - 55))
  else if ((97 <=? n) && (n <=? 102))%nat then Some (Z.of_nat (n - 87))
  else None.

(** Reads the longest run of decimal digits: its value, its length and the
    rest of the input. *)
Fixpoint digits (acc : Z) (len : nat) (s : list ascii)
  : Z * nat * list ascii :=
  match s with
  | c :: r =>
      match digit_val c with
      | Some d => digits (acc * 10 + d) (S len) r
      | None => (acc, len, s)
      end
  | [] => (acc, len, [])
  end.

Definition parse_int_part (s : list ascii) : option (Z * list ascii) :=
  match s with
  | c :: r =>
      match digit_val c with
      | Some 0 => Some (0, r)
      | Some _ => let '(v, _, r') := digits 0 0%nat s in Some (v, r')
      | None => None
      end
  | [] => None
  end.

Definition parse_frac_part (s : list ascii) : option (Z * nat * list ascii) :=
  match s with
  | c :: r =>
      if Ascii.eqb c "." then
        match digits 0 0%nat r with
        | (_, O, _) => None
        | res => Some res
        end
      else Some (0, 0%nat, s)
  | [] => Some (0, 0%nat, [])
  end.

(** The digits of an exponent, which may not be missing. *)
Definition exponent_digits (sign : Z) (s : list ascii) : option (Z * list ascii) :=
  match digits 0 0%nat s with
  | (_, O, _) => None
  | (v, _, rest) => Some (sign * v, rest)
  end.

Definition parse_exp_part (s : list ascii) : option (Z * list ascii) :=
  match s with
  | c :: r =>
      if (Ascii.eqb c "e" || Ascii.eqb c "E")%bool then
        match r with
        | c' :: r' =>
            if Ascii.eqb c' "+" then exponent_digits 1 r'
            else if Ascii.eqb c' "-" then exponent_digits (-1) r'
            else exponent_digits 1 r
        | [] => None
        end
      else Some (0, s)
  | [] => Some (0, [])
  end.

(** A JSON number: [-? int frac? exp?]; its value is the Number value of
    the numeral. *)
Definition parse_number (s : list ascii) : option (Double.Number * list ascii) :=
  let '(sign, s1) :=
    match s with
    | c :: r => if Ascii.eqb c "-" then (-1, r) else (1, s)
    | [] => (1, s)
    end in
  match parse_int_part s1 with
  | None => None
  | Some (ip, s2) =>
      match parse_frac_part s2 with
      | None => None
      | Some (fp, flen, s3) =>
          match parse_exp_part s3 with
          | None => None
          | Some (ex, s4) =>
              let m := ip * 10 ^ Z.of_nat flen + fp in
              Some (Double.of_decimal (sign <? 0) m (ex - Z.of_nat flen), s4)
          end
      end
  end.

(** One element of a string literal before encoding: a byte copied from the
    input, or a UTF-16 code unit written as [\uXXXX]. *)
Inductive str_item : Type :=
| Raw (c : ascii)
| Unit16 (u : Z).

Definition quote : ascii := "034"%char.
Definition backslash : ascii := "\"%char.

(** The character that a one-letter escape stands for. *)
Definition escape_char (e : ascii) : option ascii :=
  if Ascii.eqb e quote then Some quote
  else if Ascii.eqb e backslash then Some backslash
  else if Ascii.eqb e "/" then Some "/"%char
  else if Ascii.eqb e "b" then Some (ascii_of_nat 8)
  else if Ascii.eqb e "f" then Some (ascii_of_nat 12)
  else if Ascii.eqb e "n" then Some (ascii_of_nat 10)
  else if Ascii.eqb e "r" then Some (ascii_of_nat 13)
  else if Ascii.eqb e "t" then Some (ascii_of_nat 9)
  else None.

Definition push (i : str_item) (k : option (list str_item * list ascii))
  : option (list str_item * list ascii) :=
  match k with
  | Some (items, rest) => Some (i :: items, rest)
  | None => None
  end.

(** The body of a string literal, after its opening quote. *)
Fixpoint parse_str_items (s : list ascii) : option (list str_item * list ascii) :=
  match s with
  | [] => None
  | c :: r =>
      if Ascii.eqb c quote then Some ([], r)
      else if Ascii.eqb c backslash then
        match r with
        | [] => None
        | e :: r' =>
            if Ascii.eqb e "u" then
              match r' with
              | a :: b :: c :: d :: r'' =>
                  match hex_val a, hex_val b, hex_val c, hex_val d with
                  | Some x3, Some x2, Some x1, Some x0 =>
                      push (Unit16 (((x3 * 16 + x2) * 16 + x1) * 16 + x0))
                        (parse_str_items r'')
                  | _, _, _, _ => None
                  end
              | _ => None
              end
            else
              match escape_char e with
              | Some x => push (Raw x) (parse_str_items r')
              | None => None
              end
        end
      else if (nat_of_ascii c <? 32)%nat then None
      else push (Raw c) (parse_str_items r)
  end.

Definition byte (z : Z) : ascii := ascii_of_nat (Z.to_nat z).

(** UTF-8 encoding of a code point; a lone surrogate is encoded in three
    bytes like any other code point of its range. *)
Definition utf8 (cp : Z) : list ascii :=
  if cp <? 128 then [byte cp]
  else if cp <? 2048 then
    [byte (192 + cp / 64); byte (128 + cp mod 64)]
  else if cp <? 65536 then
    [byte (224 + cp / 4096); byte (128 + (cp / 64) mod 64); byte (128 + cp mod 64)]
  else
    [byte (240 + cp / 262144); byte (128 + (cp / 4096) mod 64);
     byte (128 + (cp / 64) mod 64); byte (128 + cp mod 64)].

Definition is_high (u : Z) : bool := (55296 <=? u) && (u <=? 56319).
Definition is_low (u : Z) : bool := (56320 <=? u) && (u <=? 57343).

Fixpoint encode_items (items : list str_item) : list ascii :=
  match items with
  | [] => []
  | Raw c :: rest => c :: encode_items rest
  | Unit16 hi :: rest =>
      match rest with
      | Unit16 lo :: rest' =>
          if is_high hi && is_low lo
          then utf8 (65536 + (hi - 55296) * 1024 + (lo - 56320)) ++ encode_items rest'
          else utf8 hi ++ encode_items rest
      | _ => utf8 hi ++ encode_items rest
      end
  end.

Definition parse_string (s : list ascii) : option (string * list ascii) :=
  match parse_str_items s with
  | Some (items, rest) => Some (JsString.of_chars (encode_items items), rest)
  | None => None
  end.

Definition expect (word : string) (s : list ascii) : option (list ascii) :=
  let w := JsString.chars word in
  if list_eq_dec ascii_dec (firstn (length w) s) w
  then Some (skipn (length w) s) else None.

(** *** Values *)

Fixpoint parse_value (fuel : nat) (s : list ascii) {struct fuel}
  : option (json * list ascii) :=
  match fuel with
  | O => None
  | S fuel' =>
      match skip_ws s with
      | [] => None
      | c :: r =>
          if Ascii.eqb c "{" then
            match skip_ws r with
            | [] => None
            | c' :: r' =>
                if Ascii.eqb c' "}" then Some (JObj [], r')
                else
                  match parse_members fuel' [] (c' :: r') with
                  | Some (fields, rest) => Some (JObj fields, rest)
                  | None => None
                  end
            end
          else if Ascii.eqb c "[" then
            match skip_ws r with
            | [] => None
            | c' :: r' =>
                if Ascii.eqb c' "]" then Some (JArr [], r')
                else
                  match parse_elements fuel' (c' :: r') with
                  | Some (items, rest) => Some (JArr items, rest)
                  | None => None
                  end
            end
          else if Ascii.eqb c quote then
            match parse_string r with
            | Some (str, rest) => Some (JStr str, rest)
            | None => None
            end
          else if Ascii.eqb c "t" then
            match expect "true" (c :: r) with
            | Some rest => Some (JBool true, rest)
            | None => None
            end
          else if Ascii.eqb c "f" then
            match expect "false" (c :: r) with
            | Some rest => Some (JBool false, rest)
            | None => None
            end
          else if Ascii.eqb c "n" then
            match expect "null" (c :: r) with
            | Some rest => Some (JNull, rest)
            | None => None
            end
          else
            match parse_number (c :: r) with
            | Some (q, rest) => Some (JNum q, rest)
            | None => None
            end
      end
  end

with parse_elements (fuel : nat) (s : list ascii) {struct fuel}
  : option (list json * list ascii) :=
  match fuel with
  | O => None
  | S fuel' =>
      match parse_value fuel' s with
      | None => None
      | Some (v, r) =>
          match skip_ws r with
          | [] => None
          | c :: r' =>
              if Ascii.eqb c "," then
                match parse_elements fuel' r' with
                | Some (vs, rest) => Some (v :: vs, rest)
                | None => None
                end
              else if Ascii.eqb c "]" then Some ([v], r')
              else None
          end
      end
  end

with parse_members (fuel : nat) (acc : list (string * json)) (s : list ascii)
  {struct fuel} : option (list (string * json) * list ascii) :=
  match fuel with
  | O => None
  | S fuel' =>
      match skip_ws s with
      | [] => None
      | c :: r =>
          if Ascii.eqb c quote then
            match parse_string r with
            | None => None
            | Some (key, r1) =>
                match skip_ws r1 with
                | [] => None
                | c1 :: r2 =>
                    if Ascii.eqb c1 ":" then
                      match parse_value fuel' r2 with
                      | None => None
                      | Some (v, r3) =>
                          match skip_ws r3 with
                          | [] => None
                          | c3 :: r4 =>
                              if Ascii.eqb c3 "," then
                                parse_members fuel' (set_field key v acc) r4
                              else if Ascii.eqb c3 "}"
                              then Some (set_field key v acc, r4)
                              else None
                          end
                      end
                    else None
                end
            end
          else None
      end
  end.

(** [JSON.parse(text)]; [None] stands for the [SyntaxError] it throws.
    Twice the length of the text is fuel enough for any text
    ([parse_value_fuel] below). *)
Definition JSON_parse (text : string) : option json :=
  let s := JsString.chars text in
  match parse_value (2 * length s + 2) s with
  | Some (v, rest) =>
      match skip_ws rest with
      | [] => Some v
      | _ => None
      end
  | None => None
  end.

End Json.

(** ** [window.atob] *)

Module Base64.

Definition sextet (c : ascii) : option Z :=
  let n := nat_of_ascii c in
  if ((65 <=? n) && (n <=? 90))%nat then Some (Z.of_nat (n - 65))
  else if ((97 <=? n) && (n <=? 122))%nat then Some (Z.of_nat (n - 71))
  else if ((48 <=? n) && (n <=? 57))%nat then Some (Z.of_nat (n + 4))
  else if (n =? 43)%nat then Some 62
  else if (n =? 47)%nat then Some 63
  else None.

Fixpoint sextets (s : list ascii) : option (list Z) :=
  match s with
  | [] => Some []
  | c :: r =>
      match sextet c, sextets r with
      | Some v, Some vs => Some (v :: vs)
      | _, _ => None
      end
  end.

(** ASCII white space of the forgiving decoder: TAB, LF, FF, CR, SPACE. *)
Definition is_ascii_ws (c : ascii) : bool :=
  let n := nat_of_ascii c in
  (n =? 9)%nat || (n =? 10)%nat || (n =? 12)%nat || (n =? 13)%nat || (n =? 32)%nat.

(** At most two [=] are dropped from the end, and only when the length is
    a multiple of four. *)
Definition strip_padding (s : list ascii) : list ascii :=
  if (length s mod 4 =? 0)%nat then
    match rev s with
    | "="%char :: "="%char :: r => rev r
    | "="%char :: r => rev r
    | _ => s
    end
  else s.

Fixpoint decode_groups (l : list Z) : list ascii :=
  match l with
  | a :: b :: c :: d :: rest =>
      Json.byte (a * 4 + b / 16) :: Json.byte ((b mod 16) * 16 + c / 4)
        :: Json.byte ((c mod 4) * 64 + d) :: decode_groups rest
  | [a; b; c] => [Json.byte (a * 4 + b / 16); Json.byte ((b mod 16) * 16 + c / 4)]
  | [a; b] => [Json.byte (a * 4 + b / 16)]
  | _ => []
  end.

(** The binary string of some bytes: one character for each byte, from
    U+0000 to U+00FF, held as UTF-8 like every text. *)
Definition binary_string (bytes : list ascii) : string :=
  JsString.of_chars (flat_map (fun b => Json.utf8 (Z.of_nat (nat_of_ascii b))) bytes).

(** [window.atob(data)]; [None] stands for the [InvalidCharacterError] it
    throws. *)
Definition atob (data : string) : option string :=
  let s := strip_padding (filter (fun c => negb (is_ascii_ws c)) (JsString.chars data)) in
  if (length s mod 4 =? 1)%nat then None
  else
    match sextets s with
    | Some vs => Some (binary_string (decode_groups vs))
    | None => None
    end.

End Base64.

(** ** Exceptions, effects and the environment *)

Module Js.

Inductive ErrorName : Type :=
| Error
| SyntaxError
| TypeError
| InvalidCharacterError.

(** A thrown [Error] object: its constructor and its [message]. *)
Record Exn : Type := mkExn { name : ErrorName; message : string }.

(** One part of the [contents] of a Gemini request. *)
Inductive Part : Type :=
| TextPart (text : string)
| InlineData (mimeType : string) (data : option string).

(** [ai.models.generateContent({ model, contents: { parts }, config })];
    [config] is the same constant in every call. *)
Record GeminiRequest : Type := mkGeminiRequest {
  g_model : string;
  g_parts : list Part
}.

(** [openai.chat.completions.create({ model, messages, ... })] with its
    system and user message. *)
Record ChatRequest : Type := mkChatRequest {
  c_model : string;
  c_system : string;
  c_user : string
}.

(** What the outside can observe of a run, in order. *)
Inductive Event : Type :=
| ConsoleWarn (msg : string)
| ConsoleError (msg : string)
| SetTimeout (ms : Z)
| GeminiCall (req : GeminiRequest)
| OpenAICall (req : ChatRequest)
| RandomDraw
| Alert (msg : string)
| Invoked.

Definition World : Type := list Event.

(** What a provider call resolves to: a rejection, or a response whose
    text ([response.text], [choices[0].message.content]) may be absent. *)
Inductive Reply : Type :=
| Rejected (e : Exn)
| Replied (text : option string).

Inductive Outcome (A : Type) : Type :=
| Returned (a : A)
| Thrown (e : Exn).
Arguments Returned {A} a.
Arguments Thrown {A} e.

(** Everything the code reads from outside itself.  A provider answers its
    [n]-th call (counting from 0) as a function of the request;
    [mammoth_extractRawText] is the [value] that the extraction library
    makes of the bytes of a document, or what it throws; [Math_random n]
    holds the 53 bits of the [n]-th draw, the draw being that integer
    divided by [2^53]. *)
Record Env : Type := mkEnv {
  API_KEY : option string;
  OPENAI_API_KEY : option string;
  mammoth_extractRawText : string -> Outcome string;
  generateContent : nat -> GeminiRequest -> Reply;
  chat_completions_create : nat -> ChatRequest -> Reply;
  Math_random : nat -> Z
}.

(** An awaited promise: a run from one trace to the next. *)
Definition M (A : Type) : Type := World -> Outcome A * World.

Definition ret {A} (a : A) : M A := fun w => (Returned a, w).

Definition throw {A} (e : Exn) : M A := fun w => (Thrown e, w).

Definition bind {A B} (m : M A) (k : A -> M B) : M B :=
  fun w =>
    match m w with
    | (Returned a, w') => k a w'
    | (Thrown e, w') => (Thrown e, w')
    end.

(** [try { m } catch (e) { handler(e) }] *)
Definition try_catch {A} (m : M A) (handler : Exn -> M A) : M A :=
  fun w =>
    match m w with
    | (Returned a, w') => (Returned a, w')
    | (Thrown e, w') => handler e w'
    end.

Definition emit (e : Event) : M unit := fun w => (Returned tt, (w ++ [e])%list).

Definition is_gemini_call (e : Event) : bool :=
  match e with GeminiCall _ => true | _ => false end.

Definition is_openai_call (e : Event) : bool :=
  match e with OpenAICall _ => true | _ => false end.

Definition is_random_draw (e : Event) : bool :=
  match e with RandomDraw => true | _ => false end.

Definition count (p : Event -> bool) (w : World) : nat := length (filter p w).

(** [await new Promise(resolve => setTimeout(resolve, ms))] *)
Definition sleep (ms : Z) : M unit := emit (SetTimeout ms).

(** [new Error(msg)] *)
Definition error (msg : string) : Exn := mkExn Error msg.

(** [JSON.parse(text)] as a computation.  The wording of the message of
    its [SyntaxError] differs from one engine to the next; one wording
    stands for all. *)
Definition JSON_parse (text : string) : M Json.json :=
  match Json.JSON_parse text with
  | Some v => ret v
  | None => throw (mkExn SyntaxError "Unexpected token in JSON")
  end.

(** [window.atob(data)] as a computation, with the message of one
    browser. *)
Definition atob (data : string) : M string :=
  match Base64.atob data with
  | Some s => ret s
  | None =>
      throw (mkExn InvalidCharacterError "The string to be decoded is not correctly encoded.")
  end.

(** A call wrapped by a test spy, which records each invocation. *)
Definition spy {A} (operation : M A) : M A :=
  bind (emit Invoked) (fun _ => operation).

End Js.

Declare Scope js_scope.
Delimit Scope js_scope with js.
Notation "x <- m ;; k" := (Js.bind m (fun x => k))
  (at level 61, m at next level, right associativity) : js_scope.
Notation "m ;; k" := (Js.bind m (fun _ => k))
  (at level 61, right associativity) : js_scope.

(** ** [types.ts] *)

Module Types.

(** A browser [File], of which the code reads the name only. *)
Record File : Type := mkFile { file_name : string }.

Inductive Source : Type := local | sharepoint.

Record FileInput : Type := mkFileInput {
  file : option File;
  base64 : option string;
  mimeType : string;
  source : option Source
}.

Inductive JobDescriptionMode : Type := TEXT | FILE.

Inductive AiProvider : Type := gemini | openai.

Record SkillAnalysis : Type := mkSkillAnalysis {
  skill : string;
  score : Q;
  reasoning : string;
  evidence : string
}.

(** The interface that the components are typed against.  The assertion
    [as ScreeningResult] of the service is erased at run time: what the
    service returns is the parsed JSON value, whatever its shape. *)
Record ScreeningResult : Type := mkScreeningResult {
  candidateName : string;
  candidateLocation : string;
  candidateExperience : string;
  currentRole : string;
  email : option string;
  phone : option string;
  resumeText : string;
  overallMatchScore : Q;
  candidateSummary : string;
  skillsAnalysis : list SkillAnalysis;
  strengths : list string;
  weaknesses : list string;
  recommendation : string;
  suitableRoles : list string;
  technicalSkills : list string;
  functionalSkills : list string
}.

(** An object on the heap: [===] and [!==] on objects compare addresses. *)
Record Obj (A : Type) : Type := mkObj { address : nat; content : A }.
Arguments mkObj {A} address content.
Arguments address {A} o.
Arguments content {A} o.

Definition same_object {A} (a b : Obj A) : bool := (address a =? address b)%nat.

End Types.

(** ** [services/geminiService.ts] *)

Module GeminiService.

Import Js Types Json.
Local Open Scope js_scope.

Definition nl : string := String (ascii_of_nat 10) "".

Definition DOCX : string :=
  "application/vnd.openxmlformats-officedocument.wordprocessingml.document".

Definition PDF : string := "application/pdf".

(** The template literals of the service, written with a backquote where
    the text has a double quote. *)
Definition prompt_head : string :=
  JsString.backquoted "
    You are an expert HR Technical Recruiter and Resume Screener known for being extremely strict and precise.
    
    ".

Definition prompt_tail : string :=
  JsString.backquoted "

    Your goal is to screen the attached resume against the Job Description (JD) with high precision, verifying claims against evidence.

    Steps:
    1. **Analyze the JD**: Identify the critical `Must-Have` technical skills, required years of experience, and essential soft skills. Distinguish these from `Nice-to-Have` skills.
    2. **Analyze the Resume**: Extract candidate details and skills. 
       - NOTE: If the resume content appears to be invalid, random text, or not a resume at all, set 'recommendation' to `Not a Match`, 'overallMatchScore' to 0, and 'candidateName' to `Unknown/Invalid File`.
    3. **Strict Comparison (Evidence-Based)**: 
       - **Context Matters**: Do not just keyword match. A candidate listing `Python` in a skills section is different from one who used `Python` to build a backend API in their last job.
       - **Penalty for Missing Must-Haves**: If a core requirement (e.g., `5+ years of Java`) is missing or the candidate only has 1 year, the score for that skill must be low (<40), and the overall match score must be significantly impacted.
       - **Keyword Stuffing**: Assign low scores (30-50) if a skill is only found in a `Skills` list without context in the `Experience` section.
       - **Synonyms**: 'AWS' matches 'Amazon Web Services'; 'React' matches 'React.js'.
    4. **Recommendation Logic**:
       - **Strong Match**: Candidate meets ALL `Must-Have` requirements with strong evidence in recent roles.
       - **Potential Match**: Meets most `Must-Haves` but might lack specific domain knowledge or full years of experience.
       - **Weak Match**: Missing one or more critical `Must-Have` skills, or experience is significantly lower than required.
       - **Not a Match**: Fundamental mismatch (e.g., wrong tech stack, junior applying for architect role, missing multiple core skills).

    Task output:
    1. Extract candidate's Name, Location, Experience, Role, Email.
    2. Extract Phone: **Strictly remove any international country codes** (e.g., +1, +91, 0044). Return only the local 10-digit (or standard local length) number. Format as (XXX) XXX-XXXX if it is a US number, or standard local format otherwise.
    3. Extract FULL resume text.
    4. 'skillsAnalysis': List the *JD Requirements* you identified in Step 1.
       - Score strictly based on evidence found in the 'Experience' or 'Projects' sections, not just the 'Skills' list.
       - In 'evidence', quote the specific text. If no evidence exists in experience/projects, state `Listed in skills only` or `No evidence found`.
    5. 'overallMatchScore': A weighted average. Weight `Must-Have` skills double.
    6. 'suitableRoles': 3-5 roles this candidate fits.
    7. 'technicalSkills' & 'functionalSkills': Comprehensive lists.

    Be extremely critical. It is better to reject a weak candidate than to falsely recommend them.
".

Definition getCommonPrompt (jdContext : string) : string :=
  prompt_head ++ jdContext ++ prompt_tail.

(** The JSON skeleton appended to the system message in OpenAI mode. *)
Definition jsonStructurePrompt : string :=
  JsString.backquoted "
        IMPORTANT: Your response MUST be valid JSON adhering exactly to this structure:
        {
          `candidateName`: `string`,
          `candidateLocation`: `string`,
          `candidateExperience`: `string`,
          `currentRole`: `string`,
          `email`: `string`,
          `phone`: `string`,
          `resumeText`: `string`,
          `overallMatchScore`: 0,
          `candidateSummary`: `string`,
          `skillsAnalysis`: [{ `skill`: `string`, `score`: 0, `reasoning`: `string`, `evidence`: `string` }],
          `strengths`: [`string`],
          `weaknesses`: [`string`],
          `recommendation`: `Strong Match` | `Potential Match` | `Weak Match` | `Not a Match`,
          `suitableRoles`: [`string`],
          `technicalSkills`: [`string`],
          `functionalSkills`: [`string`]
        }
        ".

(** The text of the [console.warn] before a retry. *)
Definition retry_warning (retries : Z) : string :=
  "Operation failed, retrying... (" ++ JsString.of_Z retries ++ " attempts left)".

(** [async function retryOperation(operation, retries = 2, delay = 1000)].
    The trace is passed explicitly: the recursive call runs after the
    warning and the timer of this attempt. *)
Equations? retryOperation {T : Type} (operation : M T) (retries delay : Z)
  (w : World) : Outcome T * World by wf (Z.to_nat retries) lt :=
retryOperation operation retries delay w with operation w => {
  | (Returned v, w1) => (Returned v, w1);
  | (Thrown error, w1) with inspect (0 <? retries) => {
      | exist _ true Hpos =>
          retryOperation operation (retries - 1) (delay * 2)
            (w1 ++ [ConsoleWarn (retry_warning retries); SetTimeout delay])%list;
      | exist _ false _ => (Thrown error, w1) } }.
Proof. apply Z.ltb_lt in Hpos. lia. Qed.

Section WithEnv.

Variable env : Env.

(** The network round trip of [ai.models.generateContent]. *)
Definition ai_models_generateContent (req : GeminiRequest) : M (option string) :=
  fun w =>
    match generateContent env (count is_gemini_call w) req with
    | Rejected e => (Thrown e, (w ++ [GeminiCall req])%list)
    | Replied text => (Returned text, (w ++ [GeminiCall req])%list)
    end.

(** The network round trip of [openai.chat.completions.create], up to
    [choices[0].message.content]. *)
Definition openai_chat_completions_create (req : ChatRequest) : M (option string) :=
  fun w =>
    match chat_completions_create env (count is_openai_call w) req with
    | Rejected e => (Thrown e, (w ++ [OpenAICall req])%list)
    | Replied text => (Returned text, (w ++ [OpenAICall req])%list)
    end.

(** [Math.random()]: the draw, a multiple of [2^-53] below one. *)
Definition Math_random_value (n : nat) : Double.Number :=
  Double.Finite (Qmake (Math_random env n mod 2 ^ 53) (Z.to_pos (2 ^ 53))).

(** [Math.floor(Math.random() * k)] *)
Definition Math_floor_random_times (k : Z) : M Double.Number :=
  fun w =>
    let draw := Math_random_value (count is_random_draw w) in
    (Returned (Double.Math_floor (Double.mul draw (Double.Finite (inject_Z k)))),
     (w ++ [RandomDraw])%list).

(** [extractTextFromDocx]: any failure of the decoding or of the
    extraction is logged and becomes the empty text. *)
Definition extractTextFromDocx (data : string) : M string :=
  try_catch
    (binaryString <- atob data ;;
     fun w => (mammoth_extractRawText env binaryString, w))
    (fun e => emit (ConsoleError "Failed to extract text from DOCX") ;; ret "").

Definition jstr (s : string) : json := JStr s.
Definition jnum (z : Z) : json := JNum (inject_Z z).
Definition jstrs (l : list string) : json := JArr (map JStr l).

Definition skill_entry (skill : string) (score : Z) (reasoning evidence : string) : json :=
  JObj [("skill", jstr skill); ("score", jnum score);
        ("reasoning", jstr reasoning); ("evidence", jstr evidence)].

(** [fileName.replace(/\.(pdf|docx)$/, '')] *)
Definition strip_extension (fileName : string) : string :=
  if JsString.endsWith ".pdf" fileName then JsString.dropEnd 4 fileName
  else if JsString.endsWith ".docx" fileName then JsString.dropEnd 5 fileName
  else fileName.

Definition generateMockResult (fileName : string) : M json :=
  r <- Math_floor_random_times 40 ;;
  ret (JObj [
    ("candidateName", jstr (JsString.replaceAll "_" " " (strip_extension fileName)));
    ("candidateLocation", jstr "SharePoint Import (Demo)");
    ("candidateExperience", jstr "5+ years");
    ("currentRole", jstr "Software Engineer");
    ("email", jstr "demo.candidate@example.com");
    ("phone", jstr "555-0123");
    ("resumeText", jstr "This is a simulated resume text for demonstration purposes as the file was imported from a mock SharePoint source.");
    ("overallMatchScore", JNum (Double.add r (Double.Finite 60)));
    ("candidateSummary", jstr "This is a generated summary for the SharePoint demo. In a production environment, the file content would be fetched via Microsoft Graph API and analyzed by the AI.");
    ("skillsAnalysis", JArr [
       skill_entry "React" 85 "Demonstrated strong proficiency in simulated context." "Built complex UIs";
       skill_entry "TypeScript" 75 "Good understanding implied by role." "Used in recent projects";
       skill_entry "Cloud Platforms" 60 "Mentioned but lacks specific details in this mock." "Deployed apps"]);
    ("strengths", jstrs ["Quick Learner"; "Team Player"; "Technical adaptability"]);
    ("weaknesses", jstrs ["Mock data lacks depth"]);
    ("recommendation", jstr "Potential Match");
    ("suitableRoles", jstrs ["Frontend Developer"; "Full Stack Engineer"]);
    ("technicalSkills", jstrs ["JavaScript"; "React"; "Node.js"; "Git"]);
    ("functionalSkills", jstrs ["Communication"; "Agile"])]).

(** [jobDescriptionFile && jobDescriptionFile.base64] *)
Definition jd_file_content (jobDescriptionFile : option FileInput) : option (FileInput * string) :=
  match jobDescriptionFile with
  | Some jd =>
      match base64 jd with
      | Some data => if JsString.truthy data then Some (jd, data) else None
      | None => None
      end
  | None => None
  end.

(** Common: Prepare JD Context *)
Definition prepare_jd_context (jobDescriptionText : string)
  (jobDescriptionFile : option FileInput) (provider : AiProvider) : M string :=
  let jdContext := "Job Description Context:" ++ nl in
  match jd_file_content jobDescriptionFile with
  | Some (jd, data) =>
      if String.eqb (mimeType jd) DOCX then
        jdText <- extractTextFromDocx data ;;
        ret (jdContext ++ jdText)
      else
        match provider with
        | gemini => ret (jdContext ++ "(See attached Job Description document)")
        | openai =>
            if String.eqb (mimeType jd) PDF then
              emit (ConsoleWarn "PDF Job Description not fully supported in OpenAI mode without text extraction. Results may be less accurate.") ;;
              ret (jdContext ++ "(Attached JD is a PDF - Please copy text for better results)")
            else
              decoded <- atob data ;;
              ret (jdContext ++ decoded)
        end
  | None =>
      if JsString.truthy (JsString.trim jobDescriptionText)
      then ret (jdContext ++ jobDescriptionText)
      else throw (error "No Job Description provided.")
  end.

(** The end of either adapter:
    [if (!text) throw new Error(...); return JSON.parse(text) as ScreeningResult],
    the assertion being erased at run time. *)
Definition parse_response (empty_message : string) (text : option string) : M json :=
  match text with
  | Some t =>
      if JsString.truthy t then Js.JSON_parse t
      else throw (error empty_message)
  | None => throw (error empty_message)
  end.

(** Resume Part of the Gemini request. *)
Definition resume_part (resume : FileInput) (data : string) : M Part :=
  if String.eqb (mimeType resume) DOCX then
    extractedText <- extractTextFromDocx data ;;
    if negb (JsString.truthy extractedText)
       || (String.length (JsString.trim extractedText) =? 0)%nat
    then throw (error "Empty DOCX")
    else ret (TextPart ("RESUME TEXT CONTENT:" ++ nl ++ extractedText))
  else ret (InlineData (mimeType resume) (Some data)).

(** JD Part (if using inline data for PDF JD) *)
Definition jd_part (jobDescriptionFile : option FileInput) : list Part :=
  match jobDescriptionFile with
  | Some jd =>
      if String.eqb (mimeType jd) PDF
      then [InlineData (mimeType jd) (base64 jd)]
      else []
  | None => []
  end.

(** Provider: Gemini *)
Definition gemini_operation (resume : FileInput) (data : string)
  (jobDescriptionFile : option FileInput) (modelName jdContext : string) : M json :=
  if negb (JsString.truthy_opt (API_KEY env))
  then throw (error "Gemini API Key missing in environment variables.")
  else
    part <- resume_part resume data ;;
    let parts := ([part] ++ jd_part jobDescriptionFile
                    ++ [TextPart (getCommonPrompt jdContext)])%list in
    text <- ai_models_generateContent (mkGeminiRequest modelName parts) ;;
    parse_response "Empty response from Gemini" text.

(** OpenAI Text Extraction *)
Definition openai_text_extraction (resume : FileInput) (data : string) : M string :=
  if String.eqb (mimeType resume) PDF then
    throw (error "OpenAI mode currently supports DOCX and Text files only. Please use Gemini for PDF resumes.")
  else if String.eqb (mimeType resume) DOCX then extractTextFromDocx data
  else atob data.

(** Provider: OpenAI *)
Definition openai_operation (resume : FileInput) (data : string)
  (modelName jdContext : string) : M json :=
  if negb (JsString.truthy_opt (OPENAI_API_KEY env))
  then throw (error "OpenAI API Key missing. Please configure OPENAI_API_KEY in backend/environment variables.")
  else
    resumeTextContent <- openai_text_extraction resume data ;;
    if negb (JsString.truthy (JsString.trim resumeTextContent))
    then throw (error "Could not extract text from resume for OpenAI processing.")
    else
      let systemMessage := getCommonPrompt jdContext ++ nl ++ nl ++ jsonStructurePrompt in
      content <- openai_chat_completions_create
                   (mkChatRequest modelName systemMessage
                      ("Here is the resume content:" ++ nl ++ nl ++ resumeTextContent)) ;;
      parse_response "No response from OpenAI" content.

(** The closure handed to [retryOperation].  The type [AiProvider] has two
    values, so the closing [throw] of the source for any other provider has
    no counterpart here. *)
Definition operation (resume : FileInput) (data : string)
  (jobDescriptionFile : option FileInput) (modelName : string)
  (provider : AiProvider) (jdContext : string) : M json :=
  match provider with
  | gemini => gemini_operation resume data jobDescriptionFile modelName jdContext
  | openai => openai_operation resume data modelName jdContext
  end.

Definition MOCK : string := "MOCK_BASE64_CONTENT_FOR_DEMO_ONLY".

Definition is_demo (resume : FileInput) : bool :=
  match source resume, base64 resume with
  | Some sharepoint, Some data => String.eqb data MOCK
  | _, _ => false
  end.

(** [resume.file?.name || "Candidate"] *)
Definition file_name_or (resume : FileInput) (default : string) : string :=
  match file resume with
  | Some f => if JsString.truthy (file_name f) then file_name f else default
  | None => default
  end.

Definition screenResume (resume : FileInput) (jobDescriptionText : string)
  (jobDescriptionFile : option FileInput) (modelName : string)
  (provider : AiProvider) : M json :=
  if is_demo resume then
    sleep 1500 ;;
    generateMockResult (file_name_or resume "Candidate")
  else
    match base64 resume with
    | Some data =>
        if JsString.truthy data then
          jdContext <- prepare_jd_context jobDescriptionText jobDescriptionFile provider ;;
          retryOperation
            (operation resume data jobDescriptionFile modelName provider jdContext)
            2 1000
        else throw (error "Resume file content is missing.")
    | None => throw (error "Resume file content is missing.")
    end.

End WithEnv.

End GeminiService.

(** ** [App.tsx]: the batch run and the shortlist *)

Module App.

Import Js Types Json.
Local Open Scope js_scope.

Inductive ViewState : Type := INPUT | CARD | DETAIL | TABLE | SHORTLIST.

(** The part of the component state that [handleScreening] reads or
    writes. *)
Record AppState : Type := mkAppState {
  view : ViewState;
  resumes : list FileInput;
  jdMode : JobDescriptionMode;
  jdText : string;
  jdFile : FileInput;
  provider : AiProvider;
  selectedModel : string;
  loading : bool;
  loadingStatus : string;
  error : option string;
  results : list json;
  currentPage : Z
}.

Definition setError (e : option string) (st : AppState) : AppState :=
  mkAppState (view st) (resumes st) (jdMode st) (jdText st) (jdFile st) (provider st)
    (selectedModel st) (loading st) (loadingStatus st) e (results st) (currentPage st).

Definition setLoading (b : bool) (st : AppState) : AppState :=
  mkAppState (view st) (resumes st) (jdMode st) (jdText st) (jdFile st) (provider st)
    (selectedModel st) b (loadingStatus st) (error st) (results st) (currentPage st).

Definition setLoadingStatus (s : string) (st : AppState) : AppState :=
  mkAppState (view st) (resumes st) (jdMode st) (jdText st) (jdFile st) (provider st)
    (selectedModel st) (loading st) s (error st) (results st) (currentPage st).

Definition setResults (r : list json) (st : AppState) : AppState :=
  mkAppState (view st) (resumes st) (jdMode st) (jdText st) (jdFile st) (provider st)
    (selectedModel st) (loading st) (loadingStatus st) (error st) r (currentPage st).

Definition setCurrentPage (n : Z) (st : AppState) : AppState :=
  mkAppState (view st) (resumes st) (jdMode st) (jdText st) (jdFile st) (provider st)
    (selectedModel st) (loading st) (loadingStatus st) (error st) (results st) n.

Definition setView (v : ViewState) (st : AppState) : AppState :=
  mkAppState v (resumes st) (jdMode st) (jdText st) (jdFile st) (provider st)
    (selectedModel st) (loading st) (loadingStatus st) (error st) (results st) (currentPage st).

Section WithEnv.

Variable env : Env.

(** [jdMode === JobDescriptionMode.FILE ? jdFile : null] *)
Definition jd_file_arg (st : AppState) : option FileInput :=
  match jdMode st with
  | FILE => Some (jdFile st)
  | TEXT => None
  end.

(** The body of the [for] loop over [resumes], from index [i] on, with the
    two arrays it pushes to.  The status line that each iteration sets is
    overwritten before the handler returns and is left out. *)
Fixpoint screening_loop (st : AppState) (i : nat) (items : list FileInput)
  (newResults : list json) (failedFiles : list string)
  : M (list json * list string) :=
  match items with
  | [] => ret (newResults, failedFiles)
  | currentResume :: rest =>
      let fileName :=
        GeminiService.file_name_or currentResume ("Resume " ++ JsString.of_nat (i + 1)) in
      pushed <-
        try_catch
          (analysis <- GeminiService.screenResume env currentResume (jdText st)
                         (jd_file_arg st) (selectedModel st) (provider st) ;;
           ret ((newResults ++ [analysis])%list, failedFiles))
          (fun e =>
             emit (ConsoleError (message e)) ;;
             let entry := fileName ++ " (" ++ message e ++ ")" in
             ret (newResults, (failedFiles ++ [entry])%list)) ;;
      screening_loop st (S i) rest (fst pushed) (snd pushed)
  end.

(** [err.message || fallback] *)
Definition message_or (e : Exn) (fallback : string) : string :=
  if JsString.truthy (message e) then message e else fallback.

(** The [try] block of [handleScreening] after the loop. *)
Definition finalize (st : AppState) (newResults : list json)
  (failedFiles : list string) : M AppState :=
  let st1 := setLoadingStatus "Finalizing reports..." st in
  if ((length newResults =? 0)%nat && (0 <? length failedFiles)%nat)%bool then
    try_catch
      (throw (Js.error ("Failed to process all resumes. Issues:" ++ GeminiService.nl
                          ++ JsString.join GeminiService.nl failedFiles)))
      (fun err => ret (setError (Some (message_or err
                    "An unexpected error occurred during screening.")) (setLoading false st1)))
  else if (length newResults =? 0)%nat then
    try_catch
      (throw (Js.error "No results generated."))
      (fun err => ret (setError (Some (message_or err
                    "An unexpected error occurred during screening.")) (setLoading false st1)))
  else
    sleep 500 ;;
    (if (0 <? length failedFiles)%nat
     then emit (Alert ("Completed with issues." ++ GeminiService.nl ++ "Failed to process:"
                         ++ GeminiService.nl ++ "- "
                         ++ JsString.join (GeminiService.nl ++ "- ") failedFiles))
     else ret tt) ;;
    ret (setView CARD (setLoading false (setCurrentPage 1 (setResults newResults st1)))).

Definition has_file (f : FileInput) : bool :=
  match file f with Some _ => true | None => false end.

Definition handleScreening (st : AppState) : M AppState :=
  if (length (resumes st) =? 0)%nat then
    ret (setError (Some "Please upload or import at least one resume.") st)
  else
    match jdMode st with
    | TEXT =>
        if negb (JsString.truthy (JsString.trim (jdText st))) then
          ret (setError (Some "Please enter the Job Description text.") st)
        else
          let st0 := setError None (setLoading true st) in
          batch <- screening_loop st0 0 (resumes st) [] [] ;;
          finalize st0 (fst batch) (snd batch)
    | FILE =>
        if negb (has_file (jdFile st)) then
          ret (setError (Some "Please upload a Job Description file.") st)
        else
          let st0 := setError None (setLoading true st) in
          batch <- screening_loop st0 0 (resumes st) [] [] ;;
          finalize st0 (fst batch) (snd batch)
    end.

End WithEnv.

(** The updater that [handleShortlist] hands to [setShortlist]; the two
    alerts are left out. *)
Definition same_candidate (candidate c : Obj ScreeningResult) : bool :=
  String.eqb (candidateName (content c)) (candidateName (content candidate))
  && match email (content c), email (content candidate) with
     | Some a, Some b => String.eqb a b
     | None, None => true
     | _, _ => false
     end.

Definition handleShortlist (candidate : Obj ScreeningResult)
  (prev : list (Obj ScreeningResult)) : list (Obj ScreeningResult) :=
  let exists_ := existsb (same_candidate candidate) prev in
  if exists_ then prev else (prev ++ [candidate])%list.

(** [handleRemoveFromShortlist], given the answer to its [confirm]. *)
Definition handleRemoveFromShortlist (confirmed : bool) (candidate : Obj ScreeningResult)
  (prev : list (Obj ScreeningResult)) : list (Obj ScreeningResult) :=
  if confirmed then filter (fun c => negb (same_object c candidate)) prev
  else prev.

(** The user's clicks on the shortlist. *)
Inductive ShortlistAction : Type :=
| Add (candidate : Obj ScreeningResult)
| Remove (confirmed : bool) (candidate : Obj ScreeningResult).

Definition apply_action (shortlist : list (Obj ScreeningResult)) (a : ShortlistAction)
  : list (Obj ScreeningResult) :=
  match a with
  | Add candidate => handleShortlist candidate shortlist
  | Remove confirmed candidate => handleRemoveFromShortlist confirmed candidate shortlist
  end.

(** The shortlist after a sequence of clicks, starting from
    [useState([])]. *)
Definition run_actions (actions : list ShortlistAction) : list (Obj ScreeningResult) :=
  fold_left apply_action actions [].

End App.

(** ** [components/TableView.tsx]: the CSV export *)

Module TableView.

Import Types.

Definition dquote : ascii := "034"%char.
Definition dq : string := String dquote "".

Definition headers : list string :=
  ["Candidate Name"; "Total Experience"; "Email"; "Contact Number"].

(** The template literal around [value.replace] with the global pattern of
    one double quote. *)
Definition quoted (value : string) : string :=
  dq ++ JsString.replaceAll dquote (dq ++ dq) value ++ dq.

(** [value ? quoted(value) : two double quotes] *)
Definition cell (value : option string) : string :=
  match value with
  | Some v => if JsString.truthy v then quoted v else dq ++ dq
  | None => dq ++ dq
  end.

Definition row (r : ScreeningResult) : string :=
  let name := cell (Some (candidateName r)) in
  let exp := cell (Some (candidateExperience r)) in
  let email := cell (email r) in
  let phone := cell (phone r) in
  JsString.join "," [name; exp; email; phone].

(** The text that [handleExportCSV] hands to the download. *)
Definition csvContent (results : list ScreeningResult) : string :=
  JsString.join GeminiService.nl (JsString.join "," headers :: map row results).

End TableView.

(** ** A reader of comma-separated text

    The standard reading of a CSV file with line feed as record separator:
    a field is either bare (no quote in it) or enclosed in double quotes,
    where two quotes stand for one and commas and line feeds are data. *)

Module Csv.

Inductive State : Type := FieldStart | Unquoted | Quoted | QuoteSeen.

Definition close_field (cur : list ascii) (row : list string) : list string :=
  JsString.of_chars (rev cur) :: row.

Definition close_row (cur : list ascii) (row : list string)
  (rows : list (list string)) : list (list string) :=
  rev (close_field cur row) :: rows.

Definition LF : ascii := ascii_of_nat 10.

(** [cur], [row] and [rows] are held in reverse. *)
Fixpoint run (st : State) (cur : list ascii) (row : list string)
  (rows : list (list string)) (input : list ascii) : option (list (list string)) :=
  match input with
  | [] =>
      match st with
      | Quoted => None
      | _ => Some (rev (close_row cur row rows))
      end
  | c :: r =>
      match st with
      | FieldStart =>
          if Ascii.eqb c TableView.dquote then run Quoted [] row rows r
          else if Ascii.eqb c "," then run FieldStart [] (close_field cur row) rows r
          else if Ascii.eqb c LF then run FieldStart [] [] (close_row cur row rows) r
          else run Unquoted [c] row rows r
      | Unquoted =>
          if Ascii.eqb c TableView.dquote then None
          else if Ascii.eqb c "," then run FieldStart [] (close_field cur row) rows r
          else if Ascii.eqb c LF then run FieldStart [] [] (close_row cur row rows) r
          else run Unquoted (c :: cur) row rows r
      | Quoted =>
          if Ascii.eqb c TableView.dquote then run QuoteSeen cur row rows r
          else run Quoted (c :: cur) row rows r
      | QuoteSeen =>
          if Ascii.eqb c TableView.dquote then run Quoted (c :: cur) row rows r
          else if Ascii.eqb c "," then run FieldStart [] (close_field cur row) rows r
          else if Ascii.eqb c LF then run FieldStart [] [] (close_row cur row rows) r
          else None
      end
  end.

Definition parse (text : string) : option (list (list string)) :=
  run FieldStart [] [] [] (JsString.chars text).

End Csv.

(** ** What the design document says of the retry controller *)

Module RetrySpec.

Import Js GeminiService.
Local Open Scope list_scope.

(** An operation that rejects whatever happened before. *)
Definition always_fails {T} (operation : M T) : Prop :=
  forall w, exists e w', operation w = (Thrown e, w').

Definition is_invocation (e : Event) : bool :=
  match e with Invoked => true | _ => false end.

Definition is_schedule_event (e : Event) : bool :=
  match e with
  | Invoked | SetTimeout _ => true
  | _ => false
  end.

(** The invocations and timers of a trace, in order. *)
Definition schedule (w : World) : list Event := filter is_schedule_event w.

(** An operation that sets no timer and trips no spy of its own. *)
Definition quiet {T} (operation : M T) : Prop :=
  forall w, schedule (snd (operation w)) = schedule w.

Definition invocations (w : World) : nat := count is_invocation w.

Definition delays (w : World) : list Z :=
  flat_map (fun e => match e with SetTimeout ms => [ms] | _ => [] end) w.

(** One invocation, then [n] times a wait and another invocation, the wait
    doubling from [delay]. *)
Fixpoint attempts (n : nat) (delay : Z) : list Event :=
  match n with
  | O => [Invoked]
  | S n' => Invoked :: SetTimeout delay :: attempts n' (delay * 2)
  end.

(** The trace at which attempt number [k] (from 0) starts, when every
    earlier attempt failed. *)
Fixpoint attempt_world {T} (operation : M T) (retries delay : Z) (k : nat)
  (w : World) : World :=
  match k with
  | O => w
  | S k' =>
      attempt_world operation (retries - 1) (delay * 2) k'
        (snd (operation w) ++ [ConsoleWarn (retry_warning retries); SetTimeout delay])
  end.

Definition credential (env : Env) (provider : Types.AiProvider) : option string :=
  match provider with
  | Types.gemini => API_KEY env
  | Types.openai => OPENAI_API_KEY env
  end.

Definition missing_credential (provider : Types.AiProvider) : Exn :=
  match provider with
  | Types.gemini => error "Gemini API Key missing in environment variables."
  | Types.openai =>
      error "OpenAI API Key missing. Please configure OPENAI_API_KEY in backend/environment variables."
  end.

End RetrySpec.

(** ** What the design document says of a screening *)

Module ScreeningSpec.

Import Js Types Json GeminiService.
Local Open Scope list_scope.

(** The answer of the provider to the call that ends a trace. *)
Definition reply_of_last_call (env : Env) (w : World) : option Reply :=
  match rev w with
  | GeminiCall req :: before =>
      Some (generateContent env (count is_gemini_call (rev before)) req)
  | OpenAICall req :: before =>
      Some (chat_completions_create env (count is_openai_call (rev before)) req)
  | _ => None
  end.

(** The closed enumeration of the interface. *)
Definition recommendations : list string :=
  ["Strong Match"; "Potential Match"; "Weak Match"; "Not a Match"]%string.

Definition recommendation_in_enum (j : json) : bool :=
  match get "recommendation" j with
  | Some (JStr s) => existsb (String.eqb s) recommendations
  | _ => false
  end.

(** An integer between 0 and 100. *)
Definition is_score (v : option json) : bool :=
  match v with
  | Some (JNum (Double.Finite q)) =>
      (Qden q =? 1)%positive && (0 <=? Qnum q) && (Qnum q <=? 100)
  | _ => false
  end.

Definition scores_in_range (j : json) : bool :=
  is_score (get "overallMatchScore" j)
  && match get "skillsAnalysis" j with
     | Some (JArr entries) => forallb (fun entry => is_score (get "score" entry)) entries
     | _ => false
     end.

Definition pdf_limitation : Exn :=
  error "OpenAI mode currently supports DOCX and Text files only. Please use Gemini for PDF resumes.".

Definition pdf_placeholder : string :=
  "(Attached JD is a PDF - Please copy text for better results)".

Definition jd_heading : string := ("Job Description Context:" ++ nl)%string.

(** The two waits of a call whose three attempts all failed. *)
Definition exhausted (w : World) : World :=
  w ++ [ConsoleWarn (retry_warning 2); SetTimeout 1000;
        ConsoleWarn (retry_warning 1); SetTimeout 2000].

(** The request that the Gemini adapter builds around a resume sent
    inline. *)
Definition inline_request (resume : FileInput) (data : string)
  (jobDescriptionFile : option FileInput) (modelName jdContext : string) : GeminiRequest :=
  mkGeminiRequest modelName
    (InlineData (mimeType resume) (Some data)
       :: jd_part jobDescriptionFile ++ [TextPart (getCommonPrompt jdContext)]).

Definition pdf_jd_warning : Event :=
  ConsoleWarn "PDF Job Description not fully supported in OpenAI mode without text extraction. Results may be less accurate.".

End ScreeningSpec.

(** ** What the design document says of a batch run *)

Module BatchSpec.

Import Js Types Json App.

(** The three checks before the loop. *)
Definition passes_preflight (st : AppState) : bool :=
  negb (length (resumes st) =? 0)%nat
  && match jdMode st with
     | TEXT => JsString.truthy (JsString.trim (jdText st))
     | FILE => has_file (jdFile st)
     end.

(** The state in which the loop runs. *)
Definition started (st : AppState) : AppState :=
  setError None (setLoading true st).

(** The entry of the failure manifest for item [i] (from 0). *)
Definition manifest_entry (i : nat) (item : FileInput) (e : Exn) : string :=
  GeminiService.file_name_or item ("Resume " ++ JsString.of_nat (i + 1))
    ++ " (" ++ message e ++ ")".

(** The message of the error that ends a batch of failures only. *)
Definition all_failed_message (manifest : list string) : string :=
  "Failed to process all resumes. Issues:" ++ GeminiService.nl
    ++ JsString.join GeminiService.nl manifest.

Definition issues_alert (manifest : list string) : Event :=
  Alert ("Completed with issues." ++ GeminiService.nl ++ "Failed to process:"
           ++ GeminiService.nl ++ "- "
           ++ JsString.join (GeminiService.nl ++ "- ") manifest).

Definition alerts (manifest : list string) : list Event :=
  match manifest with
  | [] => []
  | _ => [issues_alert manifest]
  end.

End BatchSpec.

(** ** What the design document says of the shortlist and of the export *)

Module ShortlistSpec.

Import Types.

(** The pair that identifies a candidate on the shortlist. *)
Definition key (c : Obj ScreeningResult) : string * option string :=
  (candidateName (content c), email (content c)).

Definition no_duplicates (shortlist : list (Obj ScreeningResult)) : Prop :=
  NoDup (map key shortlist).

End ShortlistSpec.

Module CsvSpec.

Import Types.

Definition or_empty (value : option string) : string :=
  match value with
  | Some v => v
  | None => ""
  end.

(** The four values of a result, in the column order of the export. *)
Definition fields (r : ScreeningResult) : list string :=
  [candidateName r; candidateExperience r; or_empty (email r); or_empty (phone r)].

(** What [join] puts after its first part: each further part behind a
    separator. *)
Definition joined_tail (sep : string) (rest : list string) : string :=
  fold_right (fun part acc => sep ++ part ++ acc) "" rest.

End CsvSpec.

(** ** Sample inputs *)

Module Samples.

Import Js Types.

(** JSON texts are written with an apostrophe where the text has a double
    quote. *)
Definition js (s : string) : string :=
  JsString.replaceAll "'" TableView.dq s.

(** A provider that answers every call with the same text. *)
Definition answering (text : string) : Env :=
  mkEnv (Some "gemini-key") (Some "openai-key") (fun _ => Thrown (error "not a docx"))
    (fun _ _ => Replied (Some text)) (fun _ _ => Replied (Some text))
    (fun _ => 0).

Definition no_keys : Env :=
  mkEnv None None (fun _ => Thrown (error "not a docx")) (fun _ _ => Replied None)
    (fun _ _ => Replied None)
    (fun _ => 0).

(** [Hello] as a plain-text upload. *)
Definition text_resume : FileInput :=
  mkFileInput (Some (mkFile "cv.txt")) (Some "SGVsbG8=") "text/plain" (Some local).

Definition pdf_resume : FileInput :=
  mkFileInput (Some (mkFile "cv.pdf")) (Some "JVBERi0xLjQ=") "application/pdf" (Some local).

Definition png_resume : FileInput :=
  mkFileInput (Some (mkFile "photo.png")) (Some "iVBORw0KGgo=") "image/png" (Some local).

Definition pdf_jd : FileInput :=
  mkFileInput (Some (mkFile "jd.pdf")) (Some "JVBERi0xLjQ=") "application/pdf" (Some local).

Definition maybe_response : string :=
  js "{'candidateName':'Ada','recommendation':'Maybe','overallMatchScore':150,'skillsAnalysis':[{'skill':'Go','score':-5,'reasoning':'r','evidence':'e'}]}".

Definition good_response : string :=
  js "{'candidateName':'Ada','recommendation':'Strong Match','overallMatchScore':90,'skillsAnalysis':[]}".

Definition good_result : Json.json :=
  Json.JObj [
    ("candidateName", Json.JStr "Ada");
    ("recommendation", Json.JStr "Strong Match");
    ("overallMatchScore", Json.JNum (inject_Z 90));
    ("skillsAnalysis", Json.JArr [])].

Definition maybe_result : Json.json :=
  Json.JObj [
    ("candidateName", Json.JStr "Ada");
    ("recommendation", Json.JStr "Maybe");
    ("overallMatchScore", Json.JNum (inject_Z 150));
    ("skillsAnalysis",
     Json.JArr [Json.JObj [("skill", Json.JStr "Go"); ("score", Json.JNum (inject_Z (-5)));
                           ("reasoning", Json.JStr "r"); ("evidence", Json.JStr "e")]])].

(** A placeholder of the demonstration path. *)
Definition demo_resume : FileInput :=
  mkFileInput (Some (mkFile "Jane_Doe.pdf")) (Some "MOCK_BASE64_CONTENT_FOR_DEMO_ONLY")
    "application/pdf" (Some sharepoint).

(** What the demonstration path makes of it when the draw is 0. *)
Definition demo_result : Json.json :=
  Eval vm_compute in
    match fst (GeminiService.generateMockResult no_keys "Jane_Doe.pdf" []) with
    | Returned j => j
    | Thrown _ => Json.JNull
    end.

(** A text resume and a PDF resume screened in OpenAI mode against a typed
    job description. *)
Definition mixed_batch : App.AppState :=
  App.mkAppState App.INPUT [text_resume; pdf_resume] TEXT "Go developer"
    (mkFileInput None None "" None) openai "gpt-4o" false "Initializing..." None [] 1.

Definition mixed_manifest : list string :=
  [BatchSpec.manifest_entry 1 pdf_resume ScreeningSpec.pdf_limitation].

(** The same job with the PDF resume alone. *)
Definition failing_batch : App.AppState :=
  App.mkAppState App.INPUT [pdf_resume] TEXT "Go developer"
    (mkFileInput None None "" None) openai "gpt-4o" false "Initializing..." None [] 1.

Definition failing_manifest : list string :=
  [BatchSpec.manifest_entry 0 pdf_resume ScreeningSpec.pdf_limitation].

Definition ada : Obj ScreeningResult :=
  mkObj 1 (mkScreeningResult "Ada, Countess" "London" "6 years" "Analyst"
             (Some "ada@example.com") None "text" (inject_Z 90) "summary" [] [] []
             "Strong Match" [] [] []).

End Samples.

(** ** White space, as ECMAScript lists it *)

Module WhiteSpaceSpec.

Local Open Scope string_scope.

(** The code points that ECMAScript counts as white space or as a line
    terminator. *)
Definition code_points : list Z :=
  [9; 10; 11; 12; 13; 32; 160; 5760;
   8192; 8193; 8194; 8195; 8196; 8197; 8198; 8199; 8200; 8201; 8202;
   8232; 8233; 8239; 8287; 12288; 65279]%Z.

Definition spaces : list string :=
  Eval vm_compute in map (fun cp => JsString.of_chars (Json.utf8 cp)) code_points.

(** A text made of white space only. *)
Inductive white_space : string -> Prop :=
| white_empty : white_space ""
| white_more (u s : string) : In u spaces -> white_space s -> white_space (u ++ s).

Definition no_space_at_start (t : string) : Prop :=
  forall u r, In u spaces -> t <> u ++ r.

Definition no_space_at_end (t : string) : Prop :=
  forall p u, In u spaces -> t <> p ++ u.

(** [t] is [s] without the white space around it. *)
Definition trimmed (s t : string) : Prop :=
  exists a b,
    s = a ++ t ++ b /\ white_space a /\ white_space b /\
    no_space_at_start t /\ no_space_at_end t.

End WhiteSpaceSpec.

(** ** What the service shows besides: footprints and failures *)

Module ServiceSpec.

Import Js Types Json GeminiService.
Local Open Scope list_scope.

Definition is_call_to (provider : AiProvider) (e : Event) : bool :=
  match provider, e with
  | gemini, GeminiCall _ => true
  | openai, OpenAICall _ => true
  | _, _ => false
  end.

Definition other (provider : AiProvider) : AiProvider :=
  match provider with
  | gemini => openai
  | openai => gemini
  end.

(** What the [try] block of [extractTextFromDocx] comes to: the decoding,
    then the extraction. *)
Definition extraction (env : Env) (data : string) : Outcome string :=
  match Base64.atob data with
  | Some binaryString => mammoth_extractRawText env binaryString
  | None =>
      Thrown (mkExn InvalidCharacterError
                "The string to be decoded is not correctly encoded.")
  end.

Definition extraction_failure : Event :=
  ConsoleError "Failed to extract text from DOCX".

Definition blank (s : string) : bool := negb (JsString.truthy (JsString.trim s)).

(** The text that the adapters get for the content of a DOCX document. *)
Definition extracted_text (env : Env) (data : string) : string :=
  match extraction env data with
  | Returned value => value
  | Thrown _ => ""
  end.

Definition empty_docx (provider : AiProvider) : Exn :=
  match provider with
  | gemini => error "Empty DOCX"
  | openai => error "Could not extract text from resume for OpenAI processing."
  end.

Definition calls (provider : AiProvider) (w : World) : nat :=
  count (is_call_to provider) w.

(** What one attempt of an adapter may add to the trace: no timer, at most
    one call to its provider, none to the other. *)
Definition one_attempt (provider : AiProvider) (evs : list Event) : Prop :=
  RetrySpec.delays evs = []
  /\ (calls provider evs <= 1)%nat
  /\ calls (other provider) evs = 0%nat.

(** A text with a space in the place of each underscore. *)
Definition spaced (s : string) : string :=
  JsString.of_chars
    (map (fun c => if Ascii.eqb c "_" then " "%char else c) (JsString.chars s)).

(** The timers that one call of [screenResume] may set. *)
Definition timer_patterns : list (list Z) :=
  [[]; [1500]; [1000]; [1000; 2000]].

End ServiceSpec.

(** ** More of [App.tsx]: the settings *)

Module AppSettings.

Import Js Types.

Record Model : Type := mkModel { id : string; name : string }.

(** [AI_MODELS] of [types.ts]. *)
Definition AI_MODELS (provider : AiProvider) : list Model :=
  match provider with
  | gemini =>
      [mkModel "gemini-2.5-flash" "Gemini 2.5 Flash (Balanced)";
       mkModel "gemini-3-pro-preview" "Gemini 3 Pro (Complex Tasks)";
       mkModel "gemini-flash-lite-latest" "Gemini Flash Lite (Fastest)";
       mkModel "gemini-1.5-pro" "Gemini 1.5 Pro (Legacy)"]
  | openai =>
      [mkModel "gpt-4o" "GPT-4o (Omni)";
       mkModel "gpt-4o-mini" "GPT-4o Mini (Cost Effective)";
       mkModel "gpt-4-turbo" "GPT-4 Turbo";
       mkModel "gpt-3.5-turbo" "GPT-3.5 Turbo"]
  end.

(** [AI_MODELS[provider][0].id]; every list of the table has a first
    entry. *)
Definition first_model (provider : AiProvider) : string :=
  match AI_MODELS provider with
  | m :: _ => id m
  | [] => ""
  end.

(** The provider and the model of the settings panel. *)
Record Settings : Type := mkSettings {
  provider : AiProvider;
  selectedModel : string
}.

(** [useState('gemini')] and [useState(AI_MODELS.gemini[0].id)] *)
Definition initial : Settings := mkSettings gemini (first_model gemini).

Definition handleProviderChange (newProvider : AiProvider) (s : Settings) : Settings :=
  mkSettings newProvider (first_model newProvider).

(** The [onChange] of the model list: [setSelectedModel(e.target.value)]. *)
Definition setSelectedModel (value : string) (s : Settings) : Settings :=
  mkSettings (provider s) value.

(** What the user can do in the panel: pick a provider, or pick one of the
    options of the model list, which are the models of the current
    provider. *)
Inductive Step : Settings -> Settings -> Prop :=
| PickProvider s newProvider : Step s (handleProviderChange newProvider s)
| PickModel s m :
    In m (AI_MODELS (provider s)) -> Step s (setSelectedModel (id m) s).

Inductive Reachable : Settings -> Prop :=
| ReachInitial : Reachable initial
| ReachStep s s' : Reachable s -> Step s s' -> Reachable s'.

(** [isSystemReady] *)
Definition isSystemReady (env : Env) (provider : AiProvider) : bool :=
  match provider with
  | gemini => JsString.truthy_opt (API_KEY env)
  | openai => JsString.truthy_opt (OPENAI_API_KEY env)
  end.

End AppSettings.

(** ** Arrays of the JavaScript runtime *)

Module JsArray.

Local Open Scope list_scope.

(** The position that [slice] makes of an index: a negative index counts
    from the end, and every index is brought within the array. *)
Definition relative_index (len : nat) (k : Z) : nat :=
  if k <? 0 then Z.to_nat (Z.max (Z.of_nat len + k) 0)
  else Z.to_nat (Z.min k (Z.of_nat len)).

(** [array.slice(start, end)] *)
Definition slice {A} (start end_ : Z) (l : list A) : list A :=
  let from := relative_index (length l) start in
  let to := relative_index (length l) end_ in
  firstn (to - from) (skipn from l).

(** [array.filter((x, i) => keep(x, i))], from index [i] on. *)
Fixpoint filter_indexed {A} (keep : A -> nat -> bool) (i : nat) (l : list A) : list A :=
  match l with
  | [] => []
  | x :: rest =>
      if keep x i then x :: filter_indexed keep (S i) rest
      else filter_indexed keep (S i) rest
  end.

(** [array.filter((_, i) => i !== index)] *)
Definition remove_at {A} (index : Z) (l : list A) : list A :=
  filter_indexed (fun _ i => negb (Z.of_nat i =? index)) 0 l.

(** [Math.ceil(n / d)] for a length [n] and a page size [d]; the quotient
    of two such integers is far from the next integer unless it is one, so
    the rounding of the division does not show. *)
Definition Math_ceil_div (n d : Z) : Z := (n + d - 1) / d.

(** [array.map((x, i) => f(x, i))], from index [i] on. *)
Fixpoint map_indexed {A B} (f : A -> nat -> B) (i : nat) (l : list A) : list B :=
  match l with
  | [] => []
  | x :: rest => f x i :: map_indexed f (S i) rest
  end.

(** [array.sort(compare)].  The sort of the language is stable and its
    result is fixed by the comparison when that is consistent; an insertion
    from the right gives that result.  [before y x] says that [compare(y, x)]
    is negative: [y] goes before [x]. *)
Fixpoint insert {A} (before : A -> A -> bool) (x : A) (sorted : list A) : list A :=
  match sorted with
  | [] => [x]
  | y :: rest => if before y x then y :: insert before x rest else x :: y :: rest
  end.

Fixpoint sort {A} (before : A -> A -> bool) (l : list A) : list A :=
  match l with
  | [] => []
  | x :: rest => insert before x (sort before rest)
  end.

(** [Array.from(new Set(array))]: the first occurrence of each value, in
    order. *)
Fixpoint unique (l : list string) : list string :=
  match l with
  | [] => []
  | x :: rest => x :: filter (fun y => negb (String.eqb y x)) (unique rest)
  end.

End JsArray.

(** ** More of [App.tsx]: the pages of cards and the rejection of a card *)

Module AppView.

Import Types App.
Local Open Scope list_scope.

Definition itemsPerPage : Z := 6.

Definition indexOfLastItem (currentPage : Z) : Z := currentPage * itemsPerPage.

Definition indexOfFirstItem (currentPage : Z) : Z :=
  indexOfLastItem currentPage - itemsPerPage.

Definition currentResults {A} (results : list A) (currentPage : Z) : list A :=
  JsArray.slice (indexOfFirstItem currentPage) (indexOfLastItem currentPage) results.

Definition totalPages {A} (results : list A) : Z :=
  JsArray.Math_ceil_div (Z.of_nat (length results)) itemsPerPage.

(** [const globalIndex = indexOfFirstItem + index] of the card grid. *)
Definition globalIndex (currentPage : Z) (index : nat) : Z :=
  indexOfFirstItem currentPage + Z.of_nat index.

(** [handleRemoveResume] *)
Definition handleRemoveResume (index : Z) (prev : list FileInput) : list FileInput :=
  JsArray.remove_at index prev.

(** The state that [handleReject] reads or writes. *)
Record Cards (A : Type) : Type := mkCards {
  results : list A;
  view : ViewState;
  selectedResultIndex : option Z;
  currentPage : Z
}.
Arguments mkCards {A} results view selectedResultIndex currentPage.
Arguments results {A} c.
Arguments view {A} c.
Arguments selectedResultIndex {A} c.
Arguments currentPage {A} c.

Definition is_detail (v : ViewState) : bool :=
  match v with DETAIL => true | _ => false end.

Definition is_index (selected : option Z) (index : Z) : bool :=
  match selected with
  | Some k => k =? index
  | None => false
  end.

(** [handleReject], given the answer to its [confirm]. *)
Definition handleReject {A} (confirmed : bool) (index : Z) (c : Cards A) : Cards A :=
  if confirmed then
    if is_detail (view c) && is_index (selectedResultIndex c) index
    then mkCards (JsArray.remove_at index (results c)) CARD None (currentPage c)
    else mkCards (JsArray.remove_at index (results c)) (view c) (selectedResultIndex c)
           (currentPage c)
  else c.

End AppView.

Module PageSpec.

(** Page [p], from 1, of a list cut in pages of [s] items. *)
Definition window {A} (s : nat) (l : list A) (p : nat) : list A :=
  firstn s (skipn ((p - 1) * s) l).

(** The list without the item at position [i]. *)
Definition without {A} (i : nat) (l : list A) : list A :=
  firstn i l ++ skipn (S i) l.

End PageSpec.

(** ** [components/BatchSummary.tsx]

    The summary takes the results at their declared type, each with a
    finite number for its score. *)

Module BatchSummary.

Import Types.
Local Open Scope list_scope.

Definition itemsPerPage : Z := 5.

(** [results.reduce((acc, curr) => acc + curr.overallMatchScore, 0)] *)
Definition total_score (results : list ScreeningResult) : Double.Number :=
  fold_left (fun acc curr => Double.add acc (Double.Finite (overallMatchScore curr)))
    results (Double.Finite 0).

Definition avgScore (results : list ScreeningResult) : Double.Number :=
  let total := Z.of_nat (length results) in
  if 0 <? total
  then Double.Math_round
         (Double.div (total_score results) (Double.Finite (inject_Z total)))
  else Double.Finite 0.

(** [{ ...r, originalIndex: i }] *)
Record Ranked : Type := mkRanked {
  result : ScreeningResult;
  originalIndex : nat
}.

Definition score (e : Ranked) : Q := overallMatchScore (result e).

(** [(a, b) => b.overallMatchScore - a.overallMatchScore] is negative, so
    that [a] goes before [b], when the score of [b] is the smaller one. *)
Definition compare_negative (a b : Ranked) : bool :=
  negb (Qle_bool (score a) (score b)).

Definition indexed (results : list ScreeningResult) : list Ranked :=
  JsArray.map_indexed mkRanked 0 results.

Definition sortedResults (results : list ScreeningResult) : list Ranked :=
  JsArray.sort compare_negative (indexed results).

(** [sortedResults[0]], undefined for an empty array. *)
Definition bestMatch (results : list ScreeningResult) : option Ranked :=
  hd_error (sortedResults results).

Definition totalPages (results : list ScreeningResult) : Z :=
  JsArray.Math_ceil_div (Z.of_nat (length (sortedResults results))) itemsPerPage.

Definition paginatedResults (results : list ScreeningResult) (currentPage : Z)
  : list Ranked :=
  JsArray.slice ((currentPage - 1) * itemsPerPage) (currentPage * itemsPerPage)
    (sortedResults results).

(** [const rank = (currentPage - 1) * itemsPerPage + idx + 1] *)
Definition rank (currentPage : Z) (idx : nat) : Z :=
  (currentPage - 1) * itemsPerPage + Z.of_nat idx + 1.

(** The two buttons under the table, shown when there is more than one
    page. *)
Definition previous (p : Z) : Z := Z.max 1 (p - 1).
Definition next (results : list ScreeningResult) (p : Z) : Z :=
  Z.min (totalPages results) (p + 1).

(** [results.filter(r => r.recommendation === label).length] *)
Definition recommended (label : string) (results : list ScreeningResult) : nat :=
  length (filter (fun r => String.eqb (recommendation r) label) results).

Record Distribution : Type := mkDistribution {
  strong : nat;
  potential : nat;
  weak : nat;
  noMatch : nat
}.

Definition distribution (results : list ScreeningResult) : Distribution :=
  mkDistribution
    (recommended "Strong Match" results)
    (recommended "Potential Match" results)
    (recommended "Weak Match" results)
    (recommended "Not a Match" results).

End BatchSummary.

Module RankingSpec.

Import Types BatchSummary.

(** [a] is ranked before [b]: its score is not the smaller one, and of two
    equal scores the earlier result comes first. *)
Definition ranks_before (a b : Ranked) : Prop :=
  (score b <= score a)%Q /\
  ((score a == score b)%Q -> (originalIndex a < originalIndex b)%nat).

(** The four recommendations that the summary counts. *)
Definition counted (label : string) : bool :=
  String.eqb label "Strong Match" || String.eqb label "Potential Match"
  || String.eqb label "Weak Match" || String.eqb label "Not a Match".

End RankingSpec.

(** ** The shortlist view: its summary and its export *)

Module ShortlistView.

Import Types.
Local Open Scope list_scope.

(** [shortlist.map(c => c.currentRole).filter(Boolean)] *)
Definition roles (shortlist : list ScreeningResult) : list string :=
  filter JsString.truthy (map currentRole shortlist).

Definition uniqueRoles (shortlist : list ScreeningResult) : list string :=
  JsArray.unique (roles shortlist).

Record RolesDistribution : Type := mkRolesDistribution {
  top : list string;
  count : nat
}.

Definition rolesDistribution (shortlist : list ScreeningResult) : RolesDistribution :=
  mkRolesDistribution
    (JsArray.slice 0 2 (uniqueRoles shortlist))
    (length (uniqueRoles shortlist)).

Definition headers : list string :=
  ["Candidate Name"; "Role"; "Score"; "Experience"; "Email"; "Phone"; "Recommendation"].

(** The template literal that puts a value between double quotes as it
    is. *)
Definition enclosed (value : string) : string :=
  TableView.dq ++ value ++ TableView.dq.

(** [value || ''] *)
Definition or_empty (value : option string) : string :=
  match value with
  | Some v => v
  | None => ""
  end.

Section WithNumbers.

(** The text that [join] makes of a number, left to the runtime. *)
Variable Number_toString : Q -> string.

Definition row (c : ScreeningResult) : string :=
  let name := TableView.quoted (candidateName c) in
  let role := TableView.quoted (currentRole c) in
  let exp := TableView.quoted (candidateExperience c) in
  let email := enclosed (or_empty (email c)) in
  let phone := enclosed (or_empty (phone c)) in
  let recommendation := enclosed (recommendation c) in
  JsString.join ","
    [name; role; Number_toString (overallMatchScore c); exp; email; phone; recommendation].

(** The text that [handleExportCSV] hands to the download. *)
Definition csvContent (shortlist : list ScreeningResult) : string :=
  JsString.join GeminiService.nl (JsString.join "," headers :: map row shortlist).

End WithNumbers.

End ShortlistView.

Module ShortlistExportSpec.

Import Types.
Local Open Scope list_scope.

(** A text without a double quote. *)
Definition quote_free (s : string) : bool :=
  forallb (fun c => negb (Ascii.eqb c TableView.dquote)) (JsString.chars s).

(** A text that a reader of comma-separated text takes as one bare field:
    no double quote, no comma, no line feed. *)
Definition bare (s : string) : bool :=
  forallb (fun c => negb (Ascii.eqb c TableView.dquote || Ascii.eqb c ","
                          || Ascii.eqb c Csv.LF))
    (JsString.chars s).

Section WithNumbers.

Variable Number_toString : Q -> string.

(** The seven values of a candidate, in the column order of the export. *)
Definition fields (c : ScreeningResult) : list string :=
  [candidateName c; currentRole c; Number_toString (overallMatchScore c);
   candidateExperience c; ShortlistView.or_empty (email c);
   ShortlistView.or_empty (phone c); recommendation c].

(** The seven cells of a line of the export, as they are written: the
    name, the role and the experience between double quotes with their own
    double quotes doubled, the score as it is, and the email, the phone and
    the recommendation between double quotes as they are. *)
Definition cells (c : ScreeningResult) : list string :=
  [TableView.quoted (candidateName c); TableView.quoted (currentRole c);
   Number_toString (overallMatchScore c); TableView.quoted (candidateExperience c);
   TableView.dq ++ ShortlistView.or_empty (email c) ++ TableView.dq;
   TableView.dq ++ ShortlistView.or_empty (phone c) ++ TableView.dq;
   TableView.dq ++ recommendation c ++ TableView.dq]%string.

(** The values that the export encloses without doubling their quotes hold
    none, and the score is written as a bare field. *)
Definition exportable (c : ScreeningResult) : bool :=
  quote_free (ShortlistView.or_empty (email c))
  && quote_free (ShortlistView.or_empty (phone c))
  && quote_free (recommendation c)
  && bare (Number_toString (overallMatchScore c)).

End WithNumbers.

(** A text whose first double quote is followed by a character that is not
    a double quote, a comma or a line feed. *)
Definition stray_quote (s : string) : Prop :=
  exists before c after,
    s = (before ++ TableView.dq ++ String c after)%string /\
    quote_free before = true /\
    Ascii.eqb c TableView.dquote = false /\
    Ascii.eqb c "," = false /\
    Ascii.eqb c Csv.LF = false.

End ShortlistExportSpec.

(** ** [JSON.stringify] on the saved job descriptions *)

Module JsonText.

Import Json.
Local Open Scope list_scope.

(** A hexadecimal digit in lower case. *)
Definition hex_digit (d : Z) : ascii :=
  if d <? 10 then byte (48 + d) else byte (87 + d).

(** Backslash, [u] and the four digits of a code unit. *)
Definition unicode_escape (u : Z) : list ascii :=
  [backslash; "u"%char; hex_digit (u / 4096); hex_digit ((u / 256) mod 16);
   hex_digit ((u / 16) mod 16); hex_digit (u mod 16)].

(** The three bytes that hold a surrogate code unit in a text held as
    UTF-8, and that code unit. *)
Definition surrogate (c b1 b2 : ascii) : bool :=
  (nat_of_ascii c =? 237)%nat
  && (160 <=? nat_of_ascii b1)%nat && (nat_of_ascii b1 <=? 191)%nat
  && (128 <=? nat_of_ascii b2)%nat && (nat_of_ascii b2 <=? 191)%nat.

Definition code_unit (b1 b2 : ascii) : Z :=
  53248 + (Z.of_nat (nat_of_ascii b1) - 128) * 64 + (Z.of_nat (nat_of_ascii b2) - 128).

(** The characters of a string between the quotes of its JSON text: the
    quote and the backslash behind a backslash, the control characters as
    their short escape or as a code unit, a lone surrogate as a code unit,
    and any other character as it is. *)
Fixpoint quote_chars (s : list ascii) : list ascii :=
  match s with
  | [] => []
  | c :: r =>
      if Ascii.eqb c quote then backslash :: quote :: quote_chars r
      else if Ascii.eqb c backslash then backslash :: backslash :: quote_chars r
      else if Ascii.eqb c (ascii_of_nat 8) then backslash :: "b"%char :: quote_chars r
      else if Ascii.eqb c (ascii_of_nat 12) then backslash :: "f"%char :: quote_chars r
      else if Ascii.eqb c (ascii_of_nat 10) then backslash :: "n"%char :: quote_chars r
      else if Ascii.eqb c (ascii_of_nat 13) then backslash :: "r"%char :: quote_chars r
      else if Ascii.eqb c (ascii_of_nat 9) then backslash :: "t"%char :: quote_chars r
      else if (nat_of_ascii c <? 32)%nat
      then unicode_escape (Z.of_nat (nat_of_ascii c)) ++ quote_chars r
      else
        match r with
        | b1 :: b2 :: r' =>
            if surrogate c b1 b2
            then unicode_escape (code_unit b1 b2) ++ quote_chars r'
            else c :: quote_chars r
        | _ => c :: quote_chars r
        end
  end.

(** The JSON text of a string. *)
Definition quoted (s : string) : list ascii :=
  quote :: quote_chars (JsString.chars s) ++ [quote].

(** The parts of an array or of an object, with a comma between them. *)
Fixpoint separated (parts : list (list ascii)) : list ascii :=
  match parts with
  | [] => []
  | [p] => p
  | p :: rest => p ++ ","%char :: separated rest
  end.

Definition property (field : string * string) : list ascii :=
  quoted (fst field) ++ ":"%char :: quoted (snd field).

(** The JSON text of an object whose properties are strings, in the order
    of their creation. *)
Definition object_text (fields : list (string * string)) : list ascii :=
  "{"%char :: separated (map property fields) ++ ["}"%char].

Definition array_text (items : list (list ascii)) : list ascii :=
  "["%char :: separated items ++ ["]"%char].

(** A text held as UTF-8 that holds no surrogate code unit. *)
Fixpoint no_surrogate (s : list ascii) : bool :=
  match s with
  | [] => true
  | c :: r =>
      match r with
      | b1 :: b2 :: _ => negb (surrogate c b1 b2)
      | _ => true
      end && no_surrogate r
  end.

Definition scalar (s : string) : bool := no_surrogate (JsString.chars s).

(** The item that the reader makes of one character of a written
    string. *)
Definition item_of (c : ascii) : str_item :=
  if Ascii.eqb c (ascii_of_nat 8) || Ascii.eqb c (ascii_of_nat 12)
     || Ascii.eqb c (ascii_of_nat 10) || Ascii.eqb c (ascii_of_nat 13)
     || Ascii.eqb c (ascii_of_nat 9)
  then Raw c
  else if (nat_of_ascii c <? 32)%nat then Unit16 (Z.of_nat (nat_of_ascii c))
  else Raw c.

End JsonText.

(** ** More of [App.tsx]: the saved job descriptions *)

Module SavedJDs.

Import Types.
Local Open Scope list_scope.

Record SavedJobDescription : Type := mkSavedJobDescription {
  id : string;
  title : string;
  content : string;
  date : string
}.

(** The object literal of [handleSaveJD], as [JSON.parse] would give it
    back. *)
Definition to_json (jd : SavedJobDescription) : Json.json :=
  Json.JObj [("id", Json.JStr (id jd)); ("title", Json.JStr (title jd));
             ("content", Json.JStr (content jd)); ("date", Json.JStr (date jd))].

(** The JSON text of one saved description: its four properties in the
    order of the object literal. *)
Definition object_of (jd : SavedJobDescription) : list ascii :=
  JsonText.object_text [("id", id jd); ("title", title jd);
                        ("content", content jd); ("date", date jd)].

(** [JSON.stringify(updated)] *)
Definition JSON_stringify (saved : list SavedJobDescription) : string :=
  JsString.of_chars (JsonText.array_text (map object_of saved)).

(** The state that the three handlers read or write; [storage] is the item
    [resumeai_saved_jds] of the local storage, and [alerts] the messages
    shown so far. *)
Record Form : Type := mkForm {
  savedJDs : list SavedJobDescription;
  selectedSavedJDId : string;
  jdText : string;
  jdTitle : string;
  jdMode : JobDescriptionMode;
  storage : option string;
  alerts : list string
}.

(** A first visit: nothing saved, nothing stored. *)
Definition initial : Form := mkForm [] "" "" "" TEXT None [].

Definition setJdText (text : string) (st : Form) : Form :=
  mkForm (savedJDs st) (selectedSavedJDId st) text (jdTitle st) (jdMode st)
    (storage st) (alerts st).

Definition setJdTitle (text : string) (st : Form) : Form :=
  mkForm (savedJDs st) (selectedSavedJDId st) (jdText st) text (jdMode st)
    (storage st) (alerts st).

Definition alert (msg : string) (st : Form) : Form :=
  mkForm (savedJDs st) (selectedSavedJDId st) (jdText st) (jdTitle st) (jdMode st)
    (storage st) (alerts st ++ [msg]).

(** [handleSaveJD]; [now] is the reading of [Date.now()] and [today] the
    text of [new Date().toLocaleDateString()]. *)
Definition handleSaveJD (now : Z) (today : string) (st : Form) : Form :=
  if negb (JsString.truthy (JsString.trim (jdText st))) then
    alert "Please enter Job Description text to save." st
  else if negb (JsString.truthy (JsString.trim (jdTitle st))) then
    alert "Please enter a Job Title (e.g. 'Senior React Developer') before saving." st
  else
    let newJD := mkSavedJobDescription (JsString.of_Z now) (JsString.trim (jdTitle st))
                   (jdText st) today in
    let updated := newJD :: savedJDs st in
    mkForm updated (id newJD) (jdText st) (jdTitle st) (jdMode st)
      (Some (JSON_stringify updated)) (alerts st).

(** [handleSelectSavedJD] *)
Definition handleSelectSavedJD (id_ : string) (st : Form) : Form :=
  if negb (JsString.truthy id_) then
    mkForm (savedJDs st) id_ (jdText st) (jdTitle st) (jdMode st) (storage st) (alerts st)
  else
    match find (fun j => String.eqb (id j) id_) (savedJDs st) with
    | Some jd =>
        mkForm (savedJDs st) id_ (content jd) (title jd) TEXT (storage st) (alerts st)
    | None =>
        mkForm (savedJDs st) id_ (jdText st) (jdTitle st) (jdMode st) (storage st) (alerts st)
    end.

(** [handleDeleteSavedJD], given the answer to its [confirm]. *)
Definition handleDeleteSavedJD (confirmed : bool) (id_ : string) (st : Form) : Form :=
  if confirmed then
    let updated := filter (fun j => negb (String.eqb (id j) id_)) (savedJDs st) in
    if String.eqb (selectedSavedJDId st) id_ then
      mkForm updated "" "" "" (jdMode st) (Some (JSON_stringify updated)) (alerts st)
    else
      mkForm updated (selectedSavedJDId st) (jdText st) (jdTitle st) (jdMode st)
        (Some (JSON_stringify updated)) (alerts st)
  else st.

(** What the effect that runs on mount does with the stored item: nothing
    when there is none or when it is empty, [setSavedJDs] of the parsed
    value, or a message on the console when it does not parse. *)
Inductive Mount : Type :=
| Untouched
| Loaded (value : Json.json)
| Unparsed.

Definition mount (stored : option string) : Mount :=
  match stored with
  | Some loaded =>
      if JsString.truthy loaded then
        match Json.JSON_parse loaded with
        | Some value => Loaded value
        | None => Unparsed
        end
      else Untouched
  | None => Untouched
  end.

(** What the user does with the form. *)
Inductive Action : Type :=
| TypeText (text : string)
| TypeTitle (text : string)
| Save (now : Z) (today : string)
| Select (id_ : string)
| Delete (confirmed : bool) (id_ : string).

Definition apply_action (st : Form) (a : Action) : Form :=
  match a with
  | TypeText text => setJdText text st
  | TypeTitle text => setJdTitle text st
  | Save now today => handleSaveJD now today st
  | Select id_ => handleSelectSavedJD id_ st
  | Delete confirmed id_ => handleDeleteSavedJD confirmed id_ st
  end.

Definition run_actions (actions : list Action) : Form :=
  fold_left apply_action actions initial.

End SavedJDs.

Module SavedJDsSpec.

Import SavedJDs.

(** The four strings of a saved description hold no surrogate code
    unit. *)
Definition scalar_jd (jd : SavedJobDescription) : bool :=
  JsonText.scalar (id jd) && JsonText.scalar (title jd)
  && JsonText.scalar (content jd) && JsonText.scalar (date jd).


End SavedJDsSpec.

(** ** The picker of files of a drive: its selection *)

Module SharePointPicker.

Local Open Scope list_scope.

(** An item of a drive; [folder] and [file] are the facets that the
    service sets on a folder and on a file. *)
Record GraphDriveItem : Type := mkGraphDriveItem {
  id : string;
  name : string;
  folder : option nat;
  file : option string
}.

(** A [Set] of strings: its members in the order of their insertion. *)
Definition Set_has (x : string) (s : list string) : bool :=
  existsb (String.eqb x) s.

Definition Set_add (x : string) (s : list string) : list string :=
  if Set_has x s then s else s ++ [x].

Definition Set_delete (x : string) (s : list string) : list string :=
  filter (fun y => negb (String.eqb y x)) s.

Definition toggleSelection (itemId : string) (selectedItems : list string)
  : list string :=
  if Set_has itemId selectedItems then Set_delete itemId selectedItems
  else Set_add itemId selectedItems.

Definition is_file (item : GraphDriveItem) : bool :=
  match file item with Some _ => true | None => false end.

Definition isFolder (item : GraphDriveItem) : bool :=
  match folder item with Some _ => true | None => false end.

Definition handleSelectAll (items : list GraphDriveItem) (selectedItems : list string)
  : list string :=
  if (length selectedItems =? length (filter is_file items))%nat then []
  else fold_left (fun newSet item => if is_file item then Set_add (id item) newSet
                                     else newSet)
         items [].

(** [items.filter(i => selectedItems.has(i.id) && i.file)] *)
Definition filesToDownload (items : list GraphDriveItem) (selectedItems : list string)
  : list GraphDriveItem :=
  filter (fun i => Set_has (id i) selectedItems && is_file i) items.

(** The clicks that the table of a folder offers: the row or the check box
    of an item that is not a folder, and the button that selects all. *)
Inductive Click : Type :=
| Row (item : GraphDriveItem)
| SelectAll.

Definition offered (items : list GraphDriveItem) (c : Click) : Prop :=
  match c with
  | Row item => In item items /\ isFolder item = false
  | SelectAll => True
  end.

Definition click (items : list GraphDriveItem) (selectedItems : list string) (c : Click)
  : list string :=
  match c with
  | Row item => toggleSelection (id item) selectedItems
  | SelectAll => handleSelectAll items selectedItems
  end.

(** The selection after some clicks in a folder, which opens with none. *)
Definition selection (items : list GraphDriveItem) (clicks : list Click) : list string :=
  fold_left (click items) clicks [].

End SharePointPicker.

Module PickerSpec.

Import SharePointPicker.

(** The identifiers of the files of a folder. *)
Definition file_ids (items : list GraphDriveItem) : list string :=
  map id (filter is_file items).

(** The items have distinct identifiers, and each is a folder or a
    file. *)
Definition listing (items : list GraphDriveItem) : Prop :=
  NoDup (map id items) /\
  forall item, In item items -> isFolder item = false -> is_file item = true.

End PickerSpec.

(** ** More sample inputs *)

Module MoreSamples.

Import Js Types.
Local Open Scope list_scope.

(** A DOCX upload from which the extraction library gets nothing. *)
Definition docx_resume : FileInput :=
  mkFileInput (Some (mkFile "cv.docx")) (Some "UEsDBA==") GeminiService.DOCX (Some local).

Definition grace : ScreeningResult :=
  mkScreeningResult "Grace" "New York" "9 years" "Engineer"
    (Some "grace@example.com") (Some "555-0100") "text" (inject_Z 70) "summary" [] [] []
    "Potential Match" [] [] [].

(** Two results on one page of cards. *)
Definition two_cards : AppView.Cards ScreeningResult :=
  AppView.mkCards [content Samples.ada; grace] App.CARD None 1.

(** Seven results, the second page of cards being shown. *)
Definition seven_cards : AppView.Cards ScreeningResult :=
  AppView.mkCards (repeat grace 7) App.CARD None 2.

(** The no-break space U+00A0 in UTF-8; a text that is a no-break space
    and a line separator U+2028; a word between two no-break spaces. *)
Definition nbsp : string := String "194" (String "160" "").
Definition line_separator : string := String "226" (String "128" (String "168" "")).
Definition nbsp_only : string := (nbsp ++ line_separator)%string.
Definition nbsp_around : string := (nbsp ++ "Go developer" ++ nbsp)%string.

(** A candidate whose email holds a double quote. *)
Definition nicknamed : ScreeningResult :=
  mkScreeningResult "Alan" "Wilmslow" "12 years" "Logician"
    (Some (String "a" (String "034" "t@example.com"))) None "text" (inject_Z 80)
    "summary" [] [] [] "Strong Match" [] [] [].

(** A number written as the integer below it. *)
Definition integer_text (q : Q) : string := JsString.of_Z (Qfloor q).

(** A saved description whose text holds a double quote, a backslash, a
    line feed and a control character. *)
Definition saved_sample : list SavedJDs.SavedJobDescription :=
  [SavedJDs.mkSavedJobDescription "1762128000000" "Go developer"
     (String "034" (String "\" (String "010" (String "001" "Go"))))
     "11/3/2026"].

(** A folder with a sub-folder and two files, and three clicks in it. *)
Definition report : SharePointPicker.GraphDriveItem :=
  SharePointPicker.mkGraphDriveItem "f1" "report.pdf" None (Some "application/pdf").

Definition notes : SharePointPicker.GraphDriveItem :=
  SharePointPicker.mkGraphDriveItem "f2" "notes.txt" None (Some "text/plain").

Definition drive : list SharePointPicker.GraphDriveItem :=
  [SharePointPicker.mkGraphDriveItem "d1" "Archive" (Some 3%nat) None; report; notes].

Definition clicks : list SharePointPicker.Click :=
  [SharePointPicker.Row report; SharePointPicker.Row notes].

End MoreSamples.

(** * Properties *)

(** ** The arithmetic of Numbers *)

Section Doubles.

Import Double.

Lemma rne_spec (a b : Z) :
  0 < b ->
  (2 * rne a b - 1) * b <= 2 * a <= (2 * rne a b + 1) * b /\
  (2 * a = (2 * rne a b + 1) * b \/ 2 * a = (2 * rne a b - 1) * b ->
   Z.even (rne a b) = true).
Proof.
  intro Hb. unfold rne.
  pose proof (Z.div_mod a b ltac:(lia)) as Hdiv.
  pose proof (Z.mod_pos_bound a b Hb) as Hmod.
  set (q := a / b) in *. set (r := a mod b) in *.
  destruct (2 * r <? b) eqn:E1.
  { apply Z.ltb_lt in E1. split; [nia|]. intros [H|H]; nia. }
  apply Z.ltb_ge in E1.
  destruct (b <? 2 * r) eqn:E2.
  { apply Z.ltb_lt in E2. split; [nia|]. intros [H|H]; nia. }
  apply Z.ltb_ge in E2.
  destruct (Z.even q) eqn:E3.
  { split; [nia|]. intros _. exact E3. }
  split; [nia|]. intros _.
  replace (q + 1) with (Z.succ q) by lia. rewrite Z.even_succ.
  rewrite <- Z.negb_even, E3. reflexivity.
Qed.

Lemma rne_mono (a b a' b' : Z) :
  0 < b -> 0 < b' -> a * b' <= a' * b -> rne a b <= rne a' b'.
Proof.
  intros Hb Hb' Hle.
  destruct (rne_spec a b Hb) as [[Hlo _] Heven].
  destruct (rne_spec a' b' Hb') as [[_ Hhi'] Heven'].
  set (z := rne a b) in *. set (z' := rne a' b') in *.
  destruct (Z_le_gt_dec z z') as [|Hgt]; [assumption|exfalso].
  assert (H1 : (2 * z - 1) * (b * b') <= 2 * a * b') by nia.
  assert (H2 : 2 * a' * b <= (2 * z' + 1) * (b * b')) by nia.
  assert (Hbb : 0 < b * b') by nia.
  assert (Hz : z = z' + 1) by nia.
  assert (Ha : 2 * a = (2 * z - 1) * b) by nia.
  assert (Ha' : 2 * a' = (2 * z' + 1) * b') by nia.
  pose proof (Heven (or_intror Ha)) as Ez.
  pose proof (Heven' (or_introl Ha')) as Ez'.
  rewrite Hz in Ez. replace (z' + 1) with (Z.succ z') in Ez by lia.
  rewrite Z.even_succ, <- Z.negb_even, Ez' in Ez. discriminate.
Qed.

Lemma rne_exact (c b : Z) : 0 < b -> rne (c * b) b = c.
Proof.
  intro Hb. unfold rne. rewrite Z.div_mul, Z.mod_mul by lia.
  replace (2 * 0 <? b) with true by (symmetry; apply Z.ltb_lt; lia). reflexivity.
Qed.

Lemma div_mono (a b a' b' : Z) :
  0 < b -> 0 < b' -> a * b' <= a' * b -> a / b <= a' / b'.
Proof.
  intros Hb Hb' Hle. apply Z.div_le_lower_bound; [assumption|].
  pose proof (Z.mul_div_le a b Hb). nia.
Qed.

Lemma round_scaled_mono (a b a' b' : Z) :
  0 <= a -> 0 < b -> 0 < b' -> a * b' <= a' * b ->
  round_scaled a b <= round_scaled a' b'.
Proof.
  intros Ha Hb Hb' Hle. unfold round_scaled.
  pose proof (div_mono a b a' b' Hb Hb' Hle) as Hf.
  assert (Hf0 : 0 <= a / b) by (apply Z.div_pos; lia).
  set (f := a / b) in *. set (f' := a' / b') in *.
  pose proof (Z.log2_le_mono f f' Hf) as Hlog.
  set (s := Z.max 0 (Z.log2 f - 52)). set (s' := Z.max 0 (Z.log2 f' - 52)).
  assert (Hs : 0 <= s) by (unfold s; lia).
  assert (Hs' : 0 <= s') by (unfold s'; lia).
  assert (Hss : s <= s') by (unfold s, s'; lia).
  assert (Hp : 0 < 2 ^ s) by (apply Z.pow_pos_nonneg; lia).
  assert (Hp' : 0 < 2 ^ s') by (apply Z.pow_pos_nonneg; lia).
  destruct (Z.eq_dec s s') as [Heq|Hne].
  - rewrite <- Heq. apply Z.mul_le_mono_nonneg_r; [lia|].
    apply rne_mono; nia.
  - assert (Hlt : s < s') by lia.
    (* the smaller one is at most 2^(53+s) *)
    assert (Hupper : rne a (b * 2 ^ s) <= 2 ^ 53).
    { assert (Hfs : f < 2 ^ (53 + s)).
      { destruct (Z.eq_dec f 0) as [->|Hf1]; [apply Z.pow_pos_nonneg; lia|].
        apply Z.log2_lt_pow2; [lia|]. unfold s. lia. }
      assert (Ha53 : a < b * 2 ^ (53 + s)).
      { pose proof (Z.div_mod a b ltac:(lia)) as Hdm.
        pose proof (Z.mod_pos_bound a b Hb) as Hmb. fold f in Hdm. nia. }
      rewrite <- (rne_exact (2 ^ 53) (b * 2 ^ s)) by nia.
      apply rne_mono; try nia.
      rewrite Z.pow_add_r in Ha53 by lia. nia. }
    assert (Hlower : 2 ^ 52 <= rne a' (b' * 2 ^ s')).
    { assert (Hs'eq : s' = Z.log2 f' - 52) by (unfold s' in *; lia).
      assert (Hf'pos : 0 < f').
      { destruct (Z_lt_le_dec 0 f') as [|Hn]; [assumption|].
        rewrite (Z.log2_nonpos f' Hn) in Hs'eq. lia. }
      assert (Hf's : 2 ^ (52 + s') <= f').
      { apply Z.log2_le_pow2; [assumption | lia]. }
      assert (Ha52 : b' * 2 ^ (52 + s') <= a').
      { pose proof (Z.mul_div_le a' b' Hb'). fold f' in H. nia. }
      rewrite <- (rne_exact (2 ^ 52) (b' * 2 ^ s')) by nia.
      apply rne_mono; try nia.
      rewrite Z.pow_add_r in Ha52 by lia. nia. }
    assert (Hpow : 2 ^ 53 * 2 ^ s <= 2 ^ 52 * 2 ^ s').
    { rewrite <- !Z.pow_add_r by lia. apply Z.pow_le_mono_r; lia. }
    nia.
Qed.

Lemma round_scaled_compat (a b a' b' : Z) :
  0 <= a -> 0 < b -> 0 < b' -> a * b' = a' * b ->
  round_scaled a b = round_scaled a' b'.
Proof.
  intros Ha Hb Hb' Heq.
  assert (0 <= a') by nia.
  apply Z.le_antisymm; apply round_scaled_mono; lia.
Qed.

Lemma round_scaled_nonneg (a b : Z) : 0 <= a -> 0 < b -> 0 <= round_scaled a b.
Proof.
  intros Ha Hb.
  assert (H : round_scaled 0 b <= round_scaled a b)
    by (apply round_scaled_mono; lia).
  assert (H0 : round_scaled 0 b = 0).
  { unfold round_scaled. rewrite Z.div_0_l by lia.
    change (Z.max 0 (Z.log2 0 - 52)) with 0.
    change (rne 0 (b * 2 ^ 0)) with (rne (0 * (b * 2 ^ 0)) (b * 2 ^ 0)).
    rewrite rne_exact; [reflexivity|]. rewrite Z.pow_0_r. lia. }
  lia.
Qed.

Lemma ulps_pos : 0 < ulps.
Proof. unfold ulps. apply Z.pow_pos_nonneg; lia. Qed.

Lemma huge_ulps : huge = 2 ^ 1024 * ulps.
Proof. unfold huge, ulps. rewrite <- Z.pow_add_r by lia. reflexivity. Qed.

(** An integer below [2^53] is a value. *)
Lemma round_scaled_integer (z : Z) :
  0 <= z < 2 ^ 53 -> round_scaled (z * ulps) 1 = z * ulps.
Proof.
  intros [Hz Hz53]. unfold round_scaled, ulps. rewrite Z.div_1_r, Z.mul_1_l.
  destruct (Z.eq_dec z 0) as [->|Hz0].
  { rewrite Z.mul_0_l. reflexivity. }
  rewrite Z.log2_mul_pow2 by lia.
  assert (Hlog : 0 <= Z.log2 z <= 52).
  { split; [apply Z.log2_nonneg|].
    assert (Z.log2 z < 53) by (apply Z.log2_lt_pow2; lia). lia. }
  set (s := Z.max 0 (1074 + Z.log2 z - 52)).
  assert (Hs : 0 <= s <= 1074) by (unfold s; lia).
  replace (z * 2 ^ 1074) with ((z * 2 ^ (1074 - s)) * 2 ^ s).
  - rewrite rne_exact; [reflexivity | apply Z.pow_pos_nonneg; lia].
  - rewrite <- Z.mul_assoc, <- Z.pow_add_r by lia. do 2 f_equal. lia.
Qed.

Lemma Qred_inject_Z (z : Z) : Qred (inject_Z z) = inject_Z z.
Proof.
  pose proof (Qred_correct (inject_Z z)) as Heq.
  pose proof (gcd_Qred (inject_Z z)) as Hgcd.
  destruct (Qred (inject_Z z)) as [n d]. unfold Qeq in Heq. cbn in Heq, Hgcd.
  rewrite Z.mul_1_r in Heq. subst n.
  rewrite Z.mul_comm, Z.gcd_comm in Hgcd.
  rewrite Z.gcd_mul_diag_l in Hgcd by lia.
  injection Hgcd as ->. unfold inject_Z. now rewrite Z.mul_1_r.
Qed.

Lemma of_scaled_integer (z : Z) : of_scaled (z * ulps) = inject_Z z.
Proof.
  unfold of_scaled. rewrite <- (Qred_inject_Z z). apply Qred_complete.
  unfold Qeq, inject_Z. cbn [Qnum Qden]. rewrite Z2Pos.id by reflexivity. lia.
Qed.

Lemma of_scaled_value (m : Z) : (of_scaled m == Qmake m (Z.to_pos ulps))%Q.
Proof. apply Qred_correct. Qed.

(** The Number value of an integer below [2^53] is that integer. *)
Lemma round_integer (z : Z) :
  0 <= z < 2 ^ 53 -> round (inject_Z z) = Finite (inject_Z z).
Proof.
  intro Hz. unfold round, inject_Z at 1. cbn [Qnum Qden].
  destruct z as [|p|p]; [reflexivity| |lia].
  rewrite round_scaled_integer by exact Hz. cbv zeta.
  change (Qnum (inject_Z (Z.pos p))) with (Z.pos p).
  assert (Hlt : (Z.pos p * ulps <? huge) = true).
  { apply Z.ltb_lt. rewrite huge_ulps.
    apply Z.mul_lt_mono_pos_r; [apply ulps_pos|].
    apply Z.lt_trans with (2 ^ 53); [lia | apply Z.pow_lt_mono_r; lia]. }
  rewrite Hlt, of_scaled_integer. reflexivity.
Qed.

Lemma round_scaled_zero (b : Z) : 0 < b -> round_scaled 0 b = 0.
Proof.
  intro Hb. unfold round_scaled. rewrite Z.div_0_l by lia.
  change (Z.max 0 (Z.log2 0 - 52)) with 0.
  change (rne 0 (b * 2 ^ 0)) with (rne (0 * (b * 2 ^ 0)) (b * 2 ^ 0)).
  rewrite rne_exact; [reflexivity|]. rewrite Z.pow_0_r. lia.
Qed.

Lemma of_scaled_zero : of_scaled 0 = 0%Q.
Proof. exact (of_scaled_integer 0). Qed.

(** The Number value of a real that is not negative. *)
Lemma round_nonneg (x : Q) :
  0 <= Qnum x ->
  round x
  = if round_scaled (Qnum x * ulps) (Zpos (Qden x)) <? huge
    then Finite (of_scaled (round_scaled (Qnum x * ulps) (Zpos (Qden x))))
    else Infinity false.
Proof.
  intro Hx. unfold round. destruct (Qnum x) as [|p|p]; [|reflexivity|lia].
  rewrite Z.mul_0_l, round_scaled_zero by lia.
  assert (H : (0 <? huge) = true).
  { apply Z.ltb_lt. rewrite huge_ulps. pose proof ulps_pos.
    assert (0 < 2 ^ 1024) by (apply Z.pow_pos_nonneg; lia). nia. }
  now rewrite H, of_scaled_zero.
Qed.

Lemma of_scaled_le (m m' : Z) : m <= m' -> (of_scaled m <= of_scaled m')%Q.
Proof.
  intro Hm. rewrite !of_scaled_value. unfold Qle. cbn [Qnum Qden].
  apply Z.mul_le_mono_nonneg_r; [lia | exact Hm].
Qed.

Lemma round_scaled_le (y z : Q) :
  0 <= Qnum y -> (y <= z)%Q ->
  round_scaled (Qnum y * ulps) (Zpos (Qden y))
  <= round_scaled (Qnum z * ulps) (Zpos (Qden z)).
Proof.
  intros Ny Hyz. pose proof ulps_pos as Hu.
  unfold Qle in Hyz.
  apply round_scaled_mono; try lia; nia.
Qed.

(** Rounding keeps the order: a real between two others whose Number
    values are finite has a finite Number value between them. *)
Lemma round_between (l x h : Q) (l' h' : Q) :
  (0 <= l)%Q -> (l <= x)%Q -> (x <= h)%Q ->
  round l = Finite l' -> round h = Finite h' ->
  exists v, round x = Finite v /\ (l' <= v)%Q /\ (v <= h')%Q.
Proof.
  intros Hl Hlx Hxh Rl Rh.
  assert (Hnum : forall y, (0 <= y)%Q -> 0 <= Qnum y).
  { intros y Hy. unfold Qle in Hy. cbn in Hy. lia. }
  assert (Hx0 : (0 <= x)%Q) by (eapply Qle_trans; eassumption).
  assert (Hh0 : (0 <= h)%Q) by (eapply Qle_trans; eassumption).
  pose proof (Hnum _ Hl) as Nl. pose proof (Hnum _ Hx0) as Nx.
  pose proof (Hnum _ Hh0) as Nh.
  pose proof (round_scaled_le _ _ Nl Hlx) as Mlx.
  pose proof (round_scaled_le _ _ Nx Hxh) as Mxh.
  rewrite round_nonneg in Rl, Rh |- * by assumption.
  set (ml := round_scaled (Qnum l * ulps) (Zpos (Qden l))) in *.
  set (mx := round_scaled (Qnum x * ulps) (Zpos (Qden x))) in *.
  set (mh := round_scaled (Qnum h * ulps) (Zpos (Qden h))) in *.
  destruct (mh <? huge) eqn:Fh; [|discriminate]. apply Z.ltb_lt in Fh.
  destruct (ml <? huge) eqn:Fl; [|discriminate].
  injection Rl as <-. injection Rh as <-.
  replace (mx <? huge) with true by (symmetry; apply Z.ltb_lt; lia).
  eexists. split; [reflexivity|]. split; now apply of_scaled_le.
Qed.

(** Two fractions of one value have one Number value. *)
Lemma round_compat (x y : Q) : (0 <= x)%Q -> (x == y)%Q -> round x = round y.
Proof.
  intros Hx Hxy.
  assert (Nx : 0 <= Qnum x) by (unfold Qle in Hx; cbn in Hx; lia).
  assert (Ny : 0 <= Qnum y).
  { rewrite Hxy in Hx. unfold Qle in Hx. cbn in Hx. lia. }
  rewrite !round_nonneg by assumption.
  pose proof ulps_pos as Hu.
  replace (round_scaled (Qnum y * ulps) (Z.pos (Qden y)))
    with (round_scaled (Qnum x * ulps) (Z.pos (Qden x))); [reflexivity|].
  unfold Qeq in Hxy.
  apply round_scaled_compat; try lia; nia.
Qed.

(** The sum of two integers that are Numbers, when it is below [2^53]. *)
Lemma add_integers (a b : Z) :
  0 <= a -> 0 <= b -> a + b < 2 ^ 53 ->
  add (Finite (inject_Z a)) (Finite (inject_Z b)) = Finite (inject_Z (a + b)).
Proof.
  intros Ha Hb Hab. unfold add.
  rewrite (round_compat _ (inject_Z (a + b))).
  - apply round_integer. lia.
  - unfold Qle, Qplus, inject_Z. cbn [Qnum Qden]. lia.
  - unfold Qeq, Qplus, inject_Z. cbn [Qnum Qden]. lia.
Qed.

(** [Math.floor(Math.random() * 40)] is an integer from 0 to 39. *)
Lemma floor_random_times_40 (bits : Z) :
  0 <= bits < 2 ^ 53 ->
  exists n, 0 <= n <= 39 /\
    Math_floor (mul (Finite (Qmake bits (Z.to_pos (2 ^ 53)))) (Finite (inject_Z 40)))
    = Finite (inject_Z n).
Proof.
  intros [Hlo Hhi]. unfold mul. cbn [value negative Qnum].
  replace (bits <? 0) with false by (symmetry; apply Z.ltb_ge; lia).
  cbn [xorb]. unfold is_zero at 1 2. cbn [Qnum inject_Z].
  change (40 =? 0) with false. rewrite orb_false_r.
  destruct (bits =? 0) eqn:E.
  { exists 0. split; [lia | reflexivity]. }
  apply Z.eqb_neq in E.
  set (h := (Qmake (2 ^ 53 - 1) (Z.to_pos (2 ^ 53)) * inject_Z 40)%Q).
  assert (Rh : round h = Finite (Qmake 5629499534213119 140737488355328))
    by (vm_compute; reflexivity).
  destruct (round_between 0 (Qmake bits (Z.to_pos (2 ^ 53)) * inject_Z 40) h 0
              (Qmake 5629499534213119 140737488355328))
    as (v & Rv & Hv0 & Hvh); try assumption.
  - apply Qle_refl.
  - unfold Qle, Qmult, inject_Z. cbn [Qnum Qden]. lia.
  - unfold h, Qle, Qmult, inject_Z. cbn [Qnum Qden].
    change (Z.pos (Z.to_pos (2 ^ 53) * 1)) with (2 ^ 53). lia.
  - reflexivity.
  - rewrite Rv. cbn [Math_floor]. exists (Qfloor v). split; [|reflexivity].
    split.
    + change 0 with (Qfloor 0). now apply Qfloor_resp_le.
    + change 39 with (Qfloor (Qmake 5629499534213119 140737488355328)).
      now apply Qfloor_resp_le.
Qed.

End Doubles.

(** ** White space and [trim] *)

Section WhiteSpace.

Import JsString WhiteSpaceSpec.
Local Open Scope string_scope.

Lemma string_append_assoc (a b c : string) :
  ((a ++ b) ++ c)%string = (a ++ b ++ c)%string.
Proof.
  induction a as [|x a IH]; cbn; [reflexivity | now rewrite IH].
Qed.

Lemma append_empty_r (s : string) : s ++ "" = s.
Proof. induction s as [|c s IH]; cbn; [reflexivity | now rewrite IH]. Qed.

Lemma length_append (a b : string) :
  String.length (a ++ b) = (String.length a + String.length b)%nat.
Proof. induction a as [|c a IH]; cbn; [reflexivity | now rewrite IH]. Qed.

Lemma trimStart_step (c : ascii) (r : string) :
  trimStart (String c r)
  = if is_space c then trimStart r
    else
      match r with
      | String c2 r2 =>
          if is_space2 c c2 then trimStart r2
          else
            match r2 with
            | String c3 r3 => if is_space3 c c2 c3 then trimStart r3 else String c r
            | EmptyString => String c r
            end
      | EmptyString => String c r
      end.
Proof. destruct r as [|c2 [|c3 r3]]; reflexivity. Qed.

Lemma trimEnd_step (c : ascii) (r : string) :
  trimEnd (String c r)
  = if all_space (String c r) then "" else String c (trimEnd r).
Proof. reflexivity. Qed.

(** The three shapes of a white space character in UTF-8, with the tests
    that recognise them. *)
Lemma space_shapes (u : string) :
  In u spaces ->
  (exists c, u = String c "" /\ is_space c = true) \/
  (exists c1 c2, u = String c1 (String c2 "") /\
                 is_space c1 = false /\ is_space2 c1 c2 = true) \/
  (exists c1 c2 c3, u = String c1 (String c2 (String c3 "")) /\
                    is_space c1 = false /\ is_space2 c1 c2 = false /\
                    is_space3 c1 c2 c3 = true).
Proof.
  intro H.
  repeat (destruct H as [<- | H];
          [first [ left; eexists; split; reflexivity
                 | right; left; do 2 eexists; repeat split; reflexivity
                 | right; right; do 3 eexists; repeat split; reflexivity ] |]).
  contradiction.
Qed.

Ltac find_space :=
  unfold spaces; cbn [In]; solve [repeat (first [left; reflexivity | right])].

Lemma is_space_listed (c : ascii) :
  is_space c = true -> In (String c "") spaces.
Proof.
  unfold is_space. cbv zeta. intro H.
  rewrite <- (ascii_nat_embedding c).
  revert H. generalize (nat_of_ascii c). intros n H.
  rewrite orb_true_iff, andb_true_iff, !Nat.leb_le, Nat.eqb_eq in H.
  assert (Hn : (n = 9 \/ n = 10 \/ n = 11 \/ n = 12 \/ n = 13 \/ n = 32)%nat) by lia.
  repeat (destruct Hn as [-> | Hn]; [find_space|]). subst n. find_space.
Qed.

Lemma is_space2_listed (c1 c2 : ascii) :
  is_space2 c1 c2 = true -> In (String c1 (String c2 "")) spaces.
Proof.
  unfold is_space2. intro H.
  rewrite <- (ascii_nat_embedding c1), <- (ascii_nat_embedding c2).
  revert H. generalize (nat_of_ascii c1), (nat_of_ascii c2). intros n1 n2 H.
  rewrite andb_true_iff, !Nat.eqb_eq in H. destruct H as [-> ->]. find_space.
Qed.

Lemma is_space3_listed (c1 c2 c3 : ascii) :
  is_space3 c1 c2 c3 = true -> In (String c1 (String c2 (String c3 ""))) spaces.
Proof.
  unfold is_space3. cbv zeta. intro H.
  rewrite <- (ascii_nat_embedding c1), <- (ascii_nat_embedding c2),
    <- (ascii_nat_embedding c3).
  revert H. generalize (nat_of_ascii c1), (nat_of_ascii c2), (nat_of_ascii c3).
  intros n1 n2 n3 H.
  repeat (rewrite orb_true_iff in H || rewrite andb_true_iff in H).
  rewrite ?Nat.leb_le, ?Nat.eqb_eq in H.
  assert (Hn : (n1 = 225 /\ n2 = 154 /\ n3 = 128 \/
               n1 = 226 /\ n2 = 128 /\
               (n3 = 128 \/ n3 = 129 \/ n3 = 130 \/ n3 = 131 \/ n3 = 132 \/ n3 = 133 \/
                n3 = 134 \/ n3 = 135 \/ n3 = 136 \/ n3 = 137 \/ n3 = 138 \/
                n3 = 168 \/ n3 = 169 \/ n3 = 175) \/
               n1 = 226 /\ n2 = 129 /\ n3 = 159 \/
               n1 = 227 /\ n2 = 128 /\ n3 = 128 \/
               n1 = 239 /\ n2 = 187 /\ n3 = 191)%nat) by lia.
  clear H.
  destruct Hn as [(-> & -> & ->) | [(-> & -> & Hn) | [(-> & -> & ->)
                 | [(-> & -> & ->) | (-> & -> & ->)]]]]; try find_space.
  repeat (destruct Hn as [-> | Hn]; [find_space|]). subst n3. find_space.
Qed.

Lemma space_not_empty (u : string) : In u spaces -> u <> "".
Proof.
  intros H ->. repeat (destruct H as [H | H]; [discriminate|]). contradiction.
Qed.

Lemma white_app (a b : string) :
  white_space a -> white_space b -> white_space (a ++ b).
Proof.
  induction 1 as [|u s Hu Hs IH]; intro Hb; [exact Hb|].
  rewrite string_append_assoc. apply white_more; auto.
Qed.

Lemma white_one (u : string) : In u spaces -> white_space u.
Proof.
  intro H. rewrite <- (append_empty_r u). apply white_more; [exact H | constructor].
Qed.

Lemma trimStart_space (u s : string) :
  In u spaces -> trimStart (u ++ s) = trimStart s.
Proof.
  intro H.
  destruct (space_shapes u H)
    as [(c & -> & Hc) | [(c1 & c2 & -> & H1 & H2) | (c1 & c2 & c3 & -> & H1 & H2 & H3)]];
    cbn [append]; rewrite trimStart_step.
  - now rewrite Hc.
  - now rewrite H1, H2.
  - now rewrite H1, H2, H3.
Qed.

Lemma trimStart_white (s : string) : white_space s -> trimStart s = "".
Proof.
  induction 1 as [|u s Hu Hs IH]; [reflexivity|]. now rewrite trimStart_space.
Qed.

(** What [trimStart] removes is white space, and what it leaves does not
    begin with any. *)
Lemma trimStart_spec (n : nat) :
  forall s, (String.length s <= n)%nat ->
            (exists a, white_space a /\ s = a ++ trimStart s) /\
            no_space_at_start (trimStart s).
Proof.
  induction n as [|n IH]; intros s Hlen.
  - destruct s; [|cbn in Hlen; lia]. split.
    + exists "". split; [constructor | reflexivity].
    + intros u r Hu Heq. apply (space_not_empty u Hu). now destruct u.
  - destruct s as [|c r].
    { split.
      - exists "". split; [constructor | reflexivity].
      - intros u r Hu Heq. apply (space_not_empty u Hu). now destruct u. }
    cbn [String.length] in Hlen. rewrite trimStart_step.
    assert (Hstay : forall t, t = String c r ->
               (is_space c = false) ->
               (forall c2 r2, r = String c2 r2 -> is_space2 c c2 = false) ->
               (forall c2 c3 r3, r = String c2 (String c3 r3) -> is_space3 c c2 c3 = false) ->
               (exists a, white_space a /\ String c r = a ++ t) /\ no_space_at_start t).
    { intros t -> H1 H2 H3. split.
      - exists "". split; [constructor | reflexivity].
      - intros u r' Hu Heq.
        destruct (space_shapes u Hu)
          as [(x & -> & Hx) | [(x1 & x2 & -> & Hx1 & Hx2)
                              | (x1 & x2 & x3 & -> & Hx1 & Hx2 & Hx3)]];
          cbn [append] in Heq; inversion Heq; subst.
        + congruence.
        + rewrite (H2 _ _ eq_refl) in Hx2. discriminate.
        + rewrite (H3 _ _ _ eq_refl) in Hx3. discriminate. }
    destruct (is_space c) eqn:Hc.
    { destruct (IH r ltac:(lia)) as [(a & Ha & Heq) Htight]. split; [|exact Htight].
      exists (String c "" ++ a). split.
      - apply white_more; [now apply is_space_listed | exact Ha].
      - cbn [append]. now rewrite <- Heq. }
    destruct r as [|c2 r2].
    { apply Hstay; [reflexivity | reflexivity | discriminate | discriminate]. }
    cbn [String.length] in Hlen.
    destruct (is_space2 c c2) eqn:Hc2.
    { destruct (IH r2 ltac:(lia)) as [(a & Ha & Heq) Htight]. split; [|exact Htight].
      exists (String c (String c2 "") ++ a). split.
      - apply white_more; [now apply is_space2_listed | exact Ha].
      - cbn [append]. now rewrite <- Heq. }
    destruct r2 as [|c3 r3].
    { apply Hstay; [reflexivity | reflexivity | | discriminate].
      intros ? ? E. now inversion E; subst. }
    cbn [String.length] in Hlen.
    destruct (is_space3 c c2 c3) eqn:Hc3.
    { destruct (IH r3 ltac:(lia)) as [(a & Ha & Heq) Htight]. split; [|exact Htight].
      exists (String c (String c2 (String c3 "")) ++ a). split.
      - apply white_more; [now apply is_space3_listed | exact Ha].
      - cbn [append]. now rewrite <- Heq. }
    apply Hstay; [reflexivity | reflexivity | |].
    + intros ? ? E. now inversion E; subst.
    + intros ? ? ? E. now inversion E; subst.
Qed.

Lemma all_space_white (s : string) : all_space s = true <-> white_space s.
Proof.
  unfold all_space. split.
  - intro H. destruct (trimStart_spec (String.length s) s (le_n _)) as [(a & Ha & Heq) _].
    destruct (trimStart s); [|discriminate].
    rewrite append_empty_r in Heq. now subst.
  - intro H. now rewrite trimStart_white.
Qed.

Lemma trimEnd_white_end (p w : string) :
  white_space w -> (String.length (trimEnd (p ++ w)) <= String.length p)%nat.
Proof.
  intro Hw. induction p as [|c p IH].
  - cbn [append]. destruct w as [|c r]; [cbn; lia|].
    rewrite trimEnd_step.
    now rewrite (proj2 (all_space_white (String c r)) Hw).
  - cbn [append]. rewrite trimEnd_step.
    destruct (all_space (String c (p ++ w))); cbn [String.length]; lia.
Qed.

(** What [trimEnd] removes is white space. *)
Lemma trimEnd_removes (t : string) :
  exists b, white_space b /\ t = trimEnd t ++ b.
Proof.
  induction t as [|c t IH].
  - exists "". split; [constructor | reflexivity].
  - rewrite trimEnd_step. destruct (all_space (String c t)) eqn:Hall.
    + exists (String c t). split; [now apply all_space_white | reflexivity].
    + destruct IH as (b & Hb & Heq). exists b. split; [exact Hb|].
      cbn [append]. now rewrite <- Heq.
Qed.

Lemma trimEnd_tight (t : string) : no_space_at_end (trimEnd t).
Proof.
  intros p u Hu Heq.
  destruct (trimEnd_removes t) as (b & Hb & Ht).
  assert (Hlen : (String.length (trimEnd t) <= String.length p)%nat).
  { rewrite Ht at 1. rewrite Heq, string_append_assoc.
    apply trimEnd_white_end. now apply white_more. }
  rewrite Heq, length_append in Hlen.
  apply (space_not_empty u Hu). destruct u; [reflexivity | cbn in Hlen; lia].
Qed.

Lemma trimEnd_keeps_start (t : string) :
  no_space_at_start t -> no_space_at_start (trimEnd t).
Proof.
  intros Ht u r Hu Heq.
  destruct (trimEnd_removes t) as (b & Hb & Hsplit).
  apply (Ht u (r ++ b) Hu). rewrite Hsplit at 1. now rewrite Heq, string_append_assoc.
Qed.

(** [trim] gives the text without the white space around it. *)
Lemma trim_trimmed (s : string) : trimmed s (trim s).
Proof.
  unfold trim.
  destruct (trimStart_spec (String.length s) s (le_n _)) as [(a & Ha & Hs) Hstart].
  destruct (trimEnd_removes (trimStart s)) as (b & Hb & Ht).
  exists a, b. repeat split.
  - rewrite <- Ht. exact Hs.
  - exact Ha.
  - exact Hb.
  - now apply trimEnd_keeps_start.
  - apply trimEnd_tight.
Qed.

(** [trim] gives the empty text on white space, and only there. *)
Lemma trim_empty_white (s : string) :
  truthy (trim s) = false <-> white_space s.
Proof.
  split.
  - intro H. destruct (trim_trimmed s) as (a & b & Hs & Ha & Hb & _).
    destruct (trim s); [|discriminate]. cbn [append] in Hs. subst s.
    now apply white_app.
  - intro H. unfold trim. now rewrite trimStart_white.
Qed.

End WhiteSpace.


(** ** The fuel of the JSON reader *)

Section JsonFuel.

Import Json.
Local Open Scope list_scope.
Local Open Scope nat_scope.

Lemma skip_ws_length s : length (skip_ws s) <= length s.
Proof.
  induction s as [|c s IH]; [reflexivity|].
  cbn [skip_ws]. destruct (is_ws c); cbn [length]; lia.
Qed.

Lemma digits_length s :
  forall acc len, length (snd (digits acc len s)) <= length s.
Proof.
  induction s as [|c s IH]; intros acc len; [reflexivity|].
  cbn [digits]. destruct (digit_val c).
  - specialize (IH (acc * 10 + z)%Z (S len)). cbn [length]. lia.
  - reflexivity.
Qed.

Lemma parse_int_part_length s v rest :
  parse_int_part s = Some (v, rest) -> length rest < length s.
Proof.
  unfold parse_int_part. destruct s as [|c r]; [discriminate|].
  destruct (digit_val c) as [d|] eqn:Hd; [|discriminate].
  assert (Hrun : forall v' l' r',
             digits 0%Z 0 (c :: r) = (v', l', r') -> length r' < length (c :: r)).
  { intros v' l' r'. cbn [digits]. rewrite Hd.
    pose proof (digits_length r (0 * 10 + d)%Z 1) as Hlen. intro H.
    rewrite H in Hlen. cbn [snd length] in *. lia. }
  destruct d.
  - intro H. inversion H; subst. cbn [length]. lia.
  - destruct (digits 0%Z 0 (c :: r)) as [[v' l'] r'] eqn:Hdig.
    intro H. inversion H; subst. eapply Hrun. reflexivity.
  - destruct (digits 0%Z 0 (c :: r)) as [[v' l'] r'] eqn:Hdig.
    intro H. inversion H; subst. eapply Hrun. reflexivity.
Qed.

Lemma parse_frac_part_length s v l rest :
  parse_frac_part s = Some (v, l, rest) -> length rest <= length s.
Proof.
  unfold parse_frac_part. destruct s as [|c r].
  - intro H. inversion H; subst. reflexivity.
  - destruct (Ascii.eqb c ".").
    + pose proof (digits_length r 0%Z 0) as Hlen.
      destruct (digits 0%Z 0 r) as [[v' l'] r'].
      destruct l'; [discriminate|].
      intro H. inversion H; subst. cbn [snd length] in *. lia.
    + intro H. inversion H; subst. reflexivity.
Qed.

Lemma exponent_digits_length sign s v rest :
  exponent_digits sign s = Some (v, rest) -> length rest <= length s.
Proof.
  unfold exponent_digits. pose proof (digits_length s 0%Z 0) as Hlen.
  destruct (digits 0%Z 0 s) as [[v' l'] r'].
  destruct l'; [discriminate|].
  intro H. inversion H; subst. exact Hlen.
Qed.

Lemma parse_exp_part_length s v rest :
  parse_exp_part s = Some (v, rest) -> length rest <= length s.
Proof.
  unfold parse_exp_part. destruct s as [|c r].
  - intro H. inversion H; subst. reflexivity.
  - destruct (Ascii.eqb c "e" || Ascii.eqb c "E")%bool.
    + destruct r as [|c' r']; [discriminate|].
      destruct (Ascii.eqb c' "+"); [|destruct (Ascii.eqb c' "-")];
        intro H; apply exponent_digits_length in H; cbn [length] in *; lia.
    + intro H. inversion H; subst. reflexivity.
Qed.

Lemma parse_number_length s q rest :
  parse_number s = Some (q, rest) -> length rest < length s.
Proof.
  unfold parse_number.
  set (signed := match s with
                 | c :: r => if Ascii.eqb c "-" then ((-1)%Z, r) else (1%Z, s)
                 | [] => (1%Z, s)
                 end).
  assert (Hsigned : length (snd signed) <= length s).
  { subst signed. destruct s as [|c r]; [reflexivity|].
    destruct (Ascii.eqb c "-"); cbn [snd length]; lia. }
  destruct signed as [sign s1]. cbn [snd] in Hsigned.
  destruct (parse_int_part s1) as [[ip s2]|] eqn:Hint; [|discriminate].
  destruct (parse_frac_part s2) as [[[fp flen] s3]|] eqn:Hfrac; [|discriminate].
  destruct (parse_exp_part s3) as [[ex s4]|] eqn:Hexp; [|discriminate].
  intro H. inversion H; subst.
  apply parse_int_part_length in Hint. apply parse_frac_part_length in Hfrac.
  apply parse_exp_part_length in Hexp. lia.
Qed.

Lemma push_length i k items rest n :
  push i k = Some (items, rest) ->
  (forall items', k = Some (items', rest) -> length rest < n) ->
  length rest < n.
Proof.
  unfold push. destruct k as [[items' rest']|]; [|discriminate].
  intros H Hk. inversion H; subst. now apply (Hk items').
Qed.

Lemma parse_str_items_length n :
  forall s items rest,
    length s <= n ->
    parse_str_items s = Some (items, rest) -> length rest < length s.
Proof.
  induction n as [|n IH]; intros s items rest Hn.
  - destruct s; [discriminate | cbn [length] in Hn; lia].
  - destruct s as [|c r]; [discriminate|]. cbn [length] in Hn.
    cbn [parse_str_items]. destruct (Ascii.eqb c quote).
    + intro H. inversion H; subst. cbn [length]. lia.
    + destruct (Ascii.eqb c backslash).
      * destruct r as [|e r']; [discriminate|]. cbn [length] in Hn.
        destruct (Ascii.eqb e "u").
        -- destruct r' as [|a [|b [|c0 [|d r'']]]]; try discriminate.
           destruct (hex_val a), (hex_val b), (hex_val c0), (hex_val d);
             try discriminate.
           intro H. eapply push_length; [exact H|]. intros items' Hk.
           apply IH in Hk; cbn [length] in *; lia.
        -- destruct (escape_char e); [|discriminate].
           intro H. eapply push_length; [exact H|]. intros items' Hk.
           apply IH in Hk; cbn [length] in *; lia.
      * destruct (nat_of_ascii c <? 32); [discriminate|].
        intro H. eapply push_length; [exact H|]. intros items' Hk.
        apply IH in Hk; cbn [length] in *; lia.
Qed.

Lemma parse_string_length s str rest :
  parse_string s = Some (str, rest) -> length rest < length s.
Proof.
  unfold parse_string.
  destruct (parse_str_items s) as [[items rest']|] eqn:Hitems; [|discriminate].
  intro H. inversion H; subst.
  eapply parse_str_items_length; [reflexivity | exact Hitems].
Qed.

Lemma expect_length word s rest :
  expect word s = Some rest ->
  length rest + length (JsString.chars word) = length s.
Proof.
  unfold expect.
  destruct (list_eq_dec ascii_dec (firstn (length (JsString.chars word)) s)
              (JsString.chars word)) as [Heq|]; [|discriminate].
  intro H. inversion H; subst.
  rewrite length_skipn.
  assert (Hlen : length (firstn (length (JsString.chars word)) s)
                 = length (JsString.chars word)) by now rewrite Heq.
  rewrite length_firstn in Hlen. lia.
Qed.

(** With fuel [f] the three readers consume at least one character when
    they succeed, and twice what they consume is fuel enough for the same
    answer. *)
Lemma readers_fuel (f : nat) :
  (forall s v rest,
      parse_value f s = Some (v, rest) ->
      length rest < length s /\
      forall f', 2 * (length s - length rest) <= f' ->
                 parse_value f' s = Some (v, rest)) /\
  (forall s vs rest,
      parse_elements f s = Some (vs, rest) ->
      length rest < length s /\
      forall f', 2 * (length s - length rest) <= f' ->
                 parse_elements f' s = Some (vs, rest)) /\
  (forall acc s fields rest,
      parse_members f acc s = Some (fields, rest) ->
      length rest < length s /\
      forall f', 2 * (length s - length rest) <= f' ->
                 parse_members f' acc s = Some (fields, rest)).
Proof.
  induction f as [|f (IHv & IHe & IHm)].
  { repeat split; discriminate. }
  split; [|split].
  - (* a value *)
    intros s v rest H. cbn [parse_value] in H.
    pose proof (skip_ws_length s) as Hws.
    destruct (skip_ws s) as [|c r] eqn:Hs; [discriminate|]. cbn [length] in Hws.
    destruct (Ascii.eqb c "{") eqn:Hobj.
    { pose proof (skip_ws_length r) as Hws'.
      destruct (skip_ws r) as [|c' r'] eqn:Hr; [discriminate|]. cbn [length] in Hws'.
      destruct (Ascii.eqb c' "}") eqn:Hclose.
      - inversion H; subst. split; [lia|].
        intros f' Hf'. destruct f' as [|f'']; [lia|].
        cbn [parse_value]. now rewrite Hs, Hobj, Hr, Hclose.
      - destruct (parse_members f [] (c' :: r')) as [[fields rest']|] eqn:Hm;
          [|discriminate].
        inversion H; subst. apply IHm in Hm. destruct Hm as [Hlen Hfuel].
        cbn [length] in Hlen. split; [lia|].
        intros f' Hf'. destruct f' as [|f'']; [lia|].
        cbn [parse_value]. rewrite Hs, Hobj, Hr, Hclose.
        rewrite Hfuel by (cbn [length]; lia). reflexivity. }
    destruct (Ascii.eqb c "[") eqn:Harr.
    { pose proof (skip_ws_length r) as Hws'.
      destruct (skip_ws r) as [|c' r'] eqn:Hr; [discriminate|]. cbn [length] in Hws'.
      destruct (Ascii.eqb c' "]") eqn:Hclose.
      - inversion H; subst. split; [lia|].
        intros f' Hf'. destruct f' as [|f'']; [lia|].
        cbn [parse_value]. now rewrite Hs, Hobj, Harr, Hr, Hclose.
      - destruct (parse_elements f (c' :: r')) as [[items rest']|] eqn:He;
          [|discriminate].
        inversion H; subst. apply IHe in He. destruct He as [Hlen Hfuel].
        cbn [length] in Hlen. split; [lia|].
        intros f' Hf'. destruct f' as [|f'']; [lia|].
        cbn [parse_value]. rewrite Hs, Hobj, Harr, Hr, Hclose.
        rewrite Hfuel by (cbn [length]; lia). reflexivity. }
    assert (Hleaf : forall leaf : option (json * list ascii),
               leaf = Some (v, rest) ->
               (forall f'', parse_value (S f'') s = leaf) ->
               length rest < length (c :: r) ->
               length rest < length s /\
               forall f', 2 * (length s - length rest) <= f' ->
                          parse_value f' s = Some (v, rest)).
    { intros leaf Hleaf Hany Hlen. cbn [length] in Hlen. split; [lia|].
      intros f' Hf'. destruct f' as [|f'']; [lia|]. now rewrite Hany. }
    destruct (Ascii.eqb c quote) eqn:Hq.
    { apply (Hleaf _ H).
      - intro f''. cbn [parse_value]. now rewrite Hs, Hobj, Harr, Hq.
      - destruct (parse_string r) as [[str rest']|] eqn:Hstr; [|discriminate].
        inversion H; subst. apply parse_string_length in Hstr. cbn [length]. lia. }
    destruct (Ascii.eqb c "t") eqn:Ht.
    { apply (Hleaf _ H).
      - intro f''. cbn [parse_value]. now rewrite Hs, Hobj, Harr, Hq, Ht.
      - destruct (expect "true" (c :: r)) as [rest'|] eqn:Hex; [|discriminate].
        inversion H; subst. apply expect_length in Hex. cbn in *. lia. }
    destruct (Ascii.eqb c "f") eqn:Hf.
    { apply (Hleaf _ H).
      - intro f''. cbn [parse_value]. now rewrite Hs, Hobj, Harr, Hq, Ht, Hf.
      - destruct (expect "false" (c :: r)) as [rest'|] eqn:Hex; [|discriminate].
        inversion H; subst. apply expect_length in Hex. cbn in *. lia. }
    destruct (Ascii.eqb c "n") eqn:Hn.
    { apply (Hleaf _ H).
      - intro f''. cbn [parse_value]. now rewrite Hs, Hobj, Harr, Hq, Ht, Hf, Hn.
      - destruct (expect "null" (c :: r)) as [rest'|] eqn:Hex; [|discriminate].
        inversion H; subst. apply expect_length in Hex. cbn in *. lia. }
    apply (Hleaf _ H).
    + intro f''. cbn [parse_value]. now rewrite Hs, Hobj, Harr, Hq, Ht, Hf, Hn.
    + destruct (parse_number (c :: r)) as [[q rest']|] eqn:Hnum; [|discriminate].
      inversion H; subst. now apply parse_number_length in Hnum.
  - (* the elements of an array *)
    intros s vs rest H. cbn [parse_elements] in H.
    destruct (parse_value f s) as [[v r]|] eqn:Hv; [|discriminate].
    apply IHv in Hv. destruct Hv as [Hlen Hfuel].
    pose proof (skip_ws_length r) as Hws.
    destruct (skip_ws r) as [|c r'] eqn:Hr; [discriminate|]. cbn [length] in Hws.
    destruct (Ascii.eqb c ",") eqn:Hcomma.
    + destruct (parse_elements f r') as [[vs' rest']|] eqn:He; [|discriminate].
      inversion H; subst. apply IHe in He. destruct He as [Hlen' Hfuel'].
      split; [lia|].
      intros f' Hf'. destruct f' as [|f'']; [lia|].
      cbn [parse_elements]. rewrite Hfuel by lia. rewrite Hr, Hcomma.
      rewrite Hfuel' by lia. reflexivity.
    + destruct (Ascii.eqb c "]") eqn:Hclose; [|discriminate].
      inversion H; subst. split; [lia|].
      intros f' Hf'. destruct f' as [|f'']; [lia|].
      cbn [parse_elements]. rewrite Hfuel by lia. now rewrite Hr, Hcomma, Hclose.
  - (* the members of an object *)
    intros acc s fields rest H. cbn [parse_members] in H.
    pose proof (skip_ws_length s) as Hws.
    destruct (skip_ws s) as [|c r] eqn:Hs; [discriminate|]. cbn [length] in Hws.
    destruct (Ascii.eqb c quote) eqn:Hq; [|discriminate].
    destruct (parse_string r) as [[key r1]|] eqn:Hkey; [|discriminate].
    pose proof (parse_string_length _ _ _ Hkey) as Hklen.
    pose proof (skip_ws_length r1) as Hws1.
    destruct (skip_ws r1) as [|c1 r2] eqn:Hr1; [discriminate|]. cbn [length] in Hws1.
    destruct (Ascii.eqb c1 ":") eqn:Hcolon; [|discriminate].
    destruct (parse_value f r2) as [[v r3]|] eqn:Hv; [|discriminate].
    apply IHv in Hv. destruct Hv as [Hlen Hfuel].
    pose proof (skip_ws_length r3) as Hws3.
    destruct (skip_ws r3) as [|c3 r4] eqn:Hr3; [discriminate|]. cbn [length] in Hws3.
    destruct (Ascii.eqb c3 ",") eqn:Hcomma.
    + apply IHm in H. destruct H as [Hlen' Hfuel'].
      split; [lia|].
      intros f' Hf'. destruct f' as [|f'']; [lia|].
      cbn [parse_members]. rewrite Hs, Hq, Hkey, Hr1, Hcolon.
      rewrite Hfuel by lia. rewrite Hr3, Hcomma.
      apply Hfuel'. lia.
    + destruct (Ascii.eqb c3 "}") eqn:Hclose; [|discriminate].
      inversion H; subst. split; [lia|].
      intros f' Hf'. destruct f' as [|f'']; [lia|].
      cbn [parse_members]. rewrite Hs, Hq, Hkey, Hr1, Hcolon.
      rewrite Hfuel by lia. now rewrite Hr3, Hcomma, Hclose.
Qed.

(** The answer of the reader does not depend on the fuel: whatever some
    amount of fuel yields, the fuel of [JSON_parse] yields. *)
Lemma parse_value_fuel (f : nat) (s : list ascii) v rest :
  parse_value f s = Some (v, rest) ->
  parse_value (2 * length s + 2) s = Some (v, rest).
Proof.
  intro H. destruct (readers_fuel f) as (Hv & _ & _).
  apply Hv in H. destruct H as [_ Hfuel]. apply Hfuel. lia.
Qed.

Lemma JSON_parse_any_fuel (text : string) (v : json) :
  JSON_parse text = Some v <->
  exists f rest,
    parse_value f (JsString.chars text) = Some (v, rest) /\ skip_ws rest = [].
Proof.
  unfold JSON_parse. split.
  - destruct (parse_value _ _) as [[v' rest]|] eqn:Hp; [|discriminate].
    destruct (skip_ws rest) eqn:Hrest; [|discriminate].
    intro H. inversion H; subst. eauto.
  - intros (f & rest & Hp & Hrest).
    rewrite (parse_value_fuel _ _ _ _ Hp), Hrest. reflexivity.
Qed.

End JsonFuel.

(** ** The retry controller *)

Section Retry.

Import Js GeminiService RetrySpec Samples.
Local Open Scope list_scope.

Lemma retryOperation_step {T} (op : M T) r d w :
  retryOperation op r d w =
  match op w with
  | (Returned v, w1) => (Returned v, w1)
  | (Thrown e, w1) =>
      if 0 <? r then
        retryOperation op (r - 1) (d * 2)
          (w1 ++ [ConsoleWarn (retry_warning r); SetTimeout d])%list
      else (Thrown e, w1)
  end.
Proof.
  simp retryOperation.
  destruct (op w) as [[v|e] w1]; simpl.
  - reflexivity.
  - destruct (0 <? r); reflexivity.
Qed.

Lemma schedule_app w1 w2 : schedule (w1 ++ w2) = schedule w1 ++ schedule w2.
Proof. apply filter_app. Qed.

Lemma spy_run {T} (op : M T) w : spy op w = op (w ++ [Invoked]).
Proof. reflexivity. Qed.


Lemma invocations_schedule w : invocations w = invocations (schedule w).
Proof.
  unfold invocations, count, schedule.
  induction w as [|e w IH]; [reflexivity|].
  destruct e; simpl; auto.
Qed.

Lemma delays_schedule w : delays w = delays (schedule w).
Proof.
  unfold delays, schedule.
  induction w as [|e w IH]; [reflexivity|].
  destruct e; simpl; auto. now rewrite IH.
Qed.

Lemma invocations_app w1 w2 : invocations (w1 ++ w2) = (invocations w1 + invocations w2)%nat.
Proof. unfold invocations, count. now rewrite filter_app, length_app. Qed.

Lemma delays_app w1 w2 : delays (w1 ++ w2) = delays w1 ++ delays w2.
Proof. apply flat_map_app. Qed.

Lemma invocations_attempts n d : invocations (attempts n d) = S n.
Proof.
  revert d. induction n as [|n IH]; intro d; [reflexivity|].
  change (invocations (attempts (S n) d)) with (S (invocations (attempts n (d * 2)))).
  now rewrite IH.
Qed.

Lemma delays_attempts n d :
  delays (attempts n d) = map (fun k => d * 2 ^ Z.of_nat k) (seq 0 n).
Proof.
  revert d. induction n as [|n IH]; intro d; [reflexivity|].
  change (delays (attempts (S n) d)) with (d :: delays (attempts n (d * 2))).
  rewrite IH. cbn [seq map]. f_equal.
  - change (Z.of_nat 0) with 0. rewrite Z.pow_0_r. lia.
  - rewrite <- seq_shift, map_map. apply map_ext. intro k.
    rewrite Nat2Z.inj_succ, Z.pow_succ_r by lia. lia.
Qed.

(** With a spy on a failing operation, the trace of invocations and timers
    grows by [attempts]. *)
Lemma retry_schedule {T} (op : M T) :
  always_fails op -> quiet op ->
  forall n retries delay w,
    retries = Z.of_nat n ->
    (exists e, fst (retryOperation (spy op) retries delay w) = Thrown e) /\
    schedule (snd (retryOperation (spy op) retries delay w))
    = schedule w ++ attempts n delay.
Proof.
  intros Hfail Hquiet n.
  induction n as [|n IH]; intros retries delay w Hr;
    rewrite retryOperation_step, spy_run;
    destruct (Hfail (w ++ [Invoked])) as (e & w1 & Hop);
    pose proof (Hquiet (w ++ [Invoked])) as Hq;
    rewrite Hop in *; cbn [snd] in Hq; rewrite schedule_app in Hq.
  - subst retries. cbn [Z.of_nat Z.ltb Z.compare fst snd].
    split; [now exists e|]. exact Hq.
  - assert (Hpos : (0 <? retries) = true) by (apply Z.ltb_lt; lia).
    rewrite Hpos.
    destruct (IH (retries - 1) (delay * 2)
                (w1 ++ [ConsoleWarn (retry_warning retries); SetTimeout delay]))
      as [He Hs]; [lia|].
    split; [exact He|].
    rewrite Hs, schedule_app, Hq. cbn [attempts].
    rewrite <- !app_assoc. reflexivity.
Qed.

(** C4. An operation that fails on every attempt is invoked exactly
    [1 + retries] times before the failure is propagated (three times with
    the default budget of 2), a timer is set before each retry, and the
    delays are [delay], [2 * delay], [4 * delay] and so on: the wait before
    retry number [k + 1] is [delay * 2 ^ k]. *)
Theorem retryOperation_attempts_and_backoff {T} (operation : M T)
  (retries delay : Z) (w : World) :
  0 <= retries ->
  always_fails operation ->
  quiet operation ->
  (exists e, fst (retryOperation (spy operation) retries delay w) = Thrown e) /\
  schedule (snd (retryOperation (spy operation) retries delay w))
    = schedule w ++ attempts (Z.to_nat retries) delay /\
  invocations (snd (retryOperation (spy operation) retries delay w))
    = (invocations w + (1 + Z.to_nat retries))%nat /\
  delays (snd (retryOperation (spy operation) retries delay w))
    = delays w ++ map (fun k => delay * 2 ^ Z.of_nat k) (seq 0 (Z.to_nat retries)).
Proof.
  intros Hr Hfail Hquiet.
  destruct (retry_schedule operation Hfail Hquiet (Z.to_nat retries) retries delay w)
    as [He Hs]; [lia|].
  split; [exact He|]. split; [exact Hs|]. split.
  - rewrite invocations_schedule, Hs, invocations_app, invocations_attempts.
    now rewrite <- invocations_schedule.
  - rewrite delays_schedule, Hs, delays_app, delays_attempts.
    now rewrite <- delays_schedule.
Qed.

(** C4 at the default budget, on an operation that always rejects: three
    invocations, waits of 1000 and 2000. *)
Lemma retryOperation_attempts_and_backoff_default :
  (exists e, fst (retryOperation (spy (@throw unit (error "unavailable"))) 2 1000 [])
             = Thrown e) /\
  schedule (snd (retryOperation (spy (@throw unit (error "unavailable"))) 2 1000 []))
    = schedule [] ++ attempts (Z.to_nat 2) 1000 /\
  invocations (snd (retryOperation (spy (@throw unit (error "unavailable"))) 2 1000 []))
    = (invocations [] + (1 + Z.to_nat 2))%nat /\
  delays (snd (retryOperation (spy (@throw unit (error "unavailable"))) 2 1000 []))
    = delays [] ++ map (fun k => 1000 * 2 ^ Z.of_nat k) (seq 0 (Z.to_nat 2)).
Proof.
  apply (retryOperation_attempts_and_backoff (@throw unit (error "unavailable")) 2 1000 []).
  - lia.
  - intro w. exists (error "unavailable"), w. reflexivity.
  - intro w. reflexivity.
Defined.

Lemma retry_last_attempt {T} (op : M T) :
  always_fails op ->
  forall n retries delay w,
    retries = Z.of_nat n ->
    retryOperation op retries delay w = op (attempt_world op retries delay n w).
Proof.
  intros Hfail n.
  induction n as [|n IH]; intros retries delay w Hr;
    rewrite retryOperation_step.
  - subst retries. cbn [attempt_world].
    destruct (Hfail w) as (e & w1 & Hop). rewrite Hop. reflexivity.
  - cbn [attempt_world].
    destruct (Hfail w) as (e & w1 & Hop). rewrite Hop. cbn [snd].
    assert (Hpos : (0 <? retries) = true) by (apply Z.ltb_lt; lia).
    rewrite Hpos. apply IH. lia.
Qed.

Lemma operation_without_credential env resume data jdFile model provider ctx w :
  JsString.truthy_opt (credential env provider) = false ->
  operation env resume data jdFile model provider ctx w
  = (Thrown (missing_credential provider), w).
Proof.
  intro Hkey. destruct provider; cbn [operation credential missing_credential] in *.
  - unfold gemini_operation. rewrite Hkey. reflexivity.
  - unfold openai_operation. rewrite Hkey. reflexivity.
Qed.

(** C7. The controller does not look at the failure: whatever each attempt
    throws, an operation that keeps failing is run again until the budget
    is used up, and the outcome of the call is the outcome of the last
    attempt itself, the thrown value included.  A missing credential is
    such a failure: the check sits inside the wrapped operation, so it is
    made on each of the three attempts of [screenResume], with the two
    waits in between, and its own error comes out. *)
Theorem retryOperation_propagates_last_failure {T} (op : M T)
  (retries delay : Z) (w : World)
  (env : Env) (resume : Types.FileInput) (data : string)
  (jobDescriptionFile : option Types.FileInput) (modelName : string)
  (provider : Types.AiProvider) (jdContext : string) (w0 : World) :
  0 <= retries ->
  always_fails op ->
  JsString.truthy_opt (credential env provider) = false ->
  retryOperation op retries delay w
    = op (attempt_world op retries delay (Z.to_nat retries) w) /\
  retryOperation
    (operation env resume data jobDescriptionFile modelName provider jdContext)
    2 1000 w0
    = (Thrown (missing_credential provider),
       w0 ++ [ConsoleWarn (retry_warning 2); SetTimeout 1000;
              ConsoleWarn (retry_warning 1); SetTimeout 2000]).
Proof.
  intros Hr Hfail Hkey. split.
  - apply retry_last_attempt; [exact Hfail | lia].
  - rewrite retryOperation_step, operation_without_credential by exact Hkey.
    cbn [Z.ltb Z.compare].
    rewrite retryOperation_step, operation_without_credential by exact Hkey.
    cbn [Z.ltb Z.compare Z.sub Z.add Z.opp Z.pos_sub Z.mul Pos.mul Pos.add
         Z.succ_double Z.pred_double Z.double Pos.pred_double].
    rewrite retryOperation_step, operation_without_credential by exact Hkey.
    cbn [Z.ltb Z.compare Z.sub Z.add Z.opp Z.pos_sub].
    rewrite <- app_assoc. reflexivity.
Qed.

(** C7 on an operation that times out, under a budget of 1, and on the
    Gemini adapter without its key. *)
Lemma retryOperation_propagates_last_failure_example :
  retryOperation (@throw unit (error "timeout")) 1 500 []
    = @throw unit (error "timeout")
        (attempt_world (@throw unit (error "timeout")) 1 500 (Z.to_nat 1) []) /\
  retryOperation
    (operation no_keys text_resume "SGVsbG8=" None "gemini-2.5-flash" Types.gemini "JD")
    2 1000 []
    = (Thrown (missing_credential Types.gemini),
       [] ++ [ConsoleWarn (retry_warning 2); SetTimeout 1000;
              ConsoleWarn (retry_warning 1); SetTimeout 2000]).
Proof.
  apply (retryOperation_propagates_last_failure (@throw unit (error "timeout")) 1 500 []
           no_keys text_resume "SGVsbG8=" None "gemini-2.5-flash" Types.gemini "JD" []).
  - lia.
  - intro w. exists (error "timeout"), w. reflexivity.
  - reflexivity.
Defined.

End Retry.

(** ** The provider adapters *)

Section Screening.

Import Js Types Json GeminiService RetrySpec ScreeningSpec Samples.
Local Open Scope list_scope.

Lemma retry_success_is_attempt {T} (op : M T) :
  forall n retries delay w v w',
    retries = Z.of_nat n ->
    retryOperation op retries delay w = (Returned v, w') ->
    exists w0, op w0 = (Returned v, w').
Proof.
  induction n as [|n IH]; intros retries delay w v w' Hr H;
    rewrite retryOperation_step in H; destruct (op w) as [[a|e] w1] eqn:Hop.
  - exists w. now rewrite Hop.
  - subst retries. cbn [Z.of_nat Z.ltb Z.compare] in H. discriminate.
  - exists w. now rewrite Hop.
  - assert (Hpos : (0 <? retries) = true) by (apply Z.ltb_lt; lia).
    rewrite Hpos in H. apply IH in H; [exact H | lia].
Qed.

Lemma JSON_parse_nonempty text j :
  Json.JSON_parse text = Some j -> JsString.truthy text = true.
Proof. destruct text; [discriminate | reflexivity]. Qed.

Lemma parse_response_returns msg text w j w' :
  parse_response msg text w = (Returned j, w') ->
  w' = w /\ exists t, text = Some t /\ Json.JSON_parse t = Some j.
Proof.
  unfold parse_response. destruct text as [t|]; [|discriminate].
  destruct (JsString.truthy t); [|discriminate].
  unfold Js.JSON_parse. destruct (Json.JSON_parse t) as [v|] eqn:Hp; [|discriminate].
  unfold ret. intro H. inversion H; subst. split; [reflexivity|]. now exists t.
Qed.

Lemma parse_response_accepts msg t j w :
  Json.JSON_parse t = Some j ->
  parse_response msg (Some t) w = (Returned j, w).
Proof.
  intro Hp. unfold parse_response. rewrite (JSON_parse_nonempty _ _ Hp).
  unfold Js.JSON_parse. rewrite Hp. reflexivity.
Qed.

Lemma reply_of_last_gemini env w req :
  reply_of_last_call env (w ++ [GeminiCall req])
  = Some (generateContent env (count is_gemini_call w) req).
Proof. unfold reply_of_last_call. now rewrite rev_unit, rev_involutive. Qed.

Lemma reply_of_last_openai env w req :
  reply_of_last_call env (w ++ [OpenAICall req])
  = Some (chat_completions_create env (count is_openai_call w) req).
Proof. unfold reply_of_last_call. now rewrite rev_unit, rev_involutive. Qed.

Lemma gemini_operation_returns env resume data jdFile model ctx w j w' :
  gemini_operation env resume data jdFile model ctx w = (Returned j, w') ->
  exists text,
    reply_of_last_call env w' = Some (Replied (Some text)) /\
    Json.JSON_parse text = Some j.
Proof.
  unfold gemini_operation.
  destruct (negb (JsString.truthy_opt (API_KEY env))); [discriminate|].
  unfold bind at 1. destruct (resume_part env resume data w) as [[p|e] w1]; [|discriminate].
  unfold bind, ai_models_generateContent.
  destruct (generateContent env _ _) as [e|text] eqn:Hreply; cbv beta iota;
    [discriminate|].
  intro H. apply parse_response_returns in H. destruct H as (-> & t & -> & Hp).
  exists t. split; [|exact Hp]. rewrite reply_of_last_gemini. now rewrite Hreply.
Qed.

Lemma openai_operation_returns env resume data model ctx w j w' :
  openai_operation env resume data model ctx w = (Returned j, w') ->
  exists text,
    reply_of_last_call env w' = Some (Replied (Some text)) /\
    Json.JSON_parse text = Some j.
Proof.
  unfold openai_operation.
  destruct (negb (JsString.truthy_opt (OPENAI_API_KEY env))); [discriminate|].
  unfold bind at 1.
  destruct (openai_text_extraction env resume data w) as [[txt|e] w1]; [|discriminate].
  destruct (negb (JsString.truthy (JsString.trim txt))); [discriminate|].
  unfold bind, openai_chat_completions_create.
  destruct (chat_completions_create env _ _) as [e|text] eqn:Hreply; cbv beta iota;
    [discriminate|].
  intro H. apply parse_response_returns in H. destruct H as (-> & t & -> & Hp).
  exists t. split; [|exact Hp]. rewrite reply_of_last_openai. now rewrite Hreply.
Qed.

(** Outside the demonstration path, a result of [screenResume] is the
    parse of the provider's last answer. *)
Lemma screenResume_returns_reply env resume jdText jdFile model provider w j w' :
  is_demo resume = false ->
  screenResume env resume jdText jdFile model provider w = (Returned j, w') ->
  exists text,
    reply_of_last_call env w' = Some (Replied (Some text)) /\
    Json.JSON_parse text = Some j.
Proof.
  intros Hdemo. unfold screenResume. rewrite Hdemo.
  destruct (base64 resume) as [data|]; [|discriminate].
  destruct (JsString.truthy data); [|discriminate].
  unfold bind.
  destruct (prepare_jd_context env jdText jdFile provider w) as [[ctx|e] w1]; [|discriminate].
  intro H.
  apply (retry_success_is_attempt _ 2%nat) in H; [|reflexivity].
  destruct H as (w0 & H). destruct provider; cbn [operation] in H.
  - eapply gemini_operation_returns; eassumption.
  - eapply openai_operation_returns; eassumption.
Qed.

Lemma parse_response_throws msg text w e w' :
  parse_response msg text w = (Thrown e, w') ->
  (e = error msg /\ JsString.truthy_opt text = false) \/
  (name e = SyntaxError /\ exists t, text = Some t /\ Json.JSON_parse t = None).
Proof.
  unfold parse_response. destruct text as [t|]; cbn [JsString.truthy_opt].
  - destruct (JsString.truthy t).
    + unfold Js.JSON_parse. destruct (Json.JSON_parse t) eqn:Hp; [discriminate|].
      unfold throw. intro H. inversion H; subst. right. split; [reflexivity|].
      now exists t.
    + unfold throw. intro H. inversion H; subst. now left.
  - unfold throw. intro H. inversion H; subst. now left.
Qed.

(** C1, as the code has it.  Outside the demonstration path a result of
    [screenResume] is the value that [JSON.parse] makes of the provider's
    last answer, as it is: the parsing step of either provider returns every
    text that is valid JSON, whatever its [recommendation] holds, and fails
    only with the empty-response error when the text is absent or empty and
    with the [SyntaxError] of [JSON.parse] when the text is not JSON. *)
Theorem parsing_step_returns_any_json env resume jdText jdFile model provider w j w' :
  is_demo resume = false ->
  screenResume env resume jdText jdFile model provider w = (Returned j, w') ->
  (exists text,
      reply_of_last_call env w' = Some (Replied (Some text)) /\
      Json.JSON_parse text = Some j) /\
  (forall msg text v w0,
      Json.JSON_parse text = Some v ->
      parse_response msg (Some text) w0 = (Returned v, w0)) /\
  (forall msg text w0 e w1,
      parse_response msg text w0 = (Thrown e, w1) ->
      (e = error msg /\ JsString.truthy_opt text = false) \/
      (name e = SyntaxError /\ exists t, text = Some t /\ Json.JSON_parse t = None)).
Proof.
  intros Hdemo Hrun. split; [|split].
  - eapply screenResume_returns_reply; eassumption.
  - intros msg text v w0. apply parse_response_accepts.
  - intros msg text w0 e w1. apply parse_response_throws.
Qed.

(** C1 fails on the code: a response whose recommendation is Maybe comes
    back as the result, from Gemini and from OpenAI alike. *)
Lemma recommendation_outside_enumeration_returned :
  fst (screenResume (answering maybe_response) text_resume "Go developer" None
         "gemini-2.5-flash" gemini []) = Returned maybe_result /\
  fst (screenResume (answering maybe_response) text_resume "Go developer" None
         "gpt-4o" openai []) = Returned maybe_result /\
  get "recommendation" maybe_result = Some (JStr "Maybe") /\
  recommendation_in_enum maybe_result = false.
Proof. repeat split; vm_compute; reflexivity. Qed.

(** C1, as the code has it, on that response in OpenAI mode. *)
Lemma parsing_step_returns_any_json_example :
  (exists text,
      reply_of_last_call (answering maybe_response)
        (snd (screenResume (answering maybe_response) text_resume "Go developer" None
                "gpt-4o" openai [])) = Some (Replied (Some text)) /\
      Json.JSON_parse text = Some maybe_result) /\
  (forall msg text v w0,
      Json.JSON_parse text = Some v ->
      parse_response msg (Some text) w0 = (Returned v, w0)) /\
  (forall msg text w0 e w1,
      parse_response msg text w0 = (Thrown e, w1) ->
      (e = error msg /\ JsString.truthy_opt text = false) \/
      (name e = SyntaxError /\ exists t, text = Some t /\ Json.JSON_parse t = None)).
Proof.
  apply (parsing_step_returns_any_json (answering maybe_response) text_resume
           "Go developer" None "gpt-4o" openai []).
  - reflexivity.
  - vm_compute. reflexivity.
Defined.

Lemma generateMockResult_scores env fileName w j w' :
  generateMockResult env fileName w = (Returned j, w') ->
  scores_in_range j = true /\
  exists n, 60 <= n <= 99 /\ get "overallMatchScore" j = Some (jnum n).
Proof.
  unfold generateMockResult, bind, Math_floor_random_times, Math_random_value, ret.
  cbv beta zeta.
  destruct (floor_random_times_40 (Math_random env (count is_random_draw w) mod 2 ^ 53))
    as (n & Hn & Hfloor).
  { apply Z.mod_pos_bound. lia. }
  rewrite Hfloor.
  change (Double.Finite 60) with (Double.Finite (inject_Z 60)).
  rewrite (add_integers n 60) by lia.
  intro H. injection H as Hj Hw. subst j. clear Hw.
  split.
  - unfold scores_in_range. cbn.
    apply andb_true_iff. split; [apply andb_true_iff; split|reflexivity].
    + apply Z.leb_le. lia.
    + apply Z.leb_le. lia.
  - exists (n + 60). split; [lia | reflexivity].
Qed.

(** C2, as the code has it.  A result of the demonstration path has an
    integer [overallMatchScore] between 60 and 99 and skill scores of 85,
    75 and 60.  Any other result is what [JSON.parse] makes of the text of
    the provider's answer: each score is the Number nearest to the numeral
    of the response, with no clamp, no rounding to an integer and no check
    of its range. *)
Theorem scores_are_those_of_the_response env resume jdText jdFile model provider w j w' :
  screenResume env resume jdText jdFile model provider w = (Returned j, w') ->
  if is_demo resume
  then scores_in_range j = true /\
       exists n, 60 <= n <= 99 /\ get "overallMatchScore" j = Some (jnum n)
  else exists text,
         reply_of_last_call env w' = Some (Replied (Some text)) /\
         Json.JSON_parse text = Some j.
Proof.
  intro Hrun. destruct (is_demo resume) eqn:Hdemo.
  - unfold screenResume in Hrun. rewrite Hdemo in Hrun.
    unfold bind at 1, sleep, emit in Hrun.
    eapply generateMockResult_scores. exact Hrun.
  - eapply screenResume_returns_reply; eassumption.
Qed.

(** C2 fails on the code: a response with an overall score of 150 and a
    skill score of -5 comes back as the result. *)
Lemma scores_outside_range_returned :
  fst (screenResume (answering maybe_response) text_resume "Go developer" None
         "gemini-2.5-flash" gemini []) = Returned maybe_result /\
  get "overallMatchScore" maybe_result = Some (jnum 150) /\
  get "skillsAnalysis" maybe_result
    = Some (JArr [JObj [("skill", JStr "Go"); ("score", jnum (-5));
                        ("reasoning", JStr "r"); ("evidence", JStr "e")]]) /\
  scores_in_range maybe_result = false.
Proof. repeat split; vm_compute; reflexivity. Qed.

(** C2, as the code has it, on a placeholder of the demonstration
    path. *)
Lemma scores_are_those_of_the_response_example :
  if is_demo demo_resume
  then scores_in_range demo_result = true /\
       exists n, 60 <= n <= 99 /\ get "overallMatchScore" demo_result = Some (jnum n)
  else exists text,
         reply_of_last_call no_keys [SetTimeout 1500; RandomDraw]
           = Some (Replied (Some text)) /\
         Json.JSON_parse text = Some demo_result.
Proof.
  apply (scores_are_those_of_the_response no_keys demo_resume "" None
           "gemini-2.5-flash" gemini []).
  vm_compute. reflexivity.
Defined.

(** The Numbers of a response are the doubles nearest to its numerals: a
    score written with more digits than a double holds is read as the
    nearest one, and one beyond the largest double as the infinity. *)
Lemma JSON_parse_nearest_double :
  Json.JSON_parse "100.00000000000000001" = Some (jnum 100) /\
  Json.JSON_parse "99.5" = Some (JNum (Double.Finite (199 # 2))) /\
  Json.JSON_parse "9007199254740993" = Some (jnum 9007199254740992) /\
  Json.JSON_parse "1e400" = Some (JNum (Double.Infinity false)) /\
  Json.JSON_parse "-1e-400" = Some (JNum Double.NegZero).
Proof. repeat split; vm_compute; reflexivity. Qed.

Lemma parse_response_world msg text w : snd (parse_response msg text w) = w.
Proof.
  unfold parse_response. destruct text as [t|]; [|reflexivity].
  destruct (JsString.truthy t); [|reflexivity].
  unfold Js.JSON_parse. now destruct (Json.JSON_parse t).
Qed.

Lemma resume_part_inline env resume data w :
  String.eqb (mimeType resume) DOCX = false ->
  resume_part env resume data w = (Returned (InlineData (mimeType resume) (Some data)), w).
Proof. intro H. unfold resume_part. now rewrite H. Qed.

Lemma gemini_operation_inline env resume data jdFile model ctx w :
  String.eqb (mimeType resume) DOCX = false ->
  JsString.truthy_opt (API_KEY env) = true ->
  gemini_operation env resume data jdFile model ctx w
  = bind (ai_models_generateContent env (inline_request resume data jdFile model ctx))
      (parse_response "Empty response from Gemini") w.
Proof.
  intros Hmime Hkey. unfold gemini_operation. rewrite Hkey. cbn [negb].
  unfold bind at 1. rewrite resume_part_inline by exact Hmime. reflexivity.
Qed.

Lemma gemini_operation_inline_world env resume data jdFile model ctx w :
  String.eqb (mimeType resume) DOCX = false ->
  JsString.truthy_opt (API_KEY env) = true ->
  snd (gemini_operation env resume data jdFile model ctx w)
  = w ++ [GeminiCall (inline_request resume data jdFile model ctx)].
Proof.
  intros Hmime Hkey. rewrite gemini_operation_inline by assumption.
  unfold bind, ai_models_generateContent.
  destruct (generateContent env _ _); cbv beta iota; [reflexivity|].
  apply parse_response_world.
Qed.

Lemma openai_pdf_resume_fails env resume data model ctx w :
  mimeType resume = PDF ->
  JsString.truthy_opt (OPENAI_API_KEY env) = true ->
  openai_operation env resume data model ctx w = (Thrown pdf_limitation, w).
Proof.
  intros Hmime Hkey. unfold openai_operation. rewrite Hkey. cbn [negb].
  unfold bind at 1, openai_text_extraction. rewrite Hmime.
  change (String.eqb PDF PDF) with true. reflexivity.
Qed.

Lemma retry_constant_failure {T} (op : M T) e w :
  (forall w0, op w0 = (Thrown e, w0)) ->
  retryOperation op 2 1000 w = (Thrown e, exhausted w).
Proof.
  intro Hop. unfold exhausted.
  rewrite retryOperation_step, Hop. cbn [Z.ltb Z.compare].
  rewrite retryOperation_step, Hop.
  cbn [Z.ltb Z.compare Z.sub Z.add Z.opp Z.pos_sub Z.mul Pos.mul Pos.add
       Z.succ_double Z.pred_double Z.double Pos.pred_double].
  rewrite retryOperation_step, Hop.
  cbn [Z.ltb Z.compare Z.sub Z.add Z.opp Z.pos_sub].
  rewrite <- app_assoc. reflexivity.
Qed.

Lemma gemini_call_world env req msg w :
  snd (bind (ai_models_generateContent env req) (parse_response msg) w)
  = w ++ [GeminiCall req].
Proof.
  unfold bind, ai_models_generateContent.
  destruct (generateContent env _ _); cbv beta iota; [reflexivity|].
  apply parse_response_world.
Qed.

Lemma openai_call_world env req msg w :
  snd (bind (openai_chat_completions_create env req) (parse_response msg) w)
  = w ++ [OpenAICall req].
Proof.
  unfold bind, openai_chat_completions_create.
  destruct (chat_completions_create env _ _); cbv beta iota; [reflexivity|].
  apply parse_response_world.
Qed.

(** C5, as the code has it.  With a PDF job description, the context of
    the Gemini adapter points to the attachment and its request carries the
    document inline, after the resume part, whatever the resume; the context
    of the OpenAI adapter holds a placeholder that names the limitation, a
    warning is logged, the preparation returns, and a resume in text form is
    then sent under that context.  A PDF resume reaches Gemini inline as the
    first part of the request; in OpenAI mode it is refused by design: each
    of the three attempts throws the error that tells the user to use
    Gemini, and [screenResume] fails with it. *)
Theorem pdf_documents_by_provider (env : Env) (resume jd : FileInput)
  (data jdData modelName : string) (w : World) :
  mimeType jd = PDF ->
  base64 jd = Some jdData ->
  JsString.truthy jdData = true ->
  mimeType resume = PDF ->
  base64 resume = Some data ->
  JsString.truthy data = true ->
  is_demo resume = false ->
  JsString.truthy_opt (API_KEY env) = true ->
  JsString.truthy_opt (OPENAI_API_KEY env) = true ->
  (forall jobDescriptionText,
      prepare_jd_context env jobDescriptionText (Some jd) gemini w
      = (Returned (jd_heading ++ "(See attached Job Description document)")%string, w)) /\
  (forall anyResume anyData part w1 jdContext,
      resume_part env anyResume anyData w = (Returned part, w1) ->
      snd (gemini_operation env anyResume anyData (Some jd) modelName jdContext w)
      = w1 ++ [GeminiCall
                 (mkGeminiRequest modelName
                    [part; InlineData PDF (Some jdData);
                     TextPart (getCommonPrompt jdContext)])]) /\
  (forall jobDescriptionText,
      prepare_jd_context env jobDescriptionText (Some jd) openai w
      = (Returned (jd_heading ++ pdf_placeholder)%string, w ++ [pdf_jd_warning])) /\
  (forall anyResume anyData text,
      String.eqb (mimeType anyResume) PDF = false ->
      String.eqb (mimeType anyResume) DOCX = false ->
      Base64.atob anyData = Some text ->
      JsString.truthy (JsString.trim text) = true ->
      snd (openai_operation env anyResume anyData modelName
             (jd_heading ++ pdf_placeholder)%string w)
      = w ++ [OpenAICall
                (mkChatRequest modelName
                   (getCommonPrompt (jd_heading ++ pdf_placeholder)
                      ++ nl ++ nl ++ jsonStructurePrompt)%string
                   ("Here is the resume content:" ++ nl ++ nl ++ text)%string)]) /\
  (forall anyJd jdContext,
      snd (gemini_operation env resume data anyJd modelName jdContext w)
      = w ++ [GeminiCall
                (mkGeminiRequest modelName
                   (InlineData PDF (Some data)
                      :: jd_part anyJd ++ [TextPart (getCommonPrompt jdContext)]))]) /\
  (forall jobDescriptionText anyJd jdContext w1,
      prepare_jd_context env jobDescriptionText anyJd openai w = (Returned jdContext, w1) ->
      screenResume env resume jobDescriptionText anyJd modelName openai w
      = (Thrown pdf_limitation, exhausted w1)).
Proof.
  intros Hjd Hjdd Hjdt Hres Hdata Hdt Hdemo Hg Ho.
  assert (Hctx : jd_file_content (Some jd) = Some (jd, jdData)).
  { unfold jd_file_content. now rewrite Hjdd, Hjdt. }
  repeat split.
  - intro jobDescriptionText. unfold prepare_jd_context. rewrite Hctx, Hjd.
    change (String.eqb PDF DOCX) with false. reflexivity.
  - intros anyResume anyData part w1 jdContext Hpart.
    unfold gemini_operation. rewrite Hg. cbn [negb].
    unfold bind at 1. rewrite Hpart.
    rewrite gemini_call_world. unfold jd_part. rewrite Hjd, Hjdd.
    change (String.eqb PDF PDF) with true. reflexivity.
  - intro jobDescriptionText. unfold prepare_jd_context. rewrite Hctx, Hjd.
    change (String.eqb PDF DOCX) with false. change (String.eqb PDF PDF) with true.
    reflexivity.
  - intros anyResume anyData text Hpdf Hdocx Hatob Htext.
    unfold openai_operation. rewrite Ho. cbn [negb].
    unfold bind at 1, openai_text_extraction. rewrite Hpdf, Hdocx.
    unfold atob. rewrite Hatob. unfold ret. rewrite Htext. cbn [negb].
    apply openai_call_world.
  - intros anyJd jdContext.
    rewrite gemini_operation_inline_world; [|rewrite Hres; reflexivity|exact Hg].
    unfold inline_request. now rewrite Hres.
  - intros jobDescriptionText anyJd jdContext w1 Hprep.
    unfold screenResume. rewrite Hdemo, Hdata, Hdt.
    unfold bind. rewrite Hprep.
    apply retry_constant_failure. intro w0. cbn [operation].
    now apply openai_pdf_resume_fails.
Qed.

(** C5 fails on the code: with a PDF resume in OpenAI mode the run
    fails. *)
Lemma openai_rejects_pdf_resume :
  fst (screenResume (answering good_response) pdf_resume "Go developer" None
         "gpt-4o" openai []) = Thrown pdf_limitation.
Proof. vm_compute. reflexivity. Qed.

(** C5, as the code has it, on a PDF resume with a PDF job description:
    what Gemini is sent, and how the run ends in OpenAI mode. *)
Lemma pdf_documents_by_provider_example :
  snd (gemini_operation (answering good_response) pdf_resume "JVBERi0xLjQ=" (Some pdf_jd)
         "gemini-2.5-flash" "JD" [])
    = [] ++ [GeminiCall
               (mkGeminiRequest "gemini-2.5-flash"
                  [InlineData PDF (Some "JVBERi0xLjQ="); InlineData PDF (Some "JVBERi0xLjQ=");
                   TextPart (getCommonPrompt "JD")])] /\
  screenResume (answering good_response) pdf_resume "" (Some pdf_jd) "gemini-2.5-flash"
    openai []
    = (Thrown pdf_limitation, exhausted ([] ++ [pdf_jd_warning])).
Proof.
  destruct (pdf_documents_by_provider (answering good_response) pdf_resume pdf_jd
              "JVBERi0xLjQ=" "JVBERi0xLjQ=" "gemini-2.5-flash" [])
    as (_ & Hgemini & Hopenai & _ & _ & Hfails); try reflexivity.
  split.
  - apply (Hgemini pdf_resume "JVBERi0xLjQ=" _ [] "JD"). reflexivity.
  - apply (Hfails "" (Some pdf_jd) _ _ (Hopenai "")).
Defined.

(** C9, as the code has it.  The declared media type is compared with the
    DOCX and PDF types only, never with a set of supported types.  For a
    resume of any other type than DOCX, an image included, the Gemini
    adapter builds its resume part without throwing, sends the content
    inline under the declared type and returns what the provider answers;
    the OpenAI adapter throws for a PDF, which is its one failure decided by
    the media type, and decodes the content of any other type as text. *)
Theorem media_type_is_not_checked (env : Env) (resume : FileInput)
  (data : string) (jobDescriptionFile : option FileInput)
  (modelName jdContext : string) (w : World) :
  String.eqb (mimeType resume) DOCX = false ->
  JsString.truthy_opt (API_KEY env) = true ->
  resume_part env resume data w
    = (Returned (InlineData (mimeType resume) (Some data)), w) /\
  (forall text j,
      generateContent env (count is_gemini_call w)
        (inline_request resume data jobDescriptionFile modelName jdContext)
        = Replied (Some text) ->
      Json.JSON_parse text = Some j ->
      gemini_operation env resume data jobDescriptionFile modelName jdContext w
        = (Returned j,
           w ++ [GeminiCall (inline_request resume data jobDescriptionFile modelName jdContext)])) /\
  (if String.eqb (mimeType resume) PDF
   then openai_text_extraction env resume data w = (Thrown pdf_limitation, w)
   else openai_text_extraction env resume data w = atob data w).
Proof.
  intros Hmime Hkey. split; [|split].
  - now apply resume_part_inline.
  - intros text j Hreply Hparse.
    rewrite gemini_operation_inline by assumption.
    unfold bind, ai_models_generateContent. rewrite Hreply. cbv beta iota.
    now apply parse_response_accepts.
  - unfold openai_text_extraction. rewrite Hmime.
    destruct (String.eqb (mimeType resume) PDF); reflexivity.
Qed.

(** C9 fails on the code: an image is screened like any other upload, and
    a PDF, which is in the supported set, makes the preparation of the
    OpenAI adapter throw. *)
Lemma image_accepted_and_pdf_refused :
  fst (screenResume (answering good_response) png_resume "Go developer" None
         "gemini-2.5-flash" gemini []) = Returned good_result /\
  fst (screenResume (answering good_response) png_resume "Go developer" None
         "gpt-4o" openai []) = Returned good_result /\
  fst (openai_text_extraction (answering good_response) pdf_resume "JVBERi0xLjQ=" [])
    = Thrown pdf_limitation.
Proof. repeat split; vm_compute; reflexivity. Qed.

(** C9, as the code has it, on an image. *)
Lemma media_type_is_not_checked_example :
  resume_part (answering good_response) png_resume "iVBORw0KGgo=" []
    = (Returned (InlineData (mimeType png_resume) (Some "iVBORw0KGgo=")), []) /\
  (forall text j,
      generateContent (answering good_response) (count is_gemini_call [])
        (inline_request png_resume "iVBORw0KGgo=" None "gemini-2.5-flash" "JD")
        = Replied (Some text) ->
      Json.JSON_parse text = Some j ->
      gemini_operation (answering good_response) png_resume "iVBORw0KGgo=" None
        "gemini-2.5-flash" "JD" []
        = (Returned j,
           [] ++ [GeminiCall (inline_request png_resume "iVBORw0KGgo=" None
                                "gemini-2.5-flash" "JD")])) /\
  (if String.eqb (mimeType png_resume) PDF
   then openai_text_extraction (answering good_response) png_resume "iVBORw0KGgo=" []
        = (Thrown pdf_limitation, [])
   else openai_text_extraction (answering good_response) png_resume "iVBORw0KGgo=" []
        = atob "iVBORw0KGgo=" []).
Proof.
  apply (media_type_is_not_checked (answering good_response) png_resume "iVBORw0KGgo=" None
           "gemini-2.5-flash" "JD" []); reflexivity.
Defined.

End Screening.

(** ** The batch run *)

Section Batch.

Import Js Types Json App BatchSpec Samples.
Local Open Scope list_scope.

Variable env : Env.

Lemma screening_loop_success st i item rest nr ff w analysis w1 :
  GeminiService.screenResume env item (jdText st) (jd_file_arg st) (selectedModel st)
    (provider st) w = (Returned analysis, w1) ->
  screening_loop env st i (item :: rest) nr ff w
  = screening_loop env st (S i) rest (nr ++ [analysis]) ff w1.
Proof.
  intro H. cbn [screening_loop]. unfold bind at 1, try_catch, bind at 1.
  rewrite H. reflexivity.
Qed.

Lemma screening_loop_failure st i item rest nr ff w e w1 :
  GeminiService.screenResume env item (jdText st) (jd_file_arg st) (selectedModel st)
    (provider st) w = (Thrown e, w1) ->
  screening_loop env st i (item :: rest) nr ff w
  = screening_loop env st (S i) rest nr (ff ++ [manifest_entry i item e])
      (w1 ++ [ConsoleError (message e)]).
Proof.
  intro H. cbn [screening_loop]. unfold bind at 1, try_catch, bind at 1.
  rewrite H. reflexivity.
Qed.

Lemma screening_loop_total st items :
  forall i nr ff w,
  exists results manifest w',
    screening_loop env st i items nr ff w
      = (Returned (nr ++ results, ff ++ manifest), w') /\
    (length results + length manifest = length items)%nat.
Proof.
  induction items as [|item rest IH]; intros i nr ff w.
  - exists [], [], w. rewrite !app_nil_r. split; reflexivity.
  - destruct (GeminiService.screenResume env item (jdText st) (jd_file_arg st)
                (selectedModel st) (provider st) w) as [[analysis|e] w1] eqn:Hrun.
    + rewrite (screening_loop_success _ _ _ _ _ _ _ _ _ Hrun).
      destruct (IH (S i) (nr ++ [analysis]) ff w1) as (rs & ms & w' & Hloop & Hlen).
      exists (analysis :: rs), ms, w'. rewrite Hloop, <- app_assoc.
      split; [reflexivity | cbn [length]; lia].
    + rewrite (screening_loop_failure _ _ _ _ _ _ _ _ _ Hrun).
      destruct (IH (S i) nr (ff ++ [manifest_entry i item e])
                  (w1 ++ [ConsoleError (message e)])) as (rs & ms & w' & Hloop & Hlen).
      exists rs, (manifest_entry i item e :: ms), w'. rewrite Hloop, <- app_assoc.
      split; [reflexivity | cbn [length]; lia].
Qed.

Lemma handleScreening_run st w :
  passes_preflight st = true ->
  handleScreening env st w
  = bind (screening_loop env (started st) 0 (resumes st) [] [])
      (fun batch => finalize (started st) (fst batch) (snd batch)) w.
Proof.
  unfold passes_preflight, handleScreening. intro H.
  apply andb_true_iff in H. destruct H as [Hn Hjd].
  apply negb_true_iff in Hn. rewrite Hn.
  destruct (jdMode st); rewrite Hjd; reflexivity.
Qed.

(** C3. A run that passes the checks before the loop goes through every
    item: the loop never throws, it only appends to the result list and to
    the failure manifest, and each item adds one entry to exactly one of
    them -- its analysis to the results when [screenResume] returns, its
    name and error message to the manifest when it throws, after which the
    loop goes on with the next item.  The two lengths add up to the number
    of items, from any index and any pair of lists, and so for the whole
    run. *)
Theorem batch_partitions_items (st : AppState) (w : World) :
  passes_preflight st = true ->
  (exists results manifest w1,
      screening_loop env (started st) 0 (resumes st) [] [] w
        = (Returned (results, manifest), w1) /\
      handleScreening env st w = finalize (started st) results manifest w1 /\
      (length results + length manifest = length (resumes st))%nat) /\
  (forall s i items nr ff w0,
      exists results manifest w',
        screening_loop env s i items nr ff w0
          = (Returned (nr ++ results, ff ++ manifest), w') /\
        (length results + length manifest = length items)%nat) /\
  (forall s i item rest nr ff w0 analysis w1,
      GeminiService.screenResume env item (jdText s) (jd_file_arg s) (selectedModel s)
        (provider s) w0 = (Returned analysis, w1) ->
      screening_loop env s i (item :: rest) nr ff w0
      = screening_loop env s (S i) rest (nr ++ [analysis]) ff w1) /\
  (forall s i item rest nr ff w0 e w1,
      GeminiService.screenResume env item (jdText s) (jd_file_arg s) (selectedModel s)
        (provider s) w0 = (Thrown e, w1) ->
      screening_loop env s i (item :: rest) nr ff w0
      = screening_loop env s (S i) rest nr (ff ++ [manifest_entry i item e])
          (w1 ++ [ConsoleError (message e)])).
Proof.
  intro Hpre. split; [|split; [|split]].
  - destruct (screening_loop_total (started st) (resumes st) 0%nat [] [] w)
      as (rs & ms & w1 & Hloop & Hlen).
    cbn [app] in Hloop. exists rs, ms, w1. split; [exact Hloop|]. split; [|exact Hlen].
    rewrite handleScreening_run by exact Hpre. unfold bind. rewrite Hloop. reflexivity.
  - intros s i items. apply screening_loop_total.
  - intros. now apply screening_loop_success.
  - intros. now apply screening_loop_failure.
Qed.

Lemma finalize_all_failed st manifest w :
  manifest <> [] ->
  finalize st [] manifest w
  = (Returned (setError (Some (all_failed_message manifest))
                 (setLoading false (setLoadingStatus "Finalizing reports..." st))), w).
Proof.
  intro H. destruct manifest as [|m ms]; [contradiction|]. reflexivity.
Qed.

Lemma finalize_some_results st results manifest w :
  results <> [] ->
  finalize st results manifest w
  = (Returned (setView CARD (setLoading false (setCurrentPage 1
                 (setResults results (setLoadingStatus "Finalizing reports..." st))))),
     (w ++ [SetTimeout 500]) ++ alerts manifest).
Proof.
  intro H. destruct results as [|r rs]; [contradiction|].
  unfold finalize. cbn [length Nat.eqb andb].
  destruct manifest as [|m ms]; cbn [length Nat.ltb Nat.leb alerts].
  - unfold bind, sleep, emit, ret. now rewrite app_nil_r.
  - reflexivity.
Qed.

(** C6. When the loop ends with no result and a manifest that is not
    empty, the run ends in one error whose message lists the manifest, one
    entry a line; the results on display, the view and the trace are left
    as they were.  When at least one item succeeded, the run ends without
    error: the results are the analyses of the items that succeeded, the
    card view opens, and the manifest, when it is not empty, is shown in one
    alert. *)
Theorem all_failed_or_partial (st : AppState) (w : World)
  (newResults : list json) (failedFiles : list string) (w1 : World) :
  passes_preflight st = true ->
  screening_loop env (started st) 0 (resumes st) [] [] w
    = (Returned (newResults, failedFiles), w1) ->
  (newResults = [] -> failedFiles <> [] ->
   exists st',
     handleScreening env st w = (Returned st', w1) /\
     error st' = Some (all_failed_message failedFiles) /\
     results st' = results st /\ view st' = view st /\ loading st' = false) /\
  (newResults <> [] ->
   exists st',
     handleScreening env st w
       = (Returned st', (w1 ++ [SetTimeout 500]) ++ alerts failedFiles) /\
     error st' = None /\
     results st' = newResults /\ view st' = CARD /\ loading st' = false).
Proof.
  intros Hpre Hloop.
  assert (Hrun : handleScreening env st w = finalize (started st) newResults failedFiles w1).
  { rewrite handleScreening_run by exact Hpre. unfold bind. rewrite Hloop. reflexivity. }
  split.
  - intros -> Hne. rewrite Hrun, finalize_all_failed by exact Hne.
    eexists. split; [reflexivity|]. repeat split.
  - intro Hne. rewrite Hrun, finalize_some_results by exact Hne.
    eexists. split; [reflexivity|]. repeat split.
Qed.

End Batch.

Section BatchExamples.

Import Js Types Json App BatchSpec Samples.
Local Open Scope list_scope.

(** C3 on two items, the second of which fails: one result, one manifest
    entry. *)
Lemma batch_partitions_items_example :
  exists results manifest w1,
    screening_loop (answering good_response) (started mixed_batch) 0
      (resumes mixed_batch) [] [] []
      = (Returned (results, manifest), w1) /\
    handleScreening (answering good_response) mixed_batch []
      = finalize (started mixed_batch) results manifest w1 /\
    (length results + length manifest = length (resumes mixed_batch))%nat.
Proof.
  apply (batch_partitions_items (answering good_response) mixed_batch []).
  reflexivity.
Defined.

(** C6 on the PDF resume alone in OpenAI mode: the run ends in the error
    that lists it.  With the text resume before it: one result, and the
    alert. *)
Lemma all_failed_or_partial_example :
  (exists st',
      handleScreening (answering good_response) failing_batch []
        = (Returned st',
           snd (screening_loop (answering good_response) (started failing_batch) 0
                  (resumes failing_batch) [] [] [])) /\
      error st' = Some (all_failed_message failing_manifest) /\
      results st' = results failing_batch /\
      view st' = view failing_batch /\ loading st' = false) /\
  (exists st',
      handleScreening (answering good_response) mixed_batch []
        = (Returned st',
           (snd (screening_loop (answering good_response) (started mixed_batch) 0
                   (resumes mixed_batch) [] [] []) ++ [SetTimeout 500])
             ++ alerts mixed_manifest) /\
      error st' = None /\
      results st' = [good_result] /\ view st' = CARD /\ loading st' = false).
Proof.
  split.
  - apply (all_failed_or_partial (answering good_response) failing_batch [] []
             failing_manifest
             (snd (screening_loop (answering good_response) (started failing_batch) 0
                     (resumes failing_batch) [] [] []))).
    + reflexivity.
    + vm_compute. reflexivity.
    + reflexivity.
    + discriminate.
  - apply (all_failed_or_partial (answering good_response) mixed_batch [] [good_result]
             mixed_manifest
             (snd (screening_loop (answering good_response) (started mixed_batch) 0
                     (resumes mixed_batch) [] [] []))).
    + reflexivity.
    + vm_compute. reflexivity.
    + discriminate.
Defined.

End BatchExamples.

(** ** The shortlist *)

Section Shortlist.

Import Types App ShortlistSpec.
Local Open Scope list_scope.

Lemma option_string_eqb_eq (a b : option string) :
  match a, b with
  | Some x, Some y => String.eqb x y
  | None, None => true
  | _, _ => false
  end = true <-> a = b.
Proof.
  destruct a as [x|], b as [y|]; split; intro H; try discriminate; try reflexivity.
  - apply String.eqb_eq in H. now subst.
  - inversion H. apply String.eqb_refl.
Qed.

Lemma same_candidate_key candidate c :
  same_candidate candidate c = true <-> key c = key candidate.
Proof.
  unfold same_candidate, key. rewrite andb_true_iff, String.eqb_eq, option_string_eqb_eq.
  split.
  - intros [-> ->]. reflexivity.
  - intro H. inversion H. split; reflexivity.
Qed.

Lemma exists_iff_key_listed candidate prev :
  existsb (same_candidate candidate) prev = true <-> In (key candidate) (map key prev).
Proof.
  rewrite existsb_exists, in_map_iff. split.
  - intros (c & Hin & Hsame). exists c. split; [|exact Hin].
    now apply same_candidate_key.
  - intros (c & Hkey & Hin). exists c. split; [exact Hin|].
    now apply same_candidate_key.
Qed.

Lemma no_duplicates_filter (p : Obj ScreeningResult -> bool) l :
  no_duplicates l -> no_duplicates (filter p l).
Proof.
  unfold no_duplicates. induction l as [|c l IH]; intro H; [exact H|].
  cbn [map] in H. inversion H as [|k ks Hnotin Hrest]; subst.
  cbn [filter]. destruct (p c); [|now apply IH].
  cbn [map]. constructor; [|now apply IH].
  intro Hin. apply Hnotin. apply in_map_iff in Hin. destruct Hin as (d & Hk & Hd).
  apply filter_In in Hd. apply in_map_iff. exists d. tauto.
Qed.

Lemma no_duplicates_snoc l c :
  no_duplicates l -> ~ In (key c) (map key l) -> no_duplicates (l ++ [c]).
Proof.
  unfold no_duplicates. intros Hl Hc. rewrite map_app. cbn [map].
  apply NoDup_app.
  - exact Hl.
  - constructor; [intros [] | constructor].
  - intros k Hk [Heq|[]]. subst k. contradiction.
Qed.

Lemma apply_action_no_duplicates l a :
  no_duplicates l -> no_duplicates (apply_action l a).
Proof.
  intro Hl. destruct a as [candidate | confirmed candidate]; cbn [apply_action].
  - unfold handleShortlist.
    destruct (existsb (same_candidate candidate) l) eqn:Hex; [exact Hl|].
    apply no_duplicates_snoc; [exact Hl|].
    intro Hin. apply exists_iff_key_listed in Hin. congruence.
  - unfold handleRemoveFromShortlist. destruct confirmed; [|exact Hl].
    now apply no_duplicates_filter.
Qed.

Lemma fold_actions_no_duplicates actions :
  forall l, no_duplicates l -> no_duplicates (fold_left apply_action actions l).
Proof.
  induction actions as [|a actions IH]; intros l Hl; [exact Hl|].
  cbn [fold_left]. apply IH. now apply apply_action_no_duplicates.
Qed.

(** C10. Adding a candidate whose name and email are those of an entry of
    the shortlist leaves the list as it is; adding any other candidate puts
    it at the end.  No shortlist reached from the empty one by adding and
    removing candidates holds two entries with the same name and email, and
    each single click keeps it so. *)
Theorem shortlist_has_no_duplicates (candidate : Obj ScreeningResult)
  (prev : list (Obj ScreeningResult)) (actions : list ShortlistAction) :
  (In (key candidate) (map key prev) -> handleShortlist candidate prev = prev) /\
  (~ In (key candidate) (map key prev) ->
   handleShortlist candidate prev = prev ++ [candidate]) /\
  no_duplicates (run_actions actions) /\
  (forall a, no_duplicates prev -> no_duplicates (apply_action prev a)).
Proof.
  split; [|split; [|split]].
  - intro Hin. apply exists_iff_key_listed in Hin.
    unfold handleShortlist. now rewrite Hin.
  - intro Hnot. unfold handleShortlist.
    destruct (existsb (same_candidate candidate) prev) eqn:Hex; [|reflexivity].
    apply exists_iff_key_listed in Hex. contradiction.
  - apply fold_actions_no_duplicates. constructor.
  - intros a Hl. now apply apply_action_no_duplicates.
Qed.

End Shortlist.

(** ** The CSV export *)

Section CsvExport.

Import Types TableView CsvSpec Csv.
Local Open Scope list_scope.

Lemma chars_app (a b : string) :
  JsString.chars (a ++ b)%string = JsString.chars a ++ JsString.chars b.
Proof.
  unfold JsString.chars. induction a as [|c a IH]; [reflexivity|].
  cbn. now rewrite IH.
Qed.

Lemma of_chars_chars (s : string) : JsString.of_chars (JsString.chars s) = s.
Proof. apply string_of_list_ascii_of_string. Qed.

Lemma cell_quoted (value : option string) : cell value = quoted (or_empty value).
Proof.
  destruct value as [v|]; [|reflexivity].
  destruct v; reflexivity.
Qed.

Lemma row_quoted (r : ScreeningResult) :
  row r = JsString.join "," (map quoted (fields r)).
Proof.
  unfold row, fields. cbn [map]. rewrite !cell_quoted. reflexivity.
Qed.

Lemma join_cons (sep p : string) (rest : list string) :
  JsString.join sep (p :: rest) = (p ++ joined_tail sep rest)%string.
Proof.
  revert p. induction rest as [|q rest IH]; intro p.
  - cbn. now rewrite append_empty_r.
  - change (JsString.join sep (p :: q :: rest))
      with (p ++ sep ++ JsString.join sep (q :: rest))%string.
    now rewrite IH.
Qed.

(** The reader inside a quoted field: the escaped text of [s], then the
    closing quote. *)
Lemma run_quoted_body (s : string) :
  forall cur row rows rest,
    run Quoted cur row rows
      (JsString.chars (JsString.replaceAll dquote (dq ++ dq) s) ++ dquote :: rest)
    = run QuoteSeen (rev (JsString.chars s) ++ cur) row rows rest.
Proof.
  induction s as [|c s IH]; intros cur row rows rest.
  - reflexivity.
  - cbn [JsString.replaceAll]. destruct (Ascii.eqb c dquote) eqn:Hc.
    + apply Ascii.eqb_eq in Hc. subst c.
      change (JsString.chars ((dq ++ dq) ++ JsString.replaceAll dquote (dq ++ dq) s)%string)
        with (dquote :: dquote
                :: JsString.chars (JsString.replaceAll dquote (dq ++ dq) s)).
      cbn [app run]. rewrite Ascii.eqb_refl.
      rewrite IH. change (JsString.chars (String dquote s)) with (dquote :: JsString.chars s).
      cbn [rev]. now rewrite <- app_assoc.
    + change (JsString.chars (String c (JsString.replaceAll dquote (dq ++ dq) s)))
        with (c :: JsString.chars (JsString.replaceAll dquote (dq ++ dq) s)).
      cbn [app run]. rewrite Hc.
      rewrite IH. change (JsString.chars (String c s)) with (c :: JsString.chars s).
      cbn [rev]. now rewrite <- app_assoc.
Qed.

Lemma run_quoted_field (s : string) row rows rest :
  run FieldStart [] row rows (JsString.chars (quoted s) ++ rest)
  = run QuoteSeen (rev (JsString.chars s)) row rows rest.
Proof.
  unfold quoted. rewrite !chars_app.
  change (JsString.chars dq) with [dquote]. cbn [app run].
  rewrite Ascii.eqb_refl. rewrite <- app_assoc. cbn [app].
  rewrite run_quoted_body. now rewrite app_nil_r.
Qed.

Lemma close_quoted_field (s : string) row :
  close_field (rev (JsString.chars s)) row = s :: row.
Proof. unfold close_field. now rewrite rev_involutive, of_chars_chars. Qed.

Lemma run_comma cur row rows rest :
  run QuoteSeen cur row rows ("," %char :: rest)
  = run FieldStart [] (close_field cur row) rows rest.
Proof. reflexivity. Qed.



(** One exported row, read from the start of a record. *)
Lemma run_row (r : ScreeningResult) rows rest :
  run FieldStart [] [] rows (JsString.chars (row r) ++ rest)
  = run QuoteSeen (rev (JsString.chars (or_empty (phone r))))
      [or_empty (email r); candidateExperience r; candidateName r] rows rest.
Proof.
  rewrite row_quoted. unfold fields. cbn [map].
  rewrite join_cons. cbn [joined_tail fold_right].
  rewrite !chars_app. change (JsString.chars ",") with [","%char].
  change (JsString.chars "") with (@nil ascii).
  rewrite ?app_nil_r, <- ?app_assoc. cbn [app].
  rewrite run_quoted_field, run_comma, close_quoted_field.
  rewrite run_quoted_field, run_comma, close_quoted_field.
  rewrite run_quoted_field, run_comma, close_quoted_field.
  rewrite run_quoted_field. reflexivity.
Qed.

Lemma rev_close_row cur row rows :
  rev (close_row cur row rows) = rev rows ++ [rev (close_field cur row)].
Proof. reflexivity. Qed.

(** The rows after the header, read from the end of a record. *)
Lemma run_rows (results : list ScreeningResult) :
  forall st cur row rows,
    st = Unquoted \/ st = QuoteSeen ->
    run st cur row rows
      (JsString.chars (joined_tail GeminiService.nl (map TableView.row results)))
    = Some (rev rows ++ [rev (close_field cur row)] ++ map fields results).
Proof.
  induction results as [|r results IH]; intros st cur row rows Hst.
  - cbn [map joined_tail fold_right JsString.chars list_ascii_of_string run].
    destruct Hst as [-> | ->]; now rewrite rev_close_row.
  - cbn [map joined_tail fold_right]. rewrite !chars_app.
    change (JsString.chars GeminiService.nl) with [LF]. cbn [app].
    assert (Hstep : forall rest,
               run st cur row rows (LF :: rest)
               = run FieldStart [] [] (close_row cur row rows) rest).
    { intro rest. destruct Hst as [-> | ->]; reflexivity. }
    rewrite Hstep, run_row.
    change (fold_right (fun part acc => (GeminiService.nl ++ part ++ acc)%string) ""%string
              (map TableView.row results))
      with (joined_tail GeminiService.nl (map TableView.row results)).
    rewrite IH by (right; reflexivity).
    rewrite rev_close_row, close_quoted_field. cbn [rev app fields map].
    rewrite <- !app_assoc. reflexivity.
Qed.

Lemma run_header rest :
  run FieldStart [] [] [] (JsString.chars (JsString.join "," headers) ++ rest)
  = run Unquoted (rev (JsString.chars "Contact Number"))
      ["Email"; "Total Experience"; "Candidate Name"]%string [] rest.
Proof. reflexivity. Qed.

(** C8. The exported text is the header line followed by one line per
    result, in the order of the list; a line holds the candidate name, the
    total experience, the email and the contact number, in that order, each
    between double quotes with its own double quotes doubled (an absent
    email or number gives an empty quoted field).  Read back as
    comma-separated text, the export gives the header and then, for each
    result in order, exactly these four values, whatever commas, quotes or
    line feeds they hold. *)
Theorem csv_export_round_trip (results : list ScreeningResult) :
  csvContent results
    = JsString.join GeminiService.nl
        (JsString.join "," headers
           :: map (fun r => JsString.join "," (map quoted (fields r))) results) /\
  Csv.parse (csvContent results) = Some (headers :: map fields results).
Proof.
  split.
  - unfold csvContent. f_equal. f_equal. apply map_ext. intro r. apply row_quoted.
  - unfold Csv.parse, csvContent. rewrite join_cons, chars_app, run_header.
    rewrite run_rows by (left; reflexivity).
    unfold close_field. reflexivity.
Qed.

End CsvExport.

(** * More properties of the code *)

(** ** The service: footprints and failures *)

Section Service.

Import Js Types Json GeminiService RetrySpec ScreeningSpec ServiceSpec Samples.
Local Open Scope list_scope.

(** X1. [extractTextFromDocx] never throws.  When the decoding and the
    extraction succeed it returns the extracted text and logs nothing; when
    either fails it returns the empty text and logs one error. *)
Theorem extractTextFromDocx_never_throws (env : Env) (data : string) (w : World) :
  (exists value,
      extraction env data = Returned value /\
      extractTextFromDocx env data w = (Returned value, w)) \/
  (exists e,
      extraction env data = Thrown e /\
      extractTextFromDocx env data w = (Returned ""%string, w ++ [extraction_failure])).
Proof.
  unfold extractTextFromDocx, extraction, try_catch, bind, atob.
  destruct (Base64.atob data) as [binaryString|].
  - unfold ret. destruct (mammoth_extractRawText env binaryString) as [value|e].
    + left. now exists value.
    + right. now exists e.
  - right. eexists. split; reflexivity.
Qed.

Lemma extractTextFromDocx_run env data w :
  extractTextFromDocx env data w
  = (Returned (extracted_text env data),
     w ++ match extraction env data with
          | Returned _ => []
          | Thrown _ => [extraction_failure]
          end).
Proof.
  unfold extracted_text, extractTextFromDocx, extraction, try_catch, bind, atob.
  destruct (Base64.atob data) as [binaryString|].
  - unfold ret. destruct (mammoth_extractRawText env binaryString) as [value|e].
    + now rewrite app_nil_r.
    + reflexivity.
  - reflexivity.
Qed.

Lemma calls_app provider w1 w2 :
  calls provider (w1 ++ w2) = (calls provider w1 + calls provider w2)%nat.
Proof. unfold calls, count. now rewrite filter_app, length_app. Qed.

Lemma one_attempt_nil provider : one_attempt provider [].
Proof. repeat split. cbn. lia. Qed.

Lemma one_attempt_log provider msg : one_attempt provider [ConsoleError msg].
Proof. repeat split; destruct provider; cbn; lia. Qed.

Lemma parse_response_same_world msg text w :
  snd (parse_response msg text w) = w.
Proof.
  unfold parse_response. destruct text as [t|]; [|reflexivity].
  destruct (JsString.truthy t); [|reflexivity].
  unfold Js.JSON_parse. now destruct (Json.JSON_parse t).
Qed.

Lemma extraction_log_attempt provider env data :
  one_attempt provider
    match extraction env data with
    | Returned _ => []
    | Thrown _ => [extraction_failure]
    end.
Proof.
  destruct (extraction env data); [apply one_attempt_nil | apply one_attempt_log].
Qed.

Lemma one_attempt_call provider evs req :
  one_attempt provider evs ->
  calls provider evs = 0%nat ->
  one_attempt provider
    (evs ++ [match provider with
             | gemini => GeminiCall (fst req)
             | openai => OpenAICall (snd req)
             end]).
Proof.
  intros (Hd & Hc & Ho) Hzero. unfold one_attempt.
  rewrite delays_app, !calls_app, Hd, Hzero, Ho.
  destruct provider; repeat split; cbn; lia.
Qed.

Lemma extraction_log_calls provider env data :
  calls provider
    match extraction env data with
    | Returned _ => []
    | Thrown _ => [extraction_failure]
    end = 0%nat.
Proof. destruct (extraction env data), provider; reflexivity. Qed.

(** One attempt of either adapter only appends to the trace, and what it
    appends is an attempt's worth. *)
Lemma operation_footprint env resume data jdFile model provider ctx w :
  exists evs,
    snd (operation env resume data jdFile model provider ctx w) = w ++ evs /\
    one_attempt provider evs.
Proof.
  destruct provider; cbn [operation].
  - unfold gemini_operation.
    destruct (negb (JsString.truthy_opt (API_KEY env))).
    { exists []. rewrite app_nil_r. split; [reflexivity | apply one_attempt_nil]. }
    unfold bind at 1, resume_part.
    destruct (String.eqb (mimeType resume) DOCX).
    + unfold bind at 1. rewrite extractTextFromDocx_run.
      destruct (negb (JsString.truthy (extracted_text env data))
                || (String.length (JsString.trim (extracted_text env data)) =? 0)%nat).
      * eexists. split; [reflexivity | apply extraction_log_attempt].
      * unfold ret. rewrite gemini_call_world.
        eexists. rewrite <- app_assoc. split; [reflexivity|].
        apply (one_attempt_call gemini _
                 (mkGeminiRequest model _, mkChatRequest model "" "")).
        -- apply extraction_log_attempt.
        -- apply extraction_log_calls.
    + unfold ret. rewrite gemini_call_world.
      eexists. split; [reflexivity|].
      apply (one_attempt_call gemini []
               (mkGeminiRequest model _, mkChatRequest model "" ""));
        [apply one_attempt_nil | reflexivity].
  - unfold openai_operation.
    destruct (negb (JsString.truthy_opt (OPENAI_API_KEY env))).
    { exists []. rewrite app_nil_r. split; [reflexivity | apply one_attempt_nil]. }
    unfold bind at 1, openai_text_extraction.
    destruct (String.eqb (mimeType resume) PDF).
    { exists []. rewrite app_nil_r. split; [reflexivity | apply one_attempt_nil]. }
    destruct (String.eqb (mimeType resume) DOCX).
    + rewrite extractTextFromDocx_run.
      destruct (negb (JsString.truthy (JsString.trim (extracted_text env data)))).
      * eexists. split; [reflexivity | apply extraction_log_attempt].
      * rewrite openai_call_world.
        eexists. rewrite <- app_assoc. split; [reflexivity|].
        apply (one_attempt_call openai _
                 (mkGeminiRequest model [], mkChatRequest model _ _)).
        -- apply extraction_log_attempt.
        -- apply extraction_log_calls.
    + unfold atob. destruct (Base64.atob data) as [text|].
      * unfold ret.
        destruct (negb (JsString.truthy (JsString.trim text))).
        -- exists []. rewrite app_nil_r. split; [reflexivity | apply one_attempt_nil].
        -- rewrite openai_call_world.
           eexists. split; [reflexivity|].
           apply (one_attempt_call openai []
                    (mkGeminiRequest model [], mkChatRequest model _ _));
             [apply one_attempt_nil | reflexivity].
      * exists []. rewrite app_nil_r. split; [reflexivity | apply one_attempt_nil].
Qed.

(** The footprint of the controller over attempts that each leave an
    attempt's worth. *)
Lemma retry_footprint {T} provider (op : M T) :
  (forall w, exists evs, snd (op w) = w ++ evs /\ one_attempt provider evs) ->
  forall n retries delay w,
    retries = Z.of_nat n ->
    exists evs m,
      snd (retryOperation op retries delay w) = w ++ evs /\
      (calls provider evs <= n + 1)%nat /\
      calls (other provider) evs = 0%nat /\
      (m <= n)%nat /\
      delays evs = map (fun k => delay * 2 ^ Z.of_nat k) (seq 0 m).
Proof.
  intros Hop n. induction n as [|n IH]; intros retries delay w Hr;
    rewrite retryOperation_step;
    destruct (Hop w) as (evs1 & Hw1 & Hd1 & Hc1 & Ho1);
    destruct (op w) as [[v|e] w1]; cbn [snd] in Hw1; subst w1.
  - exists evs1, 0%nat. cbn [snd seq map]. repeat split; try assumption; lia.
  - subst retries. cbn [Z.of_nat Z.ltb Z.compare snd].
    exists evs1, 0%nat. cbn [seq map]. repeat split; try assumption; lia.
  - exists evs1, 0%nat. cbn [snd seq map]. repeat split; try assumption; lia.
  - assert (Hpos : (0 <? retries) = true) by (apply Z.ltb_lt; lia).
    rewrite Hpos.
    destruct (IH (retries - 1) (delay * 2)
                ((w ++ evs1) ++ [ConsoleWarn (retry_warning retries); SetTimeout delay]))
      as (evs2 & m & Hw2 & Hc2 & Ho2 & Hm & Hd2); [lia|].
    exists (evs1 ++ [ConsoleWarn (retry_warning retries); SetTimeout delay] ++ evs2), (S m).
    rewrite Hw2. repeat split.
    + now rewrite <- !app_assoc.
    + rewrite !calls_app.
      assert (calls provider [ConsoleWarn (retry_warning retries); SetTimeout delay] = 0%nat)
        by (destruct provider; reflexivity).
      lia.
    + rewrite !calls_app, Ho1, Ho2. now destruct provider.
    + lia.
    + rewrite !delays_app, Hd1, Hd2. cbn [delays flat_map app seq map].
      f_equal.
      * change (Z.of_nat 0) with 0. rewrite Z.pow_0_r. lia.
      * rewrite <- seq_shift, map_map. apply map_ext. intro k.
        rewrite Nat2Z.inj_succ, Z.pow_succ_r by lia. lia.
Qed.

Lemma prepare_jd_context_footprint env jdText jdFile provider w :
  exists evs,
    snd (prepare_jd_context env jdText jdFile provider w) = w ++ evs /\
    delays evs = [] /\ calls gemini evs = 0%nat /\ calls openai evs = 0%nat.
Proof.
  unfold prepare_jd_context.
  destruct (jd_file_content jdFile) as [[jd data]|].
  - destruct (String.eqb (mimeType jd) DOCX).
    + unfold bind. rewrite extractTextFromDocx_run. unfold ret. cbn [snd].
      eexists. split; [reflexivity|].
      destruct (extraction env data); repeat split.
    + destruct provider.
      * exists []. rewrite app_nil_r. repeat split.
      * destruct (String.eqb (mimeType jd) PDF).
        -- eexists. split; [reflexivity|]. repeat split.
        -- unfold bind, atob. destruct (Base64.atob data);
             exists []; rewrite app_nil_r; repeat split.
  - destruct (JsString.truthy (JsString.trim jdText));
      exists []; rewrite app_nil_r; repeat split.
Qed.

(** The calls of one [screenResume], as the loop over a batch counts
    them. *)
Lemma screenResume_footprint (env : Env) (resume : FileInput)
  (jobDescriptionText : string) (jobDescriptionFile : option FileInput)
  (modelName : string) (provider : AiProvider) (w : World) :
  exists evs,
    snd (screenResume env resume jobDescriptionText jobDescriptionFile modelName
           provider w) = w ++ evs /\
    (calls provider evs <= 3)%nat /\
    calls (other provider) evs = 0%nat.
Proof.
  unfold screenResume. destruct (is_demo resume).
  { exists [SetTimeout 1500; RandomDraw]. split.
    - unfold generateMockResult, Math_floor_random_times, sleep, emit, ret, bind.
      cbn [snd]. now rewrite <- app_assoc.
    - destruct provider; split; cbn; lia. }
  assert (Hnone : exists evs,
             w = w ++ evs /\ (calls provider evs <= 3)%nat /\
             calls (other provider) evs = 0%nat).
  { exists []. rewrite app_nil_r. destruct provider; repeat split; cbn; lia. }
  destruct (base64 resume) as [data|]; [|exact Hnone].
  destruct (JsString.truthy data); [|exact Hnone]. clear Hnone.
  destruct (prepare_jd_context_footprint env jobDescriptionText jobDescriptionFile
              provider w) as (evs0 & Hw0 & _ & Hg0 & Ho0).
  assert (Hzero : forall p, calls p evs0 = 0%nat) by (intros []; assumption).
  unfold bind.
  destruct (prepare_jd_context env jobDescriptionText jobDescriptionFile provider w)
    as [[ctx|e] w0]; cbn [snd] in Hw0; subst w0.
  - destruct (retry_footprint provider
                (operation env resume data jobDescriptionFile modelName provider ctx)
                (operation_footprint env resume data jobDescriptionFile modelName
                   provider ctx)
                2%nat 2 1000 (w ++ evs0) eq_refl)
      as (evs & m & Hw & Hc & Ho & Hm & _).
    exists (evs0 ++ evs). rewrite Hw, app_assoc. split; [reflexivity|].
    rewrite !calls_app, !Hzero. split; lia.
  - exists evs0. split; [reflexivity|]. rewrite !Hzero. split; lia.
Qed.

(** X2. Whatever the environment and the input, one call of
    [screenResume] only appends to the trace; it calls the selected
    provider at most three times and the other provider never; and the
    timers it sets are none, the 1500 of the demonstration path, or the
    1000 and then 2000 of the retries. *)
Theorem screenResume_call_budget (env : Env) (resume : FileInput)
  (jobDescriptionText : string) (jobDescriptionFile : option FileInput)
  (modelName : string) (provider : AiProvider) (w : World) :
  exists evs,
    snd (screenResume env resume jobDescriptionText jobDescriptionFile modelName
           provider w) = w ++ evs /\
    (calls provider evs <= 3)%nat /\
    calls (other provider) evs = 0%nat /\
    In (delays evs) timer_patterns.
Proof.
  unfold screenResume. destruct (is_demo resume).
  { exists [SetTimeout 1500; RandomDraw]. split.
    - unfold generateMockResult, Math_floor_random_times, sleep, emit, ret, bind.
      cbn [snd]. now rewrite <- app_assoc.
    - destruct provider; repeat split; cbn; try lia; tauto. }
  assert (Hnone : exists evs,
             w = w ++ evs /\ (calls provider evs <= 3)%nat /\
             calls (other provider) evs = 0%nat /\ In (delays evs) timer_patterns).
  { exists []. rewrite app_nil_r. destruct provider; repeat split; cbn; try lia; tauto. }
  destruct (base64 resume) as [data|]; [|exact Hnone].
  destruct (JsString.truthy data); [|exact Hnone]. clear Hnone.
  destruct (prepare_jd_context_footprint env jobDescriptionText jobDescriptionFile
              provider w) as (evs0 & Hw0 & Hd0 & Hg0 & Ho0).
  assert (Hzero : forall p, calls p evs0 = 0%nat) by (intros []; assumption).
  unfold bind.
  destruct (prepare_jd_context env jobDescriptionText jobDescriptionFile provider w)
    as [[ctx|e] w0]; cbn [snd] in Hw0; subst w0.
  - destruct (retry_footprint provider
                (operation env resume data jobDescriptionFile modelName provider ctx)
                (operation_footprint env resume data jobDescriptionFile modelName
                   provider ctx)
                2%nat 2 1000 (w ++ evs0) eq_refl)
      as (evs & m & Hw & Hc & Ho & Hm & Hd).
    exists (evs0 ++ evs). rewrite Hw, app_assoc. split; [reflexivity|].
    rewrite !calls_app, !Hzero, delays_app, Hd0, Hd. cbn [app].
    repeat split; try lia.
    destruct m as [|[|[|m]]]; cbn; try tauto. lia.
  - exists evs0. split; [reflexivity|]. rewrite !Hzero, Hd0.
    repeat split; cbn; try lia; tauto.
Qed.

(** X3. The controller stops at the first success.  When the attempts
    numbered 0 to [k - 1] fail and attempt [k] returns, with [k] within the
    budget, the call returns what attempt [k] returned, in the trace that
    this attempt left: [k] waits were made and nothing comes after. *)
Theorem retryOperation_stops_at_first_success {T} (op : M T) (k : nat) :
  forall (retries delay : Z) (w : World) (v : T) (w' : World),
    Z.of_nat k <= retries ->
    (forall j, (j < k)%nat ->
               exists e, fst (op (attempt_world op retries delay j w)) = Thrown e) ->
    op (attempt_world op retries delay k w) = (Returned v, w') ->
    retryOperation op retries delay w = (Returned v, w').
Proof.
  induction k as [|k IH]; intros retries delay w v w' Hk Hfail Hok;
    rewrite retryOperation_step.
  - cbn [attempt_world] in Hok. now rewrite Hok.
  - destruct (Hfail 0%nat) as (e & He); [lia|]. cbn [attempt_world] in He.
    destruct (op w) as [[a|e'] w1] eqn:Hop; [discriminate|].
    assert (Hpos : (0 <? retries) = true) by (apply Z.ltb_lt; lia).
    rewrite Hpos. apply IH.
    + lia.
    + intros j Hj. destruct (Hfail (S j)) as (e'' & He''); [lia|].
      cbn [attempt_world] in He''. rewrite Hop in He''. now exists e''.
    + cbn [attempt_world] in Hok. now rewrite Hop in Hok.
Qed.

(** X3 on an operation that fails on the empty trace and returns on any
    other: one wait, then the result. *)
Lemma retryOperation_stops_at_first_success_example :
  retryOperation
    (fun w => match w with
              | [] => (Thrown (error "busy"), w)
              | _ => (Returned 7, w)
              end) 2 1000 []
  = (Returned 7, [ConsoleWarn (retry_warning 2); SetTimeout 1000]).
Proof.
  apply (retryOperation_stops_at_first_success
           (fun w => match w with
                     | [] => (Thrown (error "busy"), w)
                     | _ => (Returned 7, w)
                     end) 1 2 1000 [] 7).
  - lia.
  - intros j Hj. assert (j = 0%nat) by lia. subst j.
    exists (error "busy"). reflexivity.
  - reflexivity.
Defined.

Lemma retry_logged_failure {T} (op : M T) e log w :
  (forall w0, op w0 = (Thrown e, w0 ++ log)) ->
  retryOperation op 2 1000 w
  = (Thrown e,
     w ++ log ++ [ConsoleWarn (retry_warning 2); SetTimeout 1000]
       ++ log ++ [ConsoleWarn (retry_warning 1); SetTimeout 2000] ++ log).
Proof.
  intro Hop.
  rewrite retryOperation_step, Hop. cbn [Z.ltb Z.compare].
  rewrite retryOperation_step, Hop.
  cbn [Z.ltb Z.compare Z.sub Z.add Z.opp Z.pos_sub Z.mul Pos.mul Pos.add
       Z.succ_double Z.pred_double Z.double Pos.pred_double].
  rewrite retryOperation_step, Hop.
  cbn [Z.ltb Z.compare Z.sub Z.add Z.opp Z.pos_sub].
  rewrite <- !app_assoc. reflexivity.
Qed.

Lemma blank_trim_empty s : blank s = true -> JsString.trim s = ""%string.
Proof.
  unfold blank. destruct (JsString.trim s); [reflexivity | discriminate].
Qed.

Lemma operation_unreadable_docx env resume data jdFile model provider ctx w :
  mimeType resume = DOCX ->
  blank (extracted_text env data) = true ->
  JsString.truthy_opt (credential env provider) = true ->
  operation env resume data jdFile model provider ctx w
  = (Thrown (empty_docx provider),
     w ++ match extraction env data with
          | Returned _ => []
          | Thrown _ => [extraction_failure]
          end).
Proof.
  intros Hmime Hblank Hkey.
  pose proof (blank_trim_empty _ Hblank) as Htrim.
  destruct provider; cbn [operation credential empty_docx] in *.
  - unfold gemini_operation. rewrite Hkey. cbn [negb].
    unfold bind at 1, resume_part. rewrite Hmime.
    change (String.eqb DOCX DOCX) with true. cbv beta iota.
    unfold bind at 1. rewrite extractTextFromDocx_run.
    rewrite Htrim. cbn [String.length Nat.eqb]. rewrite orb_true_r. reflexivity.
  - unfold openai_operation. rewrite Hkey. cbn [negb].
    unfold bind at 1, openai_text_extraction. rewrite Hmime.
    change (String.eqb DOCX PDF) with false.
    change (String.eqb DOCX DOCX) with true. cbv beta iota.
    rewrite extractTextFromDocx_run. rewrite Htrim. reflexivity.
Qed.

(** X4. A DOCX resume from which no text comes out -- the decoding or the
    extraction fails, or the text is blank -- never reaches the provider.
    With the key in place, each of the three attempts extracts again and
    throws, no call is made, and [screenResume] fails with the error of the
    adapter after the two waits. *)
Theorem unreadable_docx_never_reaches_provider (env : Env) (resume : FileInput)
  (data jobDescriptionText : string) (jobDescriptionFile : option FileInput)
  (modelName : string) (provider : AiProvider) (jdContext : string) (w w0 : World) :
  is_demo resume = false ->
  base64 resume = Some data ->
  JsString.truthy data = true ->
  mimeType resume = DOCX ->
  blank (extracted_text env data) = true ->
  JsString.truthy_opt (credential env provider) = true ->
  prepare_jd_context env jobDescriptionText jobDescriptionFile provider w
    = (Returned jdContext, w0) ->
  exists evs,
    screenResume env resume jobDescriptionText jobDescriptionFile modelName provider w
      = (Thrown (empty_docx provider), w0 ++ evs) /\
    calls gemini evs = 0%nat /\ calls openai evs = 0%nat /\
    delays evs = [1000; 2000].
Proof.
  intros Hdemo Hdata Htruthy Hmime Hblank Hkey Hprep.
  unfold screenResume. rewrite Hdemo, Hdata, Htruthy. unfold bind. rewrite Hprep.
  rewrite (retry_logged_failure _ (empty_docx provider)
             match extraction env data with
             | Returned _ => []
             | Thrown _ => [extraction_failure]
             end).
  - eexists. split; [reflexivity|].
    destruct (extraction env data); repeat split.
  - intro w1. now apply operation_unreadable_docx.
Qed.

(** X4 on a DOCX upload that the extraction library refuses. *)
Lemma unreadable_docx_never_reaches_provider_example :
  exists evs,
    screenResume (answering good_response) MoreSamples.docx_resume "Go developer" None
      "gemini-2.5-flash" gemini []
      = (Thrown (empty_docx gemini), [] ++ evs) /\
    calls gemini evs = 0%nat /\ calls openai evs = 0%nat /\
    delays evs = [1000; 2000].
Proof.
  eapply (unreadable_docx_never_reaches_provider (answering good_response)
            MoreSamples.docx_resume "UEsDBA==" "Go developer" None "gemini-2.5-flash"
            gemini _ [] []); reflexivity.
Defined.

(** X5. The preparation of the job description context makes no call and
    fails in two cases only, leaving the trace as it was: no document with
    content and a text of white space only (empty, or made of the white
    space and line terminator characters of ECMAScript, the no-break space
    among them), which gives the error that no job description was
    provided; and, in OpenAI mode, a document that is neither DOCX nor PDF
    and whose content is not base64, which gives the error of [atob].
    Without a document, a text of white space only always fails so, and
    any other text is returned after the heading, as it was typed.  A
    document with content takes precedence: the text is then not read. *)
Theorem prepare_jd_context_failures (env : Env) (jobDescriptionFile : option FileInput)
  (provider : AiProvider) (w : World) :
  (forall jobDescriptionText e w',
      prepare_jd_context env jobDescriptionText jobDescriptionFile provider w
        = (Thrown e, w') ->
      w' = w /\
      ((jd_file_content jobDescriptionFile = None /\
        WhiteSpaceSpec.white_space jobDescriptionText /\
        e = error "No Job Description provided.") \/
       (provider = openai /\
        exists jd data,
          jd_file_content jobDescriptionFile = Some (jd, data) /\
          String.eqb (mimeType jd) DOCX = false /\
          String.eqb (mimeType jd) PDF = false /\
          Base64.atob data = None /\
          name e = InvalidCharacterError))) /\
  (jd_file_content jobDescriptionFile = None ->
   forall jobDescriptionText,
     (WhiteSpaceSpec.white_space jobDescriptionText ->
      prepare_jd_context env jobDescriptionText jobDescriptionFile provider w
      = (Thrown (error "No Job Description provided."), w)) /\
     (~ WhiteSpaceSpec.white_space jobDescriptionText ->
      prepare_jd_context env jobDescriptionText jobDescriptionFile provider w
      = (Returned ("Job Description Context:" ++ nl ++ jobDescriptionText)%string, w))) /\
  (jd_file_content jobDescriptionFile <> None ->
   forall text text',
     prepare_jd_context env text jobDescriptionFile provider w
     = prepare_jd_context env text' jobDescriptionFile provider w).
Proof.
  split; [|split].
  - intros jobDescriptionText e w'. unfold prepare_jd_context.
    destruct (jd_file_content jobDescriptionFile) as [[jd data]|] eqn:Hjd.
    + destruct (String.eqb (mimeType jd) DOCX) eqn:Hdocx.
      * unfold bind. rewrite extractTextFromDocx_run. discriminate.
      * destruct provider; [discriminate|].
        destruct (String.eqb (mimeType jd) PDF) eqn:Hpdf; [discriminate|].
        unfold bind, atob. destruct (Base64.atob data) eqn:Hatob; [discriminate|].
        unfold throw. intro H. inversion H; subst. split; [reflexivity|].
        right. split; [reflexivity|]. exists jd, data. repeat split; assumption.
    + destruct (JsString.truthy (JsString.trim jobDescriptionText)) eqn:Htrim;
        [discriminate|].
      unfold throw. intro H. inversion H; subst. split; [reflexivity|].
      left. repeat split. now apply trim_empty_white.
  - intros Hfile jobDescriptionText. unfold prepare_jd_context. rewrite Hfile. split.
    + intro Hwhite. apply trim_empty_white in Hwhite. now rewrite Hwhite.
    + intro Hfilled.
      destruct (JsString.truthy (JsString.trim jobDescriptionText)) eqn:Htrim.
      * unfold ret. now rewrite string_append_assoc.
      * exfalso. apply Hfilled. now apply trim_empty_white.
  - intros Hfile text text'. unfold prepare_jd_context.
    destruct (jd_file_content jobDescriptionFile) as [[jd data]|];
      [reflexivity | contradiction].
Qed.

(** X5 on a text that is a no-break space and a line separator, and on a
    text that has a word between two no-break spaces. *)
Lemma prepare_jd_context_failures_example :
  prepare_jd_context (answering good_response) MoreSamples.nbsp_only None gemini []
  = (Thrown (error "No Job Description provided."), []) /\
  prepare_jd_context (answering good_response) MoreSamples.nbsp_around None gemini []
  = (Returned ("Job Description Context:" ++ nl ++ MoreSamples.nbsp_around)%string, []).
Proof.
  destruct (prepare_jd_context_failures (answering good_response) None gemini [])
    as (_ & Hnone & _).
  split.
  - apply (proj1 (Hnone eq_refl MoreSamples.nbsp_only)).
    apply (WhiteSpaceSpec.white_more MoreSamples.nbsp MoreSamples.line_separator).
    + unfold WhiteSpaceSpec.spaces. cbn [In]. tauto.
    + apply (white_one MoreSamples.line_separator).
      unfold WhiteSpaceSpec.spaces. cbn [In]. tauto.
  - apply (proj2 (Hnone eq_refl MoreSamples.nbsp_around)).
    intro Hwhite. apply trim_empty_white in Hwhite. discriminate.
Defined.

Lemma replaceAll_removes (c : ascii) (by_ s : string) :
  ~ In c (JsString.chars by_) ->
  ~ In c (JsString.chars (JsString.replaceAll c by_ s)).
Proof.
  intro Hby. induction s as [|d s IH]; [intros []|].
  cbn [JsString.replaceAll]. destruct (Ascii.eqb d c) eqn:Hd.
  - unfold JsString.chars in *.
    assert (Happ : forall a b, list_ascii_of_string (a ++ b)%string
                   = list_ascii_of_string a ++ list_ascii_of_string b).
    { intros a b. induction a as [|x a IHa]; [reflexivity|]. cbn. now rewrite IHa. }
    rewrite Happ. intro Hin. apply in_app_or in Hin. tauto.
  - intros [Heq | Hin]; [|contradiction].
    subst d. now rewrite Ascii.eqb_refl in Hd.
Qed.

Lemma substring_prefix (a b : string) :
  substring 0 (String.length a) (a ++ b) = a.
Proof.
  induction a as [|c a IH]; cbn.
  - now destruct b.
  - now rewrite IH.
Qed.

Lemma substring_all (b : string) : substring 0 (String.length b) b = b.
Proof. induction b as [|c b IH]; cbn; [reflexivity | now rewrite IH]. Qed.

Lemma substring_suffix (a b : string) (k n : nat) :
  substring (String.length a + k) n (a ++ b) = substring k n b.
Proof. induction a as [|c a IH]; cbn; [reflexivity | exact IH]. Qed.

Lemma substring_split (s : string) :
  forall k, (k <= String.length s)%nat ->
            s = (substring 0 k s ++ substring k (String.length s - k) s)%string.
Proof.
  induction s as [|c s IH]; intros k Hk.
  - cbn in Hk. assert (k = 0%nat) by lia. subst k. reflexivity.
  - destruct k as [|k].
    + cbn [substring String.length Nat.sub append]. now rewrite substring_all.
    + cbn [substring String.length Nat.sub append]. f_equal. apply IH.
      cbn in Hk. lia.
Qed.

Lemma endsWith_append (base suffix : string) :
  JsString.endsWith suffix (base ++ suffix) = true /\
  JsString.dropEnd (String.length suffix) (base ++ suffix) = base.
Proof.
  unfold JsString.endsWith, JsString.dropEnd. rewrite length_append.
  replace (String.length base + String.length suffix - String.length suffix)%nat
    with (String.length base) by lia.
  split.
  - apply andb_true_iff. split; [apply Nat.leb_le; lia|].
    rewrite <- (Nat.add_0_r (String.length base)), substring_suffix, substring_all.
    apply String.eqb_refl.
  - apply substring_prefix.
Qed.

Lemma endsWith_suffix (suffix s : string) :
  JsString.endsWith suffix s = true -> exists base, s = (base ++ suffix)%string.
Proof.
  unfold JsString.endsWith. intro H. apply andb_true_iff in H. destruct H as [Hle Heq].
  apply Nat.leb_le in Hle. apply String.eqb_eq in Heq.
  exists (substring 0 (String.length s - String.length suffix) s).
  eapply eq_trans;
    [apply (substring_split s (String.length s - String.length suffix)); lia|].
  f_equal.
  replace (String.length s - (String.length s - String.length suffix))%nat
    with (String.length suffix) by lia.
  exact Heq.
Qed.

(** What [strip_extension] comes to: the name without a final [.pdf] or
    [.docx], or the name itself when it ends in neither. *)
Lemma strip_extension_cases (fileName : string) :
  (forall base, fileName = (base ++ ".pdf")%string \/ fileName = (base ++ ".docx")%string ->
                strip_extension fileName = base) /\
  ((forall base, fileName <> (base ++ ".pdf")%string /\
                 fileName <> (base ++ ".docx")%string) ->
   strip_extension fileName = fileName).
Proof.
  unfold strip_extension. split.
  - intros base [-> | ->].
    + destruct (endsWith_append base ".pdf") as [Hends Hdrop]. now rewrite Hends.
    + assert (Hpdf : JsString.endsWith ".pdf" (base ++ ".docx") = false).
      { unfold JsString.endsWith. rewrite length_append. cbn [String.length].
        replace (String.length base + 5 - 4)%nat with (String.length base + 1)%nat by lia.
        rewrite substring_suffix. cbn. apply andb_false_r. }
      rewrite Hpdf.
      destruct (endsWith_append base ".docx") as [Hends Hdrop]. now rewrite Hends.
  - intro Hnone.
    destruct (JsString.endsWith ".pdf" fileName) eqn:Hpdf.
    { apply endsWith_suffix in Hpdf. destruct Hpdf as [base Hbase].
      now destruct (Hnone base). }
    destruct (JsString.endsWith ".docx" fileName) eqn:Hdocx; [|reflexivity].
    apply endsWith_suffix in Hdocx. destruct Hdocx as [base Hbase].
    now destruct (Hnone base).
Qed.

Lemma replaceAll_spaced (s : string) : JsString.replaceAll "_" " " s = spaced s.
Proof.
  unfold spaced, JsString.chars, JsString.of_chars.
  induction s as [|c s IH]; [reflexivity|].
  cbn [JsString.replaceAll list_ascii_of_string map string_of_list_ascii].
  destruct (Ascii.eqb c "_"); cbn [append]; now rewrite IH.
Qed.

(** X6. The demonstration path needs neither key nor provider.  For a
    placeholder resume [screenResume] always returns: it waits 1500, draws
    one random number and makes no call.  The recommendation of the result
    is one of the four values.  The candidate name is the file name -- or
    Candidate when there is none -- without a final [.pdf] or [.docx], the
    whole name when it ends in neither, with a space in the place of each
    underscore, so that no underscore is left. *)
Theorem demo_path_needs_no_provider (env : Env) (resume : FileInput)
  (jobDescriptionText : string) (jobDescriptionFile : option FileInput)
  (modelName : string) (provider : AiProvider) (w : World) :
  is_demo resume = true ->
  exists j candidateName,
    screenResume env resume jobDescriptionText jobDescriptionFile modelName provider w
      = (Returned j, w ++ [SetTimeout 1500; RandomDraw]) /\
    recommendation_in_enum j = true /\
    get "candidateName" j = Some (JStr candidateName) /\
    (forall base,
        file_name_or resume "Candidate" = (base ++ ".pdf")%string \/
        file_name_or resume "Candidate" = (base ++ ".docx")%string ->
        candidateName = spaced base) /\
    ((forall base,
         file_name_or resume "Candidate" <> (base ++ ".pdf")%string /\
         file_name_or resume "Candidate" <> (base ++ ".docx")%string) ->
     candidateName = spaced (file_name_or resume "Candidate")) /\
    ~ In "_"%char (JsString.chars candidateName).
Proof.
  intro Hdemo. unfold screenResume. rewrite Hdemo.
  unfold generateMockResult, Math_floor_random_times, sleep, emit, ret, bind.
  rewrite <- app_assoc. cbn [app].
  destruct (strip_extension_cases (file_name_or resume "Candidate")) as [Hext Hnone].
  eexists. eexists. split; [reflexivity|].
  split; [reflexivity|]. split; [reflexivity|].
  split; [|split].
  - intros base Hbase. rewrite (Hext base Hbase). apply replaceAll_spaced.
  - intro Hno. rewrite (Hnone Hno). apply replaceAll_spaced.
  - apply replaceAll_removes. cbn. intros [H|[]]. discriminate.
Qed.

(** X6 on a placeholder named Jane_Doe.pdf, without any key. *)
Lemma demo_path_needs_no_provider_example :
  exists j,
    screenResume no_keys demo_resume "" None "gemini-2.5-flash" gemini []
      = (Returned j, [SetTimeout 1500; RandomDraw]) /\
    recommendation_in_enum j = true /\
    get "candidateName" j = Some (JStr "Jane Doe").
Proof.
  destruct (demo_path_needs_no_provider no_keys demo_resume "" None "gemini-2.5-flash"
              gemini []) as (j & candidateName & Hrun & Hrec & Hname & Hext & _).
  - reflexivity.
  - exists j. split; [exact Hrun|]. split; [exact Hrec|].
    rewrite Hname. rewrite (Hext "Jane_Doe"); [reflexivity|]. left. reflexivity.
Defined.

(** X7. The readiness indicator of the settings panel is off exactly when
    the adapter of the provider rejects every attempt for lack of its key,
    before it looks at the resume and without touching the trace. *)
Theorem isSystemReady_iff_credential (env : Env) (provider : AiProvider) :
  AppSettings.isSystemReady env provider = false <->
  (forall resume data jdFile modelName jdContext w,
      operation env resume data jdFile modelName provider jdContext w
      = (Thrown (missing_credential provider), w)).
Proof.
  split.
  - intros Hready resume data jdFile modelName jdContext w.
    apply operation_without_credential. now destruct provider.
  - intro Hall.
    destruct (AppSettings.isSystemReady env provider) eqn:Hready; [|reflexivity].
    exfalso.
    specialize (Hall text_resume "SGVsbG8="%string None ""%string ""%string []).
    assert (Hlen : length (snd (operation env text_resume "SGVsbG8=" None "" provider "" []))
                   = 1%nat).
    { destruct provider; cbn [operation AppSettings.isSystemReady] in *.
      - rewrite gemini_operation_inline_world; [reflexivity | reflexivity | exact Hready].
      - unfold openai_operation. rewrite Hready. cbn [negb].
        unfold bind at 1.
        change (openai_text_extraction env text_resume "SGVsbG8=" [])
          with (@Returned string "Hello", @nil Event).
        cbv beta iota.
        change (negb (JsString.truthy (JsString.trim "Hello"))) with false.
        cbv beta iota. now rewrite openai_call_world. }
    rewrite Hall in Hlen. discriminate.
Qed.

End Service.

(** ** The settings and the batch run, besides *)

Section SettingsAndBatch.

Import Js Types Json App BatchSpec ServiceSpec RetrySpec Samples.
Local Open Scope list_scope.

(** X8. Whatever the user does in the settings panel, the selected model
    is one of the models of the selected provider: a change of provider
    resets the model to the first of the new list, and the model list only
    offers the models of the current provider. *)
Theorem selected_model_belongs_to_provider (s : AppSettings.Settings) :
  AppSettings.Reachable s ->
  exists m,
    In m (AppSettings.AI_MODELS (AppSettings.provider s)) /\
    AppSettings.id m = AppSettings.selectedModel s.
Proof.
  intro Hreach. induction Hreach as [|s s' _ _ Hstep].
  - eexists. split; [left; reflexivity | reflexivity].
  - destruct Hstep as [s newProvider | s m Hin].
    + destruct newProvider; eexists; (split; [left; reflexivity | reflexivity]).
    + exists m. split; [exact Hin | reflexivity].
Qed.

(** X8 after a change to OpenAI and the choice of its third model. *)
Lemma selected_model_belongs_to_provider_example :
  exists m,
    In m (AppSettings.AI_MODELS openai) /\ AppSettings.id m = "gpt-4-turbo"%string.
Proof.
  apply (selected_model_belongs_to_provider
           (AppSettings.setSelectedModel "gpt-4-turbo"
              (AppSettings.handleProviderChange openai AppSettings.initial))).
  apply (AppSettings.ReachStep (AppSettings.handleProviderChange openai AppSettings.initial)).
  - apply (AppSettings.ReachStep AppSettings.initial).
    + apply AppSettings.ReachInitial.
    + apply AppSettings.PickProvider.
  - apply (AppSettings.PickModel
             (AppSettings.handleProviderChange openai AppSettings.initial)
             (AppSettings.mkModel "gpt-4-turbo" "GPT-4 Turbo")).
    cbn. tauto.
Defined.

Variable env : Env.

(** The loop only appends to the trace, with the call budget of its
    items. *)
Lemma screening_loop_footprint st items :
  forall i nr ff w,
  exists results manifest evs,
    screening_loop env st i items nr ff w
      = (Returned (nr ++ results, ff ++ manifest), w ++ evs) /\
    (length results + length manifest = length items)%nat /\
    (calls (provider st) evs <= 3 * length items)%nat /\
    calls (other (provider st)) evs = 0%nat.
Proof.
  induction items as [|item rest IH]; intros i nr ff w.
  - exists [], [], []. rewrite !app_nil_r. repeat split. cbn. lia.
  - destruct (screenResume_footprint env item (jdText st) (jd_file_arg st)
                (selectedModel st) (provider st) w) as (evs1 & Hw1 & Hc1 & Ho1).
    destruct (GeminiService.screenResume env item (jdText st) (jd_file_arg st)
                (selectedModel st) (provider st) w) as [[analysis|e] w1] eqn:Hrun;
      cbn [snd] in Hw1; subst w1.
    + rewrite (screening_loop_success _ _ _ _ _ _ _ _ _ _ Hrun).
      destruct (IH (S i) (nr ++ [analysis]) ff (w ++ evs1))
        as (rs & ms & evs & Hloop & Hlen & Hc & Ho).
      exists (analysis :: rs), ms, (evs1 ++ evs).
      rewrite Hloop, <- !app_assoc, !calls_app. cbn [length app].
      repeat split; lia.
    + rewrite (screening_loop_failure _ _ _ _ _ _ _ _ _ _ Hrun).
      destruct (IH (S i) nr (ff ++ [manifest_entry i item e])
                  ((w ++ evs1) ++ [ConsoleError (message e)]))
        as (rs & ms & evs & Hloop & Hlen & Hc & Ho).
      exists rs, (manifest_entry i item e :: ms),
        (evs1 ++ [ConsoleError (message e)] ++ evs).
      rewrite Hloop, <- !app_assoc, !calls_app. cbn [length app].
      assert (Hlog : forall p, calls p [ConsoleError (message e)] = 0%nat)
        by (intros []; reflexivity).
      rewrite !Hlog. repeat split; lia.
Qed.

Lemma handleScreening_preflight_fails st w :
  passes_preflight st = false ->
  exists msg, handleScreening env st w = (Returned (setError (Some msg) st), w).
Proof.
  unfold passes_preflight, handleScreening. intro H.
  destruct (length (resumes st) =? 0)%nat; [eexists; reflexivity|].
  cbn [negb andb] in H. destruct (jdMode st); rewrite H; eexists; reflexivity.
Qed.

(** X9. [handleScreening] never throws, and it only appends to the trace.
    When a check before the loop fails it sets an error and does nothing
    else.  Otherwise it makes at most three calls for each resume, all to
    the selected provider, and ends with the loading flag down in one of two
    states: an error, the results and the view being those of before; or no
    error, the card view on its first page, and a list of new results that
    is not empty and no longer than the list of resumes.  The inputs of the
    run are never changed. *)
Theorem handleScreening_always_settles (st : AppState) (w : World) :
  exists st' evs,
    handleScreening env st w = (Returned st', w ++ evs) /\
    resumes st' = resumes st /\ jdText st' = jdText st /\
    provider st' = provider st /\ selectedModel st' = selectedModel st /\
    (calls (provider st) evs <= 3 * length (resumes st))%nat /\
    calls (other (provider st)) evs = 0%nat /\
    (if passes_preflight st
     then loading st' = false /\
          ((error st' <> None /\ results st' = results st /\ view st' = view st) \/
           (error st' = None /\ results st' <> [] /\
            (length (results st') <= length (resumes st))%nat /\
            view st' = CARD /\ currentPage st' = 1))
     else evs = [] /\ error st' <> None /\ results st' = results st /\
          view st' = view st /\ loading st' = loading st).
Proof.
  destruct (passes_preflight st) eqn:Hpre.
  - rewrite handleScreening_run by exact Hpre.
    destruct (screening_loop_footprint (started st) (resumes st) 0%nat [] [] w)
      as (rs & ms & evs & Hloop & Hlen & Hc & Ho).
    cbn [app] in Hloop. unfold bind. rewrite Hloop. cbn [fst snd].
    change (provider (started st)) with (provider st) in *.
    destruct rs as [|r rs].
    + destruct ms as [|m ms].
      * apply andb_true_iff in Hpre. destruct Hpre as [Hn _].
        apply negb_true_iff, Nat.eqb_neq in Hn. cbn [length] in Hlen. lia.
      * rewrite finalize_all_failed by discriminate.
        eexists. exists evs. split; [reflexivity|].
        repeat split; try assumption. left. repeat split. discriminate.
    + rewrite finalize_some_results by discriminate.
      eexists. exists (evs ++ [SetTimeout 500] ++ alerts ms).
      rewrite <- !app_assoc. split; [reflexivity|].
      assert (Htail : forall p, calls p ([SetTimeout 500] ++ alerts ms) = 0%nat).
      { intros p. destruct ms, p; reflexivity. }
      rewrite !(calls_app _ evs), !Htail.
      repeat split; try lia. right. repeat split.
      * discriminate.
      * cbn [results setView setLoading setCurrentPage setResults]. lia.
  - destruct (handleScreening_preflight_fails st w Hpre) as (msg & Hrun).
    rewrite Hrun. eexists. exists []. rewrite app_nil_r. split; [reflexivity|].
    repeat split; try (cbn; lia). discriminate.
Qed.

(** X10. The loop over a list of resumes is the loop over its first part
    followed by the loop over the rest, which starts at the index, with the
    results, the manifest and the trace that the first part ended with: the
    results and the manifest of a batch are those of its parts, in the order
    of the resumes. *)
Theorem screening_loop_composes (st : AppState) (first rest : list FileInput) :
  forall (i : nat) (nr : list json) (ff : list string) (w : World),
  exists results manifest w1,
    screening_loop env st i first nr ff w = (Returned (results, manifest), w1) /\
    screening_loop env st i (first ++ rest) nr ff w
    = screening_loop env st (i + length first) rest results manifest w1.
Proof.
  induction first as [|item first IH]; intros i nr ff w.
  - exists nr, ff, w. cbn. rewrite Nat.add_0_r. split; reflexivity.
  - cbn [app length].
    destruct (GeminiService.screenResume env item (jdText st) (jd_file_arg st)
                (selectedModel st) (provider st) w) as [[analysis|e] w1] eqn:Hrun.
    + rewrite !(screening_loop_success _ _ _ _ _ _ _ _ _ _ Hrun).
      destruct (IH (S i) (nr ++ [analysis]) ff w1) as (rs & ms & w2 & H1 & H2).
      exists rs, ms, w2. rewrite H1, H2. split; [reflexivity|].
      f_equal. lia.
    + rewrite !(screening_loop_failure _ _ _ _ _ _ _ _ _ _ Hrun).
      destruct (IH (S i) nr (ff ++ [manifest_entry i item e])
                  (w1 ++ [ConsoleError (message e)])) as (rs & ms & w2 & H1 & H2).
      exists rs, ms, w2. rewrite H1, H2. split; [reflexivity|].
      f_equal. lia.
Qed.

End SettingsAndBatch.

(** ** Pages, and the removal of an item *)

Section Pages.

Import Types App PageSpec.
Local Open Scope list_scope.

Context {A : Type}.

Lemma relative_index_nat (len k : nat) :
  JsArray.relative_index len (Z.of_nat k) = Nat.min k len.
Proof.
  unfold JsArray.relative_index.
  destruct (Z.of_nat k <? 0) eqn:Hneg; [apply Z.ltb_lt in Hneg; lia|]. lia.
Qed.

Lemma relative_index_negative (len : nat) (k : Z) :
  k + Z.of_nat len <= 0 -> JsArray.relative_index len k = 0%nat.
Proof.
  intro H. unfold JsArray.relative_index.
  destruct (k <? 0) eqn:Hneg; [lia|]. apply Z.ltb_ge in Hneg. lia.
Qed.

Lemma firstn_skipn_window (l : list A) (a b : nat) :
  firstn (Nat.min b (length l) - Nat.min a (length l)) (skipn (Nat.min a (length l)) l)
  = firstn (b - a) (skipn a l).
Proof.
  destruct (Nat.le_gt_cases (length l) a) as [Ha|Ha].
  - rewrite (Nat.min_r a) by exact Ha.
    rewrite !skipn_all2 by lia. now rewrite !firstn_nil.
  - rewrite (Nat.min_l a) by lia.
    destruct (Nat.le_gt_cases b (length l)) as [Hb|Hb].
    + now rewrite (Nat.min_l b) by exact Hb.
    + rewrite (Nat.min_r b) by lia.
      rewrite !firstn_all2; try reflexivity; rewrite length_skipn; lia.
Qed.

(** A window between two positions that are not negative. *)
Lemma slice_window (l : list A) (a b : nat) :
  JsArray.slice (Z.of_nat a) (Z.of_nat b) l = firstn (b - a) (skipn a l).
Proof.
  unfold JsArray.slice. rewrite !relative_index_nat. apply firstn_skipn_window.
Qed.

Lemma firstn_chunk (l : list A) (a s : nat) :
  firstn a l ++ firstn s (skipn a l) = firstn (a + s) l.
Proof.
  revert l. induction a as [|a IH]; intro l; [reflexivity|].
  destruct l as [|x l]; [now rewrite !firstn_nil|].
  cbn [firstn skipn Nat.add app]. now rewrite IH.
Qed.

Lemma concat_windows (s : nat) (l : list A) (n : nat) :
  concat (map (window s l) (seq 1 n)) = firstn (n * s) l.
Proof.
  induction n as [|n IH]; [reflexivity|].
  rewrite seq_S, map_app, concat_app, IH. cbn [map concat Nat.add].
  rewrite app_nil_r. unfold window.
  replace (S n - 1)%nat with n by lia.
  rewrite firstn_chunk. f_equal. lia.
Qed.

Lemma window_length (s : nat) (l : list A) (p : nat) :
  length (window s l p) = Nat.min s (length l - (p - 1) * s).
Proof. unfold window. now rewrite length_firstn, length_skipn. Qed.

Lemma window_nth (s : nat) (l : list A) (p k : nat) (r : A) :
  nth_error (window s l p) k = Some r ->
  nth_error l ((p - 1) * s + k) = Some r.
Proof.
  unfold window. intro H.
  assert (Hk : (k < s)%nat).
  { apply Nat.nlt_ge. intro Hge. rewrite nth_error_firstn in H.
    destruct (k <? s)%nat eqn:E; [apply Nat.ltb_lt in E; lia | discriminate]. }
  rewrite nth_error_firstn in H.
  destruct (k <? s)%nat; [|discriminate].
  now rewrite nth_error_skipn in H.
Qed.

Lemma slice_page (s : nat) (l : list A) (p : nat) :
  (1 <= p)%nat ->
  JsArray.slice ((Z.of_nat p - 1) * Z.of_nat s) (Z.of_nat p * Z.of_nat s) l
  = window s l p.
Proof.
  intro Hp. unfold window.
  destruct p as [|p]; [lia|].
  replace ((Z.of_nat (S p) - 1) * Z.of_nat s) with (Z.of_nat (p * s)) by nia.
  replace (Z.of_nat (S p) * Z.of_nat s) with (Z.of_nat (p * s + s)) by nia.
  rewrite slice_window. cbn [Nat.sub]. rewrite Nat.sub_0_r. f_equal. lia.
Qed.

Lemma ceil_div_bounds (n d : Z) :
  0 <= n -> 0 < d ->
  0 <= JsArray.Math_ceil_div n d /\
  n <= JsArray.Math_ceil_div n d * d /\
  (JsArray.Math_ceil_div n d - 1) * d < n.
Proof.
  intros Hn Hd. unfold JsArray.Math_ceil_div.
  pose proof (Z.div_mod (n + d - 1) d ltac:(lia)) as Hdiv.
  pose proof (Z.mod_pos_bound (n + d - 1) d Hd) as Hmod.
  assert (0 <= (n + d - 1) / d) by (apply Z.div_pos; lia).
  repeat split; nia.
Qed.

Lemma currentResults_window (l : list A) (p : nat) :
  (1 <= p)%nat ->
  AppView.currentResults l (Z.of_nat p) = window 6 l p.
Proof.
  intro Hp. unfold AppView.currentResults, AppView.indexOfFirstItem,
    AppView.indexOfLastItem, AppView.itemsPerPage, window.
  replace (Z.of_nat p * 6 - 6) with (Z.of_nat ((p - 1) * 6)) by lia.
  replace (Z.of_nat p * 6) with (Z.of_nat (p * 6)) by lia.
  rewrite slice_window. f_equal. lia.
Qed.

Lemma totalPages_bounds (l : list A) :
  let n := Z.of_nat (length l) in
  0 <= AppView.totalPages l /\
  n <= AppView.totalPages l * 6 /\
  (AppView.totalPages l - 1) * 6 < n.
Proof.
  unfold AppView.totalPages, JsArray.Math_ceil_div, AppView.itemsPerPage. cbv zeta.
  set (n := Z.of_nat (length l)).
  assert (Hn : 0 <= n) by (subst n; lia).
  pose proof (Z.div_mod (n + 6 - 1) 6 ltac:(lia)) as Hdiv.
  pose proof (Z.mod_pos_bound (n + 6 - 1) 6 ltac:(lia)) as Hmod.
  repeat split; lia.
Qed.

Lemma card_index (results : list A) (p : Z) (k : nat) (r : A) :
  1 <= p ->
  nth_error (AppView.currentResults results p) k = Some r ->
  0 <= AppView.globalIndex p k /\
  nth_error results (Z.to_nat (AppView.globalIndex p k)) = Some r.
Proof.
  intros Hp Hnth. unfold AppView.globalIndex, AppView.indexOfFirstItem,
    AppView.indexOfLastItem, AppView.itemsPerPage.
  split; [lia|].
  replace p with (Z.of_nat (Z.to_nat p)) in Hnth by lia.
  rewrite currentResults_window in Hnth by lia.
  apply window_nth in Hnth.
  replace (Z.to_nat (p * 6 - 6 + Z.of_nat k)) with ((Z.to_nat p - 1) * 6 + k)%nat by lia.
  exact Hnth.
Qed.

(** X11. The pages of cards cut the results in runs of six.  Put one after
    the other, the pages from 1 to [totalPages] give the results, each once
    and in order; each of these pages holds between one and six cards; a
    page after the last holds none; and the index that a card of a page
    hands to its buttons is the position, in the results, of the result that
    the card shows. *)
Theorem pages_partition_results (results : list A) :
  concat (map (fun p => AppView.currentResults results (Z.of_nat p))
            (seq 1 (Z.to_nat (AppView.totalPages results)))) = results /\
  (forall p, 1 <= p <= AppView.totalPages results ->
             (1 <= length (AppView.currentResults results p) <= 6)%nat) /\
  (forall p, 1 <= p -> AppView.totalPages results < p ->
             AppView.currentResults results p = []) /\
  (forall p k r, 1 <= p ->
                 nth_error (AppView.currentResults results p) k = Some r ->
                 0 <= AppView.globalIndex p k /\
                 nth_error results (Z.to_nat (AppView.globalIndex p k)) = Some r).
Proof.
  destruct (totalPages_bounds results) as (Hpos & Hup & Hlow).
  split; [|split; [|split]].
  - rewrite (map_ext_in _ (window 6 results)).
    + rewrite concat_windows. apply firstn_all2. lia.
    + intros p Hp. apply in_seq in Hp. apply currentResults_window. lia.
  - intros p Hp. replace p with (Z.of_nat (Z.to_nat p)) by lia.
    rewrite currentResults_window by lia. rewrite window_length.
    lia.
  - intros p Hp Hlast. replace p with (Z.of_nat (Z.to_nat p)) by lia.
    rewrite currentResults_window by lia.
    apply length_zero_iff_nil. rewrite window_length. lia.
  - intros p k r. apply card_index.
Qed.

Lemma filter_indexed_remove (l : list A) (index : Z) :
  forall start,
    JsArray.filter_indexed (fun _ i => negb (Z.of_nat i =? index)) start l
    = if (Z.of_nat start <=? index) && (index <? Z.of_nat (start + length l))
      then without (Z.to_nat index - start) l
      else l.
Proof.
  induction l as [|x l IH]; intro start.
  - cbn [JsArray.filter_indexed length]. unfold without.
    destruct ((Z.of_nat start <=? index) && (index <? Z.of_nat (start + 0)));
      [|reflexivity].
    now rewrite firstn_nil, skipn_nil.
  - cbn [JsArray.filter_indexed]. rewrite IH. cbn [length].
    destruct (Z.of_nat start =? index) eqn:Heq; cbn [negb].
    + apply Z.eqb_eq in Heq.
      assert (Hout : (Z.of_nat (S start) <=? index) = false) by (apply Z.leb_gt; lia).
      rewrite Hout. cbn [andb].
      assert (Hin : (Z.of_nat start <=? index) && (index <? Z.of_nat (start + S (length l)))
                    = true).
      { apply andb_true_iff. split; [apply Z.leb_le | apply Z.ltb_lt]; lia. }
      rewrite Hin. unfold without.
      replace (Z.to_nat index - start)%nat with 0%nat by lia. reflexivity.
    + apply Z.eqb_neq in Heq.
      destruct ((Z.of_nat (S start) <=? index)
                && (index <? Z.of_nat (S start + length l))) eqn:Hrest.
      * apply andb_true_iff in Hrest. destruct Hrest as [H1 H2].
        apply Z.leb_le in H1. apply Z.ltb_lt in H2.
        assert (Hin : (Z.of_nat start <=? index) && (index <? Z.of_nat (start + S (length l)))
                      = true).
        { apply andb_true_iff. split; [apply Z.leb_le | apply Z.ltb_lt]; lia. }
        rewrite Hin. unfold without.
        replace (Z.to_nat index - start)%nat with (S (Z.to_nat index - S start)) by lia.
        reflexivity.
      * assert (Hout : (Z.of_nat start <=? index)
                       && (index <? Z.of_nat (start + S (length l))) = false).
        { apply andb_false_iff. apply andb_false_iff in Hrest.
          destruct Hrest as [H|H]; [left; apply Z.leb_gt in H; apply Z.leb_gt
                                   | right; apply Z.ltb_ge in H; apply Z.ltb_ge]; lia. }
        now rewrite Hout.
Qed.

Lemma remove_at_inside (l : list A) (index : Z) :
  0 <= index < Z.of_nat (length l) ->
  JsArray.remove_at index l = without (Z.to_nat index) l /\
  S (length (JsArray.remove_at index l)) = length l.
Proof.
  intros [Hlo Hhi]. unfold JsArray.remove_at. rewrite filter_indexed_remove.
  cbn [Nat.add].
  assert (Hin : (Z.of_nat 0 <=? index) && (index <? Z.of_nat (length l)) = true).
  { apply andb_true_iff. split; [apply Z.leb_le | apply Z.ltb_lt]; lia. }
  rewrite Hin, Nat.sub_0_r. split; [reflexivity|].
  unfold without. rewrite length_app, length_firstn, length_skipn. lia.
Qed.

(** X12. The filter of [handleRemoveResume] and of [handleReject] removes
    the item at the index and nothing else: the items before it and the
    items after it stay, in order, and the list is one shorter.  An index
    that is negative or beyond the end leaves the list as it is. *)
Theorem remove_at_removes_one (l : list A) (index : Z) :
  (0 <= index < Z.of_nat (length l) ->
   JsArray.remove_at index l = without (Z.to_nat index) l /\
   S (length (JsArray.remove_at index l)) = length l) /\
  (index < 0 \/ Z.of_nat (length l) <= index -> JsArray.remove_at index l = l).
Proof.
  split; [apply remove_at_inside|].
  intro Hout. unfold JsArray.remove_at. rewrite filter_indexed_remove. cbn [Nat.add].
  assert (Hno : (Z.of_nat 0 <=? index) && (index <? Z.of_nat (length l)) = false).
  { apply andb_false_iff.
    destruct Hout; [left; apply Z.leb_gt | right; apply Z.ltb_ge]; lia. }
  now rewrite Hno.
Qed.

Lemma handleReject_results (c : AppView.Cards A) (index : Z) :
  AppView.results (AppView.handleReject true index c)
  = JsArray.remove_at index (AppView.results c) /\
  AppView.currentPage (AppView.handleReject true index c) = AppView.currentPage c.
Proof.
  unfold AppView.handleReject.
  destruct (AppView.is_detail (AppView.view c)
            && AppView.is_index (AppView.selectedResultIndex c) index);
    split; reflexivity.
Qed.

(** X13. To reject a card is to remove the result that the card shows.
    After the confirmation, the results are those of before without the one
    at the index of the card, which is the result of the card; the detail
    view of that very result closes to the card view; without the
    confirmation nothing changes. *)
Theorem reject_removes_the_card (c : AppView.Cards A) (p : Z) (k : nat) (r : A) :
  1 <= p ->
  nth_error (AppView.currentResults (AppView.results c) p) k = Some r ->
  let index := AppView.globalIndex p k in
  nth_error (AppView.results c) (Z.to_nat index) = Some r /\
  AppView.results (AppView.handleReject true index c)
    = without (Z.to_nat index) (AppView.results c) /\
  S (length (AppView.results (AppView.handleReject true index c)))
    = length (AppView.results c) /\
  (AppView.view c = DETAIL -> AppView.selectedResultIndex c = Some index ->
   AppView.view (AppView.handleReject true index c) = CARD /\
   AppView.selectedResultIndex (AppView.handleReject true index c) = None) /\
  AppView.handleReject false index c = c.
Proof.
  intros Hp Hnth index.
  destruct (card_index (AppView.results c) p k r Hp Hnth) as [Hpos Hr].
  fold index in Hpos, Hr.
  assert (Hlen : index < Z.of_nat (length (AppView.results c))).
  { assert (Z.to_nat index < length (AppView.results c))%nat
      by (apply nth_error_Some; congruence). lia. }
  destruct (remove_at_inside (AppView.results c) index (conj Hpos Hlen)) as [Heq Hshort].
  destruct (handleReject_results c index) as [Hresults _].
  split; [exact Hr|]. split; [now rewrite Hresults|]. split; [now rewrite Hresults|].
  split; [|reflexivity].
  intros Hview Hselected. unfold AppView.handleReject. rewrite Hview, Hselected.
  cbn. now rewrite Z.eqb_refl.
Qed.

(** X24. The rejection leaves the page number as it is.  When the last
    page holds one card and that card is rejected from it, there is one
    page less, and the page shown, which is now after the last, holds no
    card although results remain. *)
Theorem reject_leaves_the_page_behind (c : AppView.Cards A) (p : Z) :
  2 <= p ->
  AppView.currentPage c = p ->
  Z.of_nat (length (AppView.results c)) = 6 * (p - 1) + 1 ->
  let rejected := AppView.handleReject true (AppView.globalIndex p 0) c in
  AppView.totalPages (AppView.results c) = p /\
  length (AppView.currentResults (AppView.results c) p) = 1%nat /\
  AppView.currentPage rejected = p /\
  AppView.totalPages (AppView.results rejected) = p - 1 /\
  AppView.results rejected <> [] /\
  AppView.currentResults (AppView.results rejected) (AppView.currentPage rejected) = [].
Proof.
  intros Hp Hpage Hlen rejected.
  destruct (handleReject_results c (AppView.globalIndex p 0)) as [Hresults Hsame].
  fold rejected in Hresults, Hsame.
  assert (Hindex : AppView.globalIndex p 0 = 6 * (p - 1)).
  { unfold AppView.globalIndex, AppView.indexOfFirstItem, AppView.indexOfLastItem,
      AppView.itemsPerPage. lia. }
  destruct (remove_at_inside (AppView.results c) (AppView.globalIndex p 0)
              ltac:(lia)) as [_ Hshort].
  rewrite <- Hresults in Hshort.
  destruct (totalPages_bounds (AppView.results c)) as (_ & Hup & Hlow).
  destruct (totalPages_bounds (AppView.results rejected)) as (_ & Hup' & Hlow').
  cbv zeta in Hup, Hlow, Hup', Hlow'.
  assert (Htotal : AppView.totalPages (AppView.results c) = p) by lia.
  assert (Htotal' : AppView.totalPages (AppView.results rejected) = p - 1) by lia.
  split; [exact Htotal|]. split.
  { replace p with (Z.of_nat (Z.to_nat p)) by lia.
    rewrite currentResults_window by lia. rewrite window_length. lia. }
  split; [now rewrite Hsame|]. split; [exact Htotal'|]. split.
  { intro Hnil. rewrite Hnil in Hshort. cbn in Hshort. lia. }
  rewrite Hsame, Hpage. replace p with (Z.of_nat (Z.to_nat p)) by lia.
  rewrite currentResults_window by lia.
  apply length_zero_iff_nil. rewrite window_length. lia.
Qed.

End Pages.

Section PagesExamples.

Import Types App PageSpec.
Local Open Scope list_scope.

(** X13 on the second of two cards. *)
Lemma reject_removes_the_card_example :
  nth_error (AppView.results MoreSamples.two_cards) 1 = Some MoreSamples.grace /\
  AppView.results (AppView.handleReject true 1 MoreSamples.two_cards)
  = [content Samples.ada].
Proof.
  destruct (reject_removes_the_card MoreSamples.two_cards 1 1 MoreSamples.grace)
    as (Hcard & Hresults & _); [lia | reflexivity |].
  split; [exact Hcard | exact Hresults].
Defined.

(** X24 on seven results, the one card of the second page being
    rejected. *)
Lemma reject_leaves_the_page_behind_example :
  AppView.totalPages (AppView.results MoreSamples.seven_cards) = 2 /\
  length (AppView.currentResults (AppView.results MoreSamples.seven_cards) 2) = 1%nat /\
  AppView.currentPage (AppView.handleReject true 6 MoreSamples.seven_cards) = 2 /\
  AppView.totalPages (AppView.results (AppView.handleReject true 6 MoreSamples.seven_cards))
  = 2 - 1 /\
  AppView.results (AppView.handleReject true 6 MoreSamples.seven_cards) <> [] /\
  AppView.currentResults
    (AppView.results (AppView.handleReject true 6 MoreSamples.seven_cards))
    (AppView.currentPage (AppView.handleReject true 6 MoreSamples.seven_cards)) = [].
Proof.
  apply (reject_leaves_the_page_behind MoreSamples.seven_cards 2);
    [lia | reflexivity | reflexivity].
Defined.

End PagesExamples.

Section Ranking.

Import Types BatchSummary RankingSpec PageSpec.
Local Open Scope list_scope.

Lemma map_indexed_index {A B} (f : A -> nat -> B) (l : list A) :
  forall start k, nth_error (JsArray.map_indexed f start l) k
                  = option_map (fun x => f x (start + k)%nat) (nth_error l k).
Proof.
  induction l as [|x l IH]; intros start k.
  - now destruct k.
  - destruct k as [|k]; cbn.
    + now rewrite Nat.add_0_r.
    + rewrite IH. now replace (S start + k)%nat with (start + S k)%nat by lia.
Qed.

Lemma indexed_from (l : list ScreeningResult) :
  forall start,
    map originalIndex (JsArray.map_indexed mkRanked start l) = seq start (length l) /\
    (forall e, In e (JsArray.map_indexed mkRanked start l) ->
               (start <= originalIndex e)%nat /\
               nth_error l (originalIndex e - start) = Some (result e)).
Proof.
  induction l as [|x l IH]; intro start.
  - split; [reflexivity | intros e []].
  - destruct (IH (S start)) as [Hidx Hin]. split.
    + cbn. now rewrite Hidx.
    + intros e [He|He].
      * subst e. cbn. now rewrite Nat.sub_diag.
      * destruct (Hin e He) as [Hle Hnth]. split; [lia|].
        replace (originalIndex e - start)%nat with (S (originalIndex e - S start)) by lia.
        exact Hnth.
Qed.

Lemma insert_perm {A} (before : A -> A -> bool) (x : A) (l : list A) :
  Permutation (JsArray.insert before x l) (x :: l).
Proof.
  induction l as [|y l IH]; cbn; [reflexivity|].
  destruct (before y x); [|reflexivity].
  rewrite IH. apply perm_swap.
Qed.

Lemma sort_perm {A} (before : A -> A -> bool) (l : list A) :
  Permutation (JsArray.sort before l) l.
Proof.
  induction l as [|x l IH]; cbn; [reflexivity|].
  rewrite insert_perm. now constructor.
Qed.

Lemma compare_negative_true (a b : Ranked) :
  compare_negative a b = true <-> (score b < score a)%Q.
Proof.
  unfold compare_negative. rewrite negb_true_iff.
  split.
  - intro H. apply Qnot_le_lt. intro Hle. apply Qle_bool_iff in Hle. congruence.
  - intro H. destruct (Qle_bool (score a) (score b)) eqn:E; [|reflexivity].
    apply Qle_bool_iff in E. exfalso. exact (Qlt_not_le _ _ H E).
Qed.

Lemma compare_negative_false (a b : Ranked) :
  compare_negative a b = false <-> (score a <= score b)%Q.
Proof.
  unfold compare_negative. rewrite negb_false_iff. apply Qle_bool_iff.
Qed.

Lemma insert_ranked (x : Ranked) (l : list Ranked) :
  StronglySorted ranks_before l ->
  Forall (fun y => (originalIndex x < originalIndex y)%nat) l ->
  StronglySorted ranks_before (JsArray.insert compare_negative x l).
Proof.
  induction l as [|y l IH]; intros Hsorted Hlater; cbn.
  - repeat constructor.
  - apply StronglySorted_inv in Hsorted. destruct Hsorted as [Hl Hy].
    apply Forall_cons_iff in Hlater. destruct Hlater as [Hxy Hxl].
    destruct (compare_negative y x) eqn:E.
    + apply compare_negative_true in E. constructor.
      * now apply IH.
      * apply (Permutation_Forall (Permutation_sym (insert_perm compare_negative x l))).
        constructor; [|exact Hy].
        split; [now apply Qlt_le_weak|].
        intro Heq. rewrite Heq in E. exfalso. exact (Qlt_irrefl _ E).
    + apply compare_negative_false in E. constructor.
      * now constructor.
      * constructor.
        -- split; [exact E | intros _; exact Hxy].
        -- rewrite Forall_forall in *. intros z Hz.
           destruct (Hy z Hz) as [Hzy _]. split.
           ++ now apply Qle_trans with (score y).
           ++ intros _. now apply Hxl.
Qed.

Lemma sort_ranked (l : list Ranked) :
  StronglySorted lt (map originalIndex l) ->
  StronglySorted ranks_before (JsArray.sort compare_negative l).
Proof.
  induction l as [|x l IH]; intro Hidx; cbn.
  - constructor.
  - cbn in Hidx. apply StronglySorted_inv in Hidx. destruct Hidx as [Hl Hx].
    apply insert_ranked; [now apply IH|].
    apply (Permutation_Forall (Permutation_sym (sort_perm compare_negative l))).
    rewrite Forall_map in Hx. exact Hx.
Qed.

Lemma seq_sorted (len : nat) : forall start, StronglySorted lt (seq start len).
Proof.
  induction len as [|len IH]; intro start; cbn; constructor.
  - apply IH.
  - apply Forall_forall. intros k Hk. apply in_seq in Hk. lia.
Qed.

(** X14. The ranking of the summary.  The sorted table holds every result
    once, each with the index that it has in the results, so that the
    details button of a row opens the result of the row; the scores never
    go up along the table, and results of equal score keep the order of the
    results; the top candidate is a result of the highest score, and there
    is one unless there is no result. *)
Theorem ranking_orders_every_result (results : list ScreeningResult) :
  Permutation (map originalIndex (sortedResults results)) (seq 0 (length results)) /\
  (forall e, In e (sortedResults results) ->
             nth_error results (originalIndex e) = Some (result e)) /\
  StronglySorted ranks_before (sortedResults results) /\
  match bestMatch results with
  | Some best =>
      nth_error results (originalIndex best) = Some (result best) /\
      forall r, In r results -> (overallMatchScore r <= score best)%Q
  | None => results = []
  end.
Proof.
  destruct (indexed_from results 0) as [Hidx Hin].
  assert (Hperm : Permutation (sortedResults results) (indexed results))
    by apply sort_perm.
  assert (Hnth : forall e, In e (sortedResults results) ->
                           nth_error results (originalIndex e) = Some (result e)).
  { intros e He. apply (Permutation_in _ Hperm) in He.
    destruct (Hin e He) as [_ H]. now rewrite Nat.sub_0_r in H. }
  assert (Hsorted : StronglySorted ranks_before (sortedResults results)).
  { apply sort_ranked. fold (indexed results). unfold indexed. rewrite Hidx.
    apply seq_sorted. }
  split; [|split; [|split]]; try assumption.
  - rewrite <- Hidx. now apply Permutation_map.
  - unfold bestMatch. destruct (sortedResults results) as [|best rest] eqn:Hs; cbn.
    + apply Permutation_nil in Hperm. unfold indexed in Hperm.
      destruct results; [reflexivity | discriminate].
    + split; [apply Hnth; now left|].
      intros r Hr. apply In_nth_error in Hr. destruct Hr as [k Hk].
      assert (He : In (mkRanked r k) (indexed results)).
      { apply nth_error_In with k. unfold indexed. rewrite map_indexed_index, Hk.
        reflexivity. }
      apply Permutation_sym in Hperm. apply (Permutation_in _ Hperm) in He.
      destruct He as [He|He].
      * subst best. apply Qle_refl.
      * apply StronglySorted_inv in Hsorted. destruct Hsorted as [_ Hbest].
        rewrite Forall_forall in Hbest. now destruct (Hbest _ He).
Qed.

(** X15. The pages of the ranking cut the sorted table in runs of five:
    put one after the other, the pages from 1 to [totalPages] give the
    sorted table; each of these pages holds between one and five rows; the
    rank written in a row is the position of the row in the sorted table,
    counted from one; and the two buttons, which show when there is more
    than one page, keep the page between 1 and [totalPages]. *)
Theorem ranking_pages_partition (results : list ScreeningResult) :
  concat (map (fun p => paginatedResults results (Z.of_nat p))
            (seq 1 (Z.to_nat (totalPages results)))) = sortedResults results /\
  (forall p, 1 <= p <= totalPages results ->
             (1 <= length (paginatedResults results p) <= 5)%nat) /\
  (forall p idx e, 1 <= p ->
                   nth_error (paginatedResults results p) idx = Some e ->
                   1 <= rank p idx /\
                   nth_error (sortedResults results) (Z.to_nat (rank p idx - 1)) = Some e) /\
  (forall p, 1 < totalPages results -> 1 <= p <= totalPages results ->
             1 <= previous p <= totalPages results /\
             1 <= next results p <= totalPages results).
Proof.
  assert (Hpage : forall p : nat, (1 <= p)%nat ->
                    paginatedResults results (Z.of_nat p)
                    = window 5 (sortedResults results) p).
  { intros p Hp. unfold paginatedResults, itemsPerPage.
    exact (slice_page 5 (sortedResults results) p Hp). }
  assert (Hbounds : 0 <= totalPages results /\
                    Z.of_nat (length (sortedResults results)) <= totalPages results * 5 /\
                    (totalPages results - 1) * 5
                    < Z.of_nat (length (sortedResults results)))
    by (apply ceil_div_bounds; lia).
  destruct Hbounds as (Hpos & Hup & Hlow).
  split; [|split; [|split]].
  - rewrite (map_ext_in _ (window 5 (sortedResults results))).
    + rewrite concat_windows. apply firstn_all2. lia.
    + intros p Hp. apply in_seq in Hp. apply Hpage. lia.
  - intros p Hp. replace p with (Z.of_nat (Z.to_nat p)) by lia.
    rewrite Hpage by lia. rewrite window_length. lia.
  - intros p idx e Hp Hnth. unfold rank, itemsPerPage. split; [lia|].
    replace p with (Z.of_nat (Z.to_nat p)) in Hnth by lia.
    rewrite Hpage in Hnth by lia. apply window_nth in Hnth.
    replace (Z.to_nat ((p - 1) * 5 + Z.of_nat idx + 1 - 1))
      with ((Z.to_nat p - 1) * 5 + idx)%nat by lia.
    exact Hnth.
  - intros p Hmany Hp. unfold previous, next. lia.
Qed.

Lemma filter_none {A} (f : A -> bool) (l : list A) :
  (forall x, In x l -> f x = false) -> filter f l = [].
Proof.
  induction l as [|x l IH]; intro Hall; [reflexivity|].
  cbn. rewrite (Hall x (or_introl eq_refl)). apply IH.
  intros y Hy. apply Hall. now right.
Qed.

Lemma recommended_counts (results : list ScreeningResult) :
  (recommended "Strong Match" results + recommended "Potential Match" results
   + recommended "Weak Match" results + recommended "Not a Match" results
   + length (filter (fun r => negb (counted (recommendation r))) results)
   = length results)%nat.
Proof.
  unfold recommended. induction results as [|r results IH]; [reflexivity|].
  cbn [filter]. generalize dependent (recommendation r). intros label.
  unfold counted at 1.
  destruct (String.eqb label "Strong Match") eqn:E1.
  { apply String.eqb_eq in E1. subst label. cbn. lia. }
  destruct (String.eqb label "Potential Match") eqn:E2.
  { apply String.eqb_eq in E2. subst label. cbn. lia. }
  destruct (String.eqb label "Weak Match") eqn:E3.
  { apply String.eqb_eq in E3. subst label. cbn. lia. }
  destruct (String.eqb label "Not a Match") eqn:E4.
  { apply String.eqb_eq in E4. subst label. cbn. lia. }
  cbn. lia.
Qed.

(** X16. The four counts of the distribution never count a result twice,
    and they leave out the results whose recommendation is none of the four
    labels: the counts add up to the number of results less the number of
    such results, so they add up to the total exactly when every
    recommendation is one of the four. *)
Theorem distribution_counts_known_labels (results : list ScreeningResult) :
  let d := distribution results in
  let others := filter (fun r => negb (counted (recommendation r))) results in
  (strong d + potential d + weak d + noMatch d + length others = length results)%nat /\
  ((strong d + potential d + weak d + noMatch d = length results)%nat <->
   forall r, In r results -> counted (recommendation r) = true).
Proof.
  cbv zeta. unfold distribution. cbn [strong potential weak noMatch].
  pose proof (recommended_counts results) as Hsum.
  split; [exact Hsum|].
  split.
  - intros Hall r Hr.
    destruct (counted (recommendation r)) eqn:E; [reflexivity|].
    assert (Hin : In r (filter (fun r => negb (counted (recommendation r))) results)).
    { apply filter_In. split; [exact Hr | now rewrite E]. }
    destruct (filter (fun r => negb (counted (recommendation r))) results);
      [destruct Hin | cbn in Hsum; lia].
  - intro Hall.
    assert (Hnone : filter (fun r => negb (counted (recommendation r))) results = []).
    { apply filter_none. intros r Hr. now rewrite (Hall r Hr). }
    rewrite Hnone in Hsum. cbn in Hsum. lia.
Qed.

Lemma total_score_integers (lo hi : Z) (results : list ScreeningResult) :
  0 <= lo ->
  (forall r, In r results ->
             exists n, (overallMatchScore r == inject_Z n)%Q /\ lo <= n <= hi) ->
  forall acc,
    0 <= acc -> acc + Z.of_nat (length results) * hi < 2 ^ 53 ->
    exists sum,
      fold_left (fun acc curr => Double.add acc (Double.Finite (overallMatchScore curr)))
        results (Double.Finite (inject_Z acc))
      = Double.Finite (inject_Z sum) /\
      acc + Z.of_nat (length results) * lo <= sum
      <= acc + Z.of_nat (length results) * hi.
Proof.
  intro Hlo. induction results as [|r results IH]; intros Hall acc Hacc Hsmall.
  - exists acc. split; [reflexivity | cbn [length]; lia].
  - destruct (Hall r (or_introl eq_refl)) as (n & Hn & Hrange).
    cbn [fold_left].
    assert (Hstep : Double.add (Double.Finite (inject_Z acc))
                      (Double.Finite (overallMatchScore r))
                    = Double.Finite (inject_Z (acc + n))).
    { unfold Double.add.
      rewrite (round_compat _ (inject_Z (acc + n))).
      - apply round_integer. cbn [length] in Hsmall. nia.
      - rewrite Hn. unfold Qle, Qplus, inject_Z. cbn [Qnum Qden]. lia.
      - rewrite Hn. unfold Qeq, Qplus, inject_Z. cbn [Qnum Qden]. lia. }
    rewrite Hstep.
    destruct (IH (fun x Hx => Hall x (or_intror Hx)) (acc + n)) as (sum & Hsum & Hbounds).
    + lia.
    + cbn [length] in Hsmall. nia.
    + exists sum. split; [exact Hsum|]. cbn [length]. nia.
Qed.

Lemma Math_round_between (lo hi : Z) (v : Q) :
  0 <= lo -> (inject_Z lo <= v)%Q -> (v <= inject_Z hi)%Q ->
  exists a, Double.Math_round (Double.Finite v) = Double.Finite (inject_Z a) /\
            lo <= a <= hi.
Proof.
  intros Hlo0 Hlo Hhi. unfold Double.Math_round.
  assert (Hpos : (Qnum v <? 0) = false).
  { apply Z.ltb_ge. unfold Qle, inject_Z in Hlo. cbn [Qnum Qden] in Hlo. nia. }
  rewrite Hpos, andb_false_r. eexists. split; [reflexivity|]. split.
  - rewrite <- (Qfloor_Z lo). apply Qfloor_resp_le.
    eapply Qle_trans; [exact Hlo|].
    rewrite <- (Qplus_0_r v) at 1. apply Qplus_le_r. discriminate.
  - assert (H : Qfloor (v + (1 # 2)) < hi + 1); [|lia].
    rewrite Zlt_Qlt. eapply Qle_lt_trans; [apply Qfloor_le|].
    rewrite inject_Z_plus.
    apply Qle_lt_trans with (inject_Z hi + (1 # 2))%Q.
    + now apply Qplus_le_l.
    + apply Qplus_lt_r. reflexivity.
Qed.

Lemma div_integers (s t : Z) :
  0 <= s -> 0 < t ->
  Double.div (Double.Finite (inject_Z s)) (Double.Finite (inject_Z t))
  = if s =? 0 then Double.Finite 0 else Double.round (inject_Z s / inject_Z t).
Proof.
  intros Hs Ht. unfold Double.div, Double.is_zero, Double.value, Double.negative.
  change (Qnum (inject_Z s)) with s. change (Qnum (inject_Z t)) with t.
  replace (t =? 0) with false by (symmetry; apply Z.eqb_neq; lia).
  replace (s <? 0) with false by (symmetry; apply Z.ltb_ge; lia).
  replace (t <? 0) with false by (symmetry; apply Z.ltb_ge; lia).
  reflexivity.
Qed.

(** X17. The average shown by the summary lies between the lowest and the
    highest score when the scores are integers small enough for their sum
    to be exact: with integer scores between [lo] and [hi], none negative,
    and a number of results whose product by [hi] is below [2^53], the
    average of a batch that is not empty is an integer between [lo] and
    [hi]; the average of no result is zero. *)
Theorem avgScore_between_scores (results : list ScreeningResult) (lo hi : Z) :
  0 <= lo ->
  Z.of_nat (length results) * hi < 2 ^ 53 ->
  (forall r, In r results ->
             exists n, (overallMatchScore r == inject_Z n)%Q /\ lo <= n <= hi) ->
  (results <> [] ->
   exists a, avgScore results = Double.Finite (inject_Z a) /\ lo <= a <= hi) /\
  (results = [] -> avgScore results = Double.Finite 0).
Proof.
  intros Hlo Hsmall Hall. split; [|intros ->; reflexivity].
  intro Hsome. unfold avgScore.
  assert (Hlen : 0 < Z.of_nat (length results)).
  { destruct results; [congruence | cbn; lia]. }
  destruct (0 <? Z.of_nat (length results)) eqn:E; [|apply Z.ltb_ge in E; lia].
  destruct (total_score_integers lo hi results Hlo Hall 0 ltac:(lia) ltac:(lia))
    as (sum & Hsum & Hbounds).
  unfold total_score. change (Double.Finite 0) with (Double.Finite (inject_Z 0)).
  rewrite Hsum.
  set (total := Z.of_nat (length results)) in *.
  assert (Hhi : lo <= hi).
  { destruct results as [|r rest]; [congruence|].
    destruct (Hall r (or_introl eq_refl)) as (n & _ & Hn). lia. }
  rewrite div_integers by lia.
  destruct (sum =? 0) eqn:Ezero.
  - apply Z.eqb_eq in Ezero. subst sum.
    exists 0. split; [reflexivity|]. nia.
  - apply Z.eqb_neq in Ezero.
    assert (HtQ : (0 < inject_Z total)%Q).
    { change 0%Q with (inject_Z 0). now rewrite <- Zlt_Qlt. }
    destruct (round_between (inject_Z lo) (inject_Z sum / inject_Z total) (inject_Z hi)
                (inject_Z lo) (inject_Z hi)) as (v & Rv & Hvlo & Hvhi).
    + change 0%Q with (inject_Z 0). now rewrite <- Zle_Qle.
    + apply Qle_shift_div_l; [exact HtQ|].
      rewrite <- inject_Z_mult, <- Zle_Qle. lia.
    + apply Qle_shift_div_r; [exact HtQ|].
      rewrite <- inject_Z_mult, <- Zle_Qle. lia.
    + apply round_integer. nia.
    + apply round_integer. nia.
    + rewrite Rv. now apply Math_round_between.
Qed.

(** X17 on two results, of scores 90 and 70. *)
Lemma avgScore_between_scores_example :
  exists a, avgScore [content Samples.ada; MoreSamples.grace]
            = Double.Finite (inject_Z a) /\ 70 <= a <= 90.
Proof.
  destruct (avgScore_between_scores [content Samples.ada; MoreSamples.grace] 70 90)
    as [Hsome _].
  - lia.
  - cbn [length]. lia.
  - intros r [<-|[<-|[]]]; [exists 90 | exists 70]; split; try reflexivity; lia.
  - apply Hsome. discriminate.
Defined.

(** Beyond exact sums the average may leave the range of the scores: three
    scores of 6004799503160666 have the sum 18014398509481998, which is
    18014398509482000 as a Number, and the average 6004799503160667. *)
Lemma avgScore_of_inexact_sum :
  let score := inject_Z 6004799503160666 in
  let r := mkScreeningResult "a" "" "" "" None None "" score "" [] [] [] "" [] [] [] in
  total_score [r; r; r] = Double.Finite (inject_Z 18014398509482000) /\
  avgScore [r; r; r] = Double.Finite (inject_Z 6004799503160667).
Proof. split; vm_compute; reflexivity. Qed.

End Ranking.

Section ShortlistSummary.

Import Types ShortlistView ShortlistExportSpec Csv.
Local Open Scope list_scope.

Lemma unique_members (l : list string) :
  NoDup (JsArray.unique l) /\ forall x, In x (JsArray.unique l) <-> In x l.
Proof.
  induction l as [|x l [IHnd IHin]]; cbn.
  - split; [constructor | tauto].
  - split.
    + constructor.
      * intro Hin. apply filter_In in Hin. destruct Hin as [_ Hne].
        now rewrite String.eqb_refl in Hne.
      * now apply NoDup_filter.
    + intro y. rewrite filter_In, IHin. split.
      * intros [<-|[Hy _]]; [now left | now right].
      * intros [<-|Hy]; [now left|].
        destruct (String.eqb y x) eqn:E.
        -- apply String.eqb_eq in E. now left.
        -- right. now split.
Qed.

Lemma unique_length (l : list string) : (length (JsArray.unique l) <= length l)%nat.
Proof.
  induction l as [|x l IH]; cbn; [lia|].
  pose proof (filter_length_le (fun y => negb (String.eqb y x)) (JsArray.unique l)). lia.
Qed.

(** X19. The roles of the shortlist summary.  The roles counted are the
    roles of the candidates that are not empty, each once, however many
    candidates share it; the count is at most the number of candidates; and
    the roles shown are the first two of them. *)
Theorem rolesDistribution_counts_each_role_once (shortlist : list ScreeningResult) :
  NoDup (uniqueRoles shortlist) /\
  (forall role, In role (uniqueRoles shortlist) <->
                role <> "" /\ exists c, In c shortlist /\ currentRole c = role) /\
  (count (rolesDistribution shortlist) <= length shortlist)%nat /\
  top (rolesDistribution shortlist) = firstn 2 (uniqueRoles shortlist).
Proof.
  destruct (unique_members (roles shortlist)) as [Hnd Hin].
  split; [exact Hnd|]. split; [|split].
  - intro role. unfold uniqueRoles. rewrite Hin. unfold roles.
    rewrite filter_In, in_map_iff. split.
    + intros [[c [Hc Hs]] Ht]. split; [|now exists c].
      intros ->. discriminate.
    + intros [Hne [c [Hs Hc]]]. split; [now exists c|].
      destruct role; [congruence | reflexivity].
  - cbn [count rolesDistribution]. unfold uniqueRoles.
    pose proof (unique_length (roles shortlist)).
    pose proof (filter_length_le JsString.truthy (map currentRole shortlist)).
    unfold roles in *. rewrite length_map in *. lia.
  - cbn [top rolesDistribution].
    change 0 with (Z.of_nat 0). change 2 with (Z.of_nat 2).
    rewrite slice_window. reflexivity.
Qed.

Variable Number_toString : Q -> string.

Lemma replaceAll_quote_free (s by_ : string) :
  quote_free s = true -> JsString.replaceAll TableView.dquote by_ s = s.
Proof.
  unfold quote_free. induction s as [|c s IH]; [reflexivity|].
  cbn. intro H. apply andb_true_iff in H. destruct H as [Hc Hs].
  apply negb_true_iff in Hc. rewrite Hc. now rewrite IH.
Qed.

Lemma enclosed_quoted (s : string) :
  quote_free s = true -> enclosed s = TableView.quoted s.
Proof.
  intro H. unfold enclosed, TableView.quoted. now rewrite replaceAll_quote_free.
Qed.

(** The reader over a bare field, up to the comma after it. *)
Lemma run_bare_rest (t : list ascii) :
  forall cur row rows rest,
    forallb (fun c => negb (Ascii.eqb c TableView.dquote || Ascii.eqb c ","
                            || Ascii.eqb c LF)) t = true ->
    run Unquoted cur row rows (t ++ ","%char :: rest)
    = run FieldStart [] (close_field (rev t ++ cur) row) rows rest.
Proof.
  induction t as [|c t IH]; intros cur row rows rest Ht.
  - reflexivity.
  - cbn [forallb] in Ht. apply andb_true_iff in Ht. destruct Ht as [Hc Ht].
    apply negb_true_iff in Hc. apply orb_false_iff in Hc. destruct Hc as [Hc Hlf].
    apply orb_false_iff in Hc. destruct Hc as [Hq Hcomma].
    cbn [app run]. rewrite Hq, Hcomma, Hlf. rewrite IH by exact Ht.
    cbn [rev]. now rewrite <- app_assoc.
Qed.

Lemma run_bare_field (t : string) row rows rest :
  bare t = true ->
  run FieldStart [] row rows (JsString.chars t ++ ","%char :: rest)
  = run FieldStart [] (t :: row) rows rest.
Proof.
  unfold bare. intro Ht. destruct (JsString.chars t) as [|c l] eqn:Hchars.
  - assert (t = ""%string) as -> by (destruct t; [reflexivity | discriminate]).
    reflexivity.
  - cbn [forallb] in Ht. apply andb_true_iff in Ht. destruct Ht as [Hc Ht].
    apply negb_true_iff in Hc. apply orb_false_iff in Hc. destruct Hc as [Hc Hlf].
    apply orb_false_iff in Hc. destruct Hc as [Hq Hcomma].
    cbn [app run]. rewrite Hq, Hcomma, Hlf. rewrite run_bare_rest by exact Ht.
    unfold close_field. rewrite rev_app_distr, rev_involutive. cbn [rev app].
    rewrite <- Hchars, of_chars_chars. reflexivity.
Qed.

(** One exported row, read from the start of a record. *)
Lemma run_shortlist_row (c : ScreeningResult) rows rest :
  exportable Number_toString c = true ->
  run FieldStart [] [] rows (JsString.chars (row Number_toString c) ++ rest)
  = run QuoteSeen (rev (JsString.chars (recommendation c)))
      [or_empty (phone c); or_empty (email c); candidateExperience c;
       Number_toString (overallMatchScore c); currentRole c; candidateName c]
      rows rest.
Proof.
  unfold exportable. intro H.
  apply andb_true_iff in H. destruct H as [H Hscore].
  apply andb_true_iff in H. destruct H as [H Hrec].
  apply andb_true_iff in H. destruct H as [Hemail Hphone].
  unfold row. rewrite !enclosed_quoted by assumption.
  rewrite join_cons. cbn [CsvSpec.joined_tail fold_right].
  rewrite !chars_app. change (JsString.chars ",") with [","%char].
  change (JsString.chars "") with (@nil ascii).
  rewrite ?app_nil_r, <- ?app_assoc. cbn [app].
  rewrite run_quoted_field, run_comma, close_quoted_field.
  rewrite run_quoted_field, run_comma, close_quoted_field.
  rewrite run_bare_field by exact Hscore.
  rewrite run_quoted_field, run_comma, close_quoted_field.
  rewrite run_quoted_field, run_comma, close_quoted_field.
  rewrite run_quoted_field, run_comma, close_quoted_field.
  rewrite run_quoted_field. reflexivity.
Qed.

Lemma run_shortlist_rows (shortlist : list ScreeningResult) :
  (forall c, In c shortlist -> exportable Number_toString c = true) ->
  forall st cur row rows,
    st = Unquoted \/ st = QuoteSeen ->
    run st cur row rows
      (JsString.chars
         (CsvSpec.joined_tail GeminiService.nl
            (map (ShortlistView.row Number_toString) shortlist)))
    = Some (rev rows ++ [rev (close_field cur row)]
              ++ map (fields Number_toString) shortlist).
Proof.
  induction shortlist as [|c shortlist IH]; intros Hall st cur row rows Hst.
  - cbn [map CsvSpec.joined_tail fold_right JsString.chars list_ascii_of_string run].
    destruct Hst as [-> | ->]; now rewrite rev_close_row.
  - cbn [map CsvSpec.joined_tail fold_right]. rewrite !chars_app.
    change (JsString.chars GeminiService.nl) with [LF]. cbn [app].
    assert (Hstep : forall rest,
               run st cur row rows (LF :: rest)
               = run FieldStart [] [] (close_row cur row rows) rest).
    { intro rest. destruct Hst as [-> | ->]; reflexivity. }
    rewrite Hstep, run_shortlist_row by (apply Hall; now left).
    change (fold_right (fun part acc => (GeminiService.nl ++ part ++ acc)%string) ""%string
              (map (ShortlistView.row Number_toString) shortlist))
      with (CsvSpec.joined_tail GeminiService.nl
              (map (ShortlistView.row Number_toString) shortlist)).
    rewrite IH by (try (right; reflexivity); intros; apply Hall; now right).
    rewrite rev_close_row, close_quoted_field. cbn [rev app fields map].
    rewrite <- !app_assoc. reflexivity.
Qed.

Lemma joined_tail_app (sep : string) (l1 l2 : list string) :
  CsvSpec.joined_tail sep (l1 ++ l2)
  = (CsvSpec.joined_tail sep l1 ++ CsvSpec.joined_tail sep l2)%string.
Proof.
  unfold CsvSpec.joined_tail. induction l1 as [|p l1 IH]; [reflexivity|].
  cbn [app fold_right]. rewrite IH.
  now rewrite !string_append_assoc.
Qed.

(** The reader after the lines of some candidates that can be exported: it
    is at the end of a field, whatever comes next. *)
Lemma run_shortlist_prefix (before : list ScreeningResult) :
  (forall c, In c before -> exportable Number_toString c = true) ->
  forall st cur row rows,
    st = Unquoted \/ st = QuoteSeen ->
    exists st' cur' row' rows',
      (st' = Unquoted \/ st' = QuoteSeen) /\
      forall rest,
        run st cur row rows
          (JsString.chars
             (CsvSpec.joined_tail GeminiService.nl
                (map (ShortlistView.row Number_toString) before)) ++ rest)
        = run st' cur' row' rows' rest.
Proof.
  induction before as [|c before IH]; intros Hall st cur row rows Hst.
  - exists st, cur, row, rows. split; [exact Hst | reflexivity].
  - assert (Hstep : forall rest,
               run st cur row rows (LF :: rest)
               = run FieldStart [] [] (close_row cur row rows) rest).
    { intro rest. destruct Hst as [-> | ->]; reflexivity. }
    destruct (IH (fun x Hx => Hall x (or_intror Hx)) QuoteSeen
                (rev (JsString.chars (recommendation c)))
                [or_empty (phone c); or_empty (email c); candidateExperience c;
                 Number_toString (overallMatchScore c); currentRole c; candidateName c]
                (close_row cur row rows) (or_intror eq_refl))
      as (st' & cur' & row' & rows' & Hst' & Hrun).
    exists st', cur', row', rows'. split; [exact Hst'|]. intro rest.
    cbn [map CsvSpec.joined_tail fold_right]. rewrite !chars_app.
    change (JsString.chars GeminiService.nl) with [LF]. cbn [app].
    rewrite <- !app_assoc.
    rewrite Hstep, run_shortlist_row by (apply Hall; now left).
    apply Hrun.
Qed.

(** The reader inside a quoted field, over a text without a double
    quote. *)
Lemma run_quoted_plain (a : string) :
  quote_free a = true ->
  forall cur row rows rest,
    run Quoted cur row rows (JsString.chars a ++ rest)
    = run Quoted (rev (JsString.chars a) ++ cur) row rows rest.
Proof.
  unfold quote_free. induction a as [|c a IH]; intros Ha cur row rows rest.
  - reflexivity.
  - change (JsString.chars (String c a)) with (c :: JsString.chars a) in *.
    cbn [forallb] in Ha. apply andb_true_iff in Ha. destruct Ha as [Hc Ha].
    apply negb_true_iff in Hc. cbn [app run]. rewrite Hc.
    rewrite IH by exact Ha. cbn [rev]. now rewrite <- app_assoc.
Qed.

(** The line of a candidate whose email has a stray double quote cannot be
    read. *)
Lemma run_stray_quote (c : ScreeningResult) rows rest :
  bare (Number_toString (overallMatchScore c)) = true ->
  stray_quote (or_empty (email c)) ->
  run FieldStart [] [] rows (JsString.chars (row Number_toString c) ++ rest) = None.
Proof.
  intros Hscore (a & c0 & b & Hemail & Ha & Hq & Hcomma & Hlf).
  unfold row. rewrite join_cons. cbn [CsvSpec.joined_tail fold_right].
  rewrite !chars_app. change (JsString.chars ",") with [","%char].
  rewrite <- ?app_assoc. cbn [app].
  rewrite run_quoted_field, run_comma, close_quoted_field.
  rewrite run_quoted_field, run_comma, close_quoted_field.
  rewrite run_bare_field by exact Hscore.
  rewrite run_quoted_field, run_comma, close_quoted_field.
  unfold enclosed at 1. rewrite Hemail. rewrite !chars_app.
  change (JsString.chars TableView.dq) with [TableView.dquote].
  change (JsString.chars (String c0 b)) with (c0 :: JsString.chars b).
  rewrite <- ?app_assoc. cbn [app run]. rewrite Ascii.eqb_refl.
  rewrite run_quoted_plain by exact Ha.
  cbn [run]. rewrite Ascii.eqb_refl. cbn [run]. now rewrite Hq, Hcomma, Hlf.
Qed.

(** X18. The export of the shortlist doubles the double quotes of the
    name, the role and the experience only: the email, the phone and the
    recommendation go between double quotes as they are, and the score goes
    bare.  When these three values hold no double quote and the text of the
    score holds no double quote, comma or line feed, the export read back
    as comma-separated text gives the header and then, for each candidate
    in order, its seven values.  When the email of a candidate has a double
    quote that is followed by another character than a double quote, a
    comma or a line feed, the export cannot be read back at all. *)
Theorem shortlist_export_round_trip (shortlist : list ScreeningResult) :
  (forall c, row Number_toString c = JsString.join "," (cells Number_toString c)) /\
  ((forall c, In c shortlist -> exportable Number_toString c = true) ->
   Csv.parse (csvContent Number_toString shortlist)
   = Some (headers :: map (fields Number_toString) shortlist)) /\
  (forall before c after,
      shortlist = before ++ c :: after ->
      (forall x, In x before -> exportable Number_toString x = true) ->
      bare (Number_toString (overallMatchScore c)) = true ->
      stray_quote (or_empty (email c)) ->
      Csv.parse (csvContent Number_toString shortlist) = None).
Proof.
  split; [reflexivity|]. split.
  - intro Hall. unfold Csv.parse, csvContent.
    rewrite join_cons, chars_app.
    change (run FieldStart [] [] []
              (JsString.chars (JsString.join "," headers)
               ++ JsString.chars (CsvSpec.joined_tail GeminiService.nl
                                    (map (row Number_toString) shortlist))))
      with (run Unquoted (rev (JsString.chars "Recommendation"))
              ["Phone"; "Email"; "Experience"; "Score"; "Role"; "Candidate Name"]%string []
              (JsString.chars (CsvSpec.joined_tail GeminiService.nl
                                 (map (row Number_toString) shortlist)))).
    rewrite run_shortlist_rows by (try (left; reflexivity); exact Hall).
    unfold close_field. reflexivity.
  - intros before c after -> Hbefore Hscore Hstray.
    unfold Csv.parse, csvContent.
    rewrite join_cons, chars_app, map_app, joined_tail_app, chars_app.
    change (run FieldStart [] [] []
              (JsString.chars (JsString.join "," headers)
               ++ JsString.chars (CsvSpec.joined_tail GeminiService.nl
                                    (map (row Number_toString) before))
               ++ JsString.chars (CsvSpec.joined_tail GeminiService.nl
                                    (map (row Number_toString) (c :: after)))))
      with (run Unquoted (rev (JsString.chars "Recommendation"))
              ["Phone"; "Email"; "Experience"; "Score"; "Role"; "Candidate Name"]%string []
              (JsString.chars (CsvSpec.joined_tail GeminiService.nl
                                 (map (row Number_toString) before))
               ++ JsString.chars (CsvSpec.joined_tail GeminiService.nl
                                    (map (row Number_toString) (c :: after))))).
    destruct (run_shortlist_prefix before Hbefore Unquoted
                (rev (JsString.chars "Recommendation"))
                ["Phone"; "Email"; "Experience"; "Score"; "Role"; "Candidate Name"]%string
                [] (or_introl eq_refl))
      as (st' & cur' & row' & rows' & Hst' & Hrun).
    rewrite Hrun.
    cbn [map CsvSpec.joined_tail fold_right]. rewrite !chars_app.
    change (JsString.chars GeminiService.nl) with [LF]. cbn [app].
    assert (Hstep : forall rest,
               run st' cur' row' rows' (LF :: rest)
               = run FieldStart [] [] (close_row cur' row' rows') rest).
    { intro rest. destruct Hst' as [-> | ->]; reflexivity. }
    rewrite Hstep. now apply run_stray_quote.
Qed.

End ShortlistSummary.

Section ShortlistExamples.

Import Types ShortlistView ShortlistExportSpec.
Local Open Scope list_scope.

(** X18 on a shortlist of two, a name holding a comma, and on a shortlist
    whose second candidate has a double quote in the email. *)
Lemma shortlist_export_round_trip_example :
  Csv.parse (csvContent MoreSamples.integer_text [content Samples.ada; MoreSamples.grace])
  = Some (headers
            :: map (fields MoreSamples.integer_text)
                 [content Samples.ada; MoreSamples.grace]) /\
  Csv.parse (csvContent MoreSamples.integer_text
               [content Samples.ada; MoreSamples.nicknamed]) = None.
Proof.
  split.
  - apply (shortlist_export_round_trip MoreSamples.integer_text
             [content Samples.ada; MoreSamples.grace]).
    intros c [<-|[<-|[]]]; reflexivity.
  - apply (proj2 (proj2 (shortlist_export_round_trip MoreSamples.integer_text
                           [content Samples.ada; MoreSamples.nicknamed]))
             [content Samples.ada] MoreSamples.nicknamed []).
    + reflexivity.
    + intros x [<-|[]]. reflexivity.
    + reflexivity.
    + exists "a"%string, "t"%char, "@example.com"%string. repeat split; reflexivity.
Defined.

End ShortlistExamples.

Section SavedDescriptions.

Import Types Json JsonText SavedJDs SavedJDsSpec.
Local Open Scope list_scope.

Lemma control_escape (k : nat) :
  (k < 32)%nat ->
  forall rest,
    parse_str_items (unicode_escape (Z.of_nat k) ++ rest)
    = push (Unit16 (Z.of_nat k)) (parse_str_items rest).
Proof.
  intro Hk. do 32 (destruct k as [|k]; [reflexivity|]). lia.
Qed.

Lemma control_item (k : nat) :
  (k < 32)%nat ->
  forall items, encode_items (Unit16 (Z.of_nat k) :: items)
                = ascii_of_nat k :: encode_items items.
Proof.
  intro Hk.
  do 32 (destruct k as [|k]; [intros [|[c|u] items]; reflexivity|]). lia.
Qed.

Lemma encode_item_of (s : list ascii) : encode_items (map item_of s) = s.
Proof.
  induction s as [|c s IH]; [reflexivity|].
  cbn [map]. unfold item_of at 1.
  destruct (Ascii.eqb c (ascii_of_nat 8) || Ascii.eqb c (ascii_of_nat 12)
            || Ascii.eqb c (ascii_of_nat 10) || Ascii.eqb c (ascii_of_nat 13)
            || Ascii.eqb c (ascii_of_nat 9)).
  - cbn [encode_items]. now rewrite IH.
  - destruct (nat_of_ascii c <? 32)%nat eqn:E.
    + apply Nat.ltb_lt in E. rewrite control_item by exact E.
      now rewrite ascii_nat_embedding, IH.
    + cbn [encode_items]. now rewrite IH.
Qed.

Lemma parse_quote_chars (s : list ascii) :
  forall rest,
    no_surrogate s = true ->
    parse_str_items (quote_chars s ++ quote :: rest) = Some (map item_of s, rest).
Proof.
  induction s as [|c s IH]; intros rest Hs.
  - reflexivity.
  - cbn [no_surrogate] in Hs. apply andb_true_iff in Hs. destruct Hs as [Hc Hs].
    specialize (IH rest Hs).
    cbn [quote_chars map]. unfold item_of at 1.
    destruct (Ascii.eqb c quote) eqn:E1.
    { apply Ascii.eqb_eq in E1. subst c. cbn. now rewrite IH. }
    destruct (Ascii.eqb c backslash) eqn:E2.
    { apply Ascii.eqb_eq in E2. subst c. cbn. now rewrite IH. }
    destruct (Ascii.eqb c (ascii_of_nat 8)) eqn:E3.
    { apply Ascii.eqb_eq in E3. subst c. cbn. now rewrite IH. }
    destruct (Ascii.eqb c (ascii_of_nat 12)) eqn:E4.
    { apply Ascii.eqb_eq in E4. subst c. cbn. now rewrite IH. }
    destruct (Ascii.eqb c (ascii_of_nat 10)) eqn:E5.
    { apply Ascii.eqb_eq in E5. subst c. cbn. now rewrite IH. }
    destruct (Ascii.eqb c (ascii_of_nat 13)) eqn:E6.
    { apply Ascii.eqb_eq in E6. subst c. cbn. now rewrite IH. }
    destruct (Ascii.eqb c (ascii_of_nat 9)) eqn:E7.
    { apply Ascii.eqb_eq in E7. subst c. cbn. now rewrite IH. }
    cbn [orb].
    destruct (nat_of_ascii c <? 32)%nat eqn:E8.
    { apply Nat.ltb_lt in E8. rewrite <- app_assoc.
      rewrite control_escape by exact E8. now rewrite IH. }
    assert (Hplain : parse_str_items ((c :: quote_chars s) ++ quote :: rest)
                     = Some (Raw c :: map item_of s, rest)).
    { cbn [app parse_str_items]. rewrite E1, E2, E8. now rewrite IH. }
    destruct s as [|b1 [|b2 s]]; try exact Hplain.
    apply negb_true_iff in Hc. rewrite Hc. exact Hplain.
Qed.

Lemma chars_of_chars (l : list ascii) : JsString.chars (JsString.of_chars l) = l.
Proof. apply list_ascii_of_string_of_list_ascii. Qed.

Lemma parse_quoted (s : string) (rest : list ascii) :
  scalar s = true ->
  forall f, parse_value (S f) (quoted s ++ rest) = Some (JStr s, rest).
Proof.
  intros Hs f. unfold quoted. cbn [app].
  change (parse_value (S f) (quote :: (quote_chars (JsString.chars s) ++ [quote]) ++ rest))
    with (match parse_string ((quote_chars (JsString.chars s) ++ [quote]) ++ rest) with
          | Some (str, rest') => Some (JStr str, rest')
          | None => None
          end).
  rewrite <- app_assoc. cbn [app]. unfold parse_string.
  rewrite parse_quote_chars by exact Hs.
  now rewrite encode_item_of, of_chars_chars.
Qed.

Lemma parse_member (key value : string) (acc : list (string * json)) (f : nat)
  (c : ascii) (rest : list ascii) :
  scalar key = true -> scalar value = true ->
  parse_members (S (S f)) acc (property (key, value) ++ c :: rest)
  = if Ascii.eqb c "," then parse_members (S f) (set_field key (JStr value) acc) rest
    else if Ascii.eqb c "}" then Some (set_field key (JStr value) acc, rest)
    else match skip_ws (c :: rest) with
         | [] => None
         | c3 :: r4 =>
             if Ascii.eqb c3 ","
             then parse_members (S f) (set_field key (JStr value) acc) r4
             else if Ascii.eqb c3 "}" then Some (set_field key (JStr value) acc, r4)
             else None
         end.
Proof.
  intros Hkey Hvalue. unfold property. cbn [fst snd].
  unfold quoted at 1. cbn [app].
  change (parse_members (S (S f)) acc
            (quote :: ((quote_chars (JsString.chars key) ++ [quote])
                       ++ ":"%char :: quoted value) ++ c :: rest))
    with (match parse_string (((quote_chars (JsString.chars key) ++ [quote])
                               ++ ":"%char :: quoted value) ++ c :: rest) with
          | None => None
          | Some (k, r1) =>
              match skip_ws r1 with
              | [] => None
              | c1 :: r2 =>
                  if Ascii.eqb c1 ":" then
                    match parse_value (S f) r2 with
                    | None => None
                    | Some (v, r3) =>
                        match skip_ws r3 with
                        | [] => None
                        | c3 :: r4 =>
                            if Ascii.eqb c3 ","
                            then parse_members (S f) (set_field k v acc) r4
                            else if Ascii.eqb c3 "}"
                            then Some (set_field k v acc, r4)
                            else None
                        end
                    end
                  else None
              end
          end).
  rewrite <- !app_assoc. cbn [app]. unfold parse_string.
  rewrite parse_quote_chars by exact Hkey.
  rewrite encode_item_of, of_chars_chars.
  cbn [skip_ws is_ws]. change (is_ws ":") with false. cbn iota.
  change (Ascii.eqb ":" ":") with true. cbn iota.
  rewrite parse_quoted by exact Hvalue.
  destruct (Ascii.eqb c ",") eqn:Ecomma.
  { apply Ascii.eqb_eq in Ecomma. subst c. reflexivity. }
  destruct (Ascii.eqb c "}") eqn:Eclose.
  { apply Ascii.eqb_eq in Eclose. subst c. reflexivity. }
  reflexivity.
Qed.

Lemma parse_open_object (field : string * string) (r : list ascii) (f : nat) :
  parse_value (S f) ("{"%char :: property field ++ r)
  = match parse_members f [] (property field ++ r) with
    | Some (fields, rest) => Some (JObj fields, rest)
    | None => None
    end.
Proof. reflexivity. Qed.

Lemma object_of_chars (jd : SavedJobDescription) (rest : list ascii) :
  object_of jd ++ rest
  = "{"%char :: property ("id"%string, id jd) ++ ","%char
      :: property ("title"%string, title jd) ++ ","%char
      :: property ("content"%string, content jd) ++ ","%char
      :: property ("date"%string, date jd) ++ "}"%char :: rest.
Proof.
  unfold object_of, object_text. cbn [map separated].
  generalize (property ("id"%string, id jd)) (property ("title"%string, title jd))
    (property ("content"%string, content jd)) (property ("date"%string, date jd)).
  intros a b c d. cbn [app]. f_equal.
  repeat (rewrite <- app_assoc; cbn [app]). reflexivity.
Qed.

Lemma parse_object (jd : SavedJobDescription) (rest : list ascii) (f : nat) :
  scalar_jd jd = true ->
  parse_value (6 + f) (object_of jd ++ rest) = Some (to_json jd, rest).
Proof.
  unfold scalar_jd. intro H.
  apply andb_true_iff in H. destruct H as [H Hdate].
  apply andb_true_iff in H. destruct H as [H Hcontent].
  apply andb_true_iff in H. destruct H as [Hid Htitle].
  rewrite object_of_chars.
  change (6 + f)%nat with (S (S (S (S (S (S f)))))).
  rewrite parse_open_object.
  rewrite parse_member by (try reflexivity; assumption).
  change (Ascii.eqb "," ",") with true. cbn iota.
  rewrite parse_member by (try reflexivity; assumption).
  change (Ascii.eqb "," ",") with true. cbn iota.
  rewrite parse_member by (try reflexivity; assumption).
  change (Ascii.eqb "," ",") with true. cbn iota.
  rewrite parse_member by (try reflexivity; assumption).
  reflexivity.
Qed.

Lemma parse_objects (saved : list SavedJobDescription) :
  forall jd f rest,
    (forall x, In x (jd :: saved) -> scalar_jd x = true) ->
    parse_elements (S (length saved) + 6 + f)
      (separated (map object_of (jd :: saved)) ++ "]"%char :: rest)
    = Some (map to_json (jd :: saved), rest).
Proof.
  induction saved as [|next saved IH]; intros jd f rest Hall.
  - cbn [map separated length].
    change (1 + 6 + f)%nat with (S (6 + f)).
    change (parse_elements (S (6 + f)) (object_of jd ++ "]"%char :: rest))
      with (match parse_value (6 + f) (object_of jd ++ "]"%char :: rest) with
            | None => None
            | Some (v, r) =>
                match skip_ws r with
                | [] => None
                | c :: r' =>
                    if Ascii.eqb c ","
                    then match parse_elements (6 + f) r' with
                         | Some (vs, rest') => Some (v :: vs, rest')
                         | None => None
                         end
                    else if Ascii.eqb c "]" then Some ([v], r')
                    else None
                end
            end).
    rewrite parse_object by (apply Hall; now left). reflexivity.
  - change (separated (map object_of (jd :: next :: saved)))
      with (object_of jd ++ ","%char :: separated (map object_of (next :: saved))).
    rewrite <- app_assoc. cbn [app].
    replace (S (length (next :: saved)) + 6 + f)%nat
      with (S (6 + (S (length saved) + f)))%nat by (cbn [length]; lia).
    change (parse_elements (S (6 + (S (length saved) + f)))
              (object_of jd ++ ","%char
                 :: separated (map object_of (next :: saved)) ++ "]"%char :: rest))
      with (match parse_value (6 + (S (length saved) + f))
                    (object_of jd ++ ","%char
                       :: separated (map object_of (next :: saved)) ++ "]"%char :: rest) with
            | None => None
            | Some (v, r) =>
                match skip_ws r with
                | [] => None
                | c :: r' =>
                    if Ascii.eqb c ","
                    then match parse_elements (6 + (S (length saved) + f)) r' with
                         | Some (vs, rest') => Some (v :: vs, rest')
                         | None => None
                         end
                    else if Ascii.eqb c "]" then Some ([v], r')
                    else None
                end
            end).
    rewrite parse_object by (apply Hall; now left).
    cbn [skip_ws]. change (is_ws ",") with false. cbn iota.
    change (Ascii.eqb "," ",") with true. cbn iota.
    replace (6 + (S (length saved) + f))%nat with (S (length saved) + 6 + f)%nat by lia.
    rewrite IH by (intros x Hx; apply Hall; now right).
    reflexivity.
Qed.

Lemma parse_open_array (r : list ascii) (g : nat) :
  parse_value (S g) ("["%char :: "{"%char :: r)
  = match parse_elements g ("{"%char :: r) with
    | Some (items, rest) => Some (JArr items, rest)
    | None => None
    end.
Proof. reflexivity. Qed.

Lemma parse_array (saved : list SavedJobDescription) :
  (forall x, In x saved -> scalar_jd x = true) ->
  parse_value (S (S (length saved) + 6)) (array_text (map object_of saved))
  = Some (JArr (map to_json saved), []).
Proof.
  intro Hall. destruct saved as [|jd saved].
  - reflexivity.
  - unfold array_text.
    pose proof (parse_objects saved jd 1 [] Hall) as Hparse.
    assert (Hshape : exists r, separated (map object_of (jd :: saved)) ++ ["]"%char]
                               = "{"%char :: r).
    { destruct saved; eexists; unfold object_of, object_text;
        cbn [map separated app]; reflexivity. }
    destruct Hshape as [r Hr]. rewrite Hr in *.
    replace (S (length (jd :: saved)) + 6)%nat
      with (S (length saved) + 6 + 1)%nat by (cbn [length]; lia).
    rewrite parse_open_array, Hparse. reflexivity.
Qed.

Lemma stored_text_loads (saved : list SavedJobDescription) :
  (forall jd, In jd saved -> scalar_jd jd = true) ->
  JSON_parse (JSON_stringify saved) = Some (JArr (map to_json saved)).
Proof.
  intro Hall. apply JSON_parse_any_fuel.
  exists (S (S (length saved) + 6)), [].
  unfold JSON_stringify. rewrite chars_of_chars.
  split; [now apply parse_array | reflexivity].
Qed.

Lemma mount_stored_text (saved : list SavedJobDescription) :
  (forall jd, In jd saved -> scalar_jd jd = true) ->
  mount (Some (JSON_stringify saved)) = Loaded (JArr (map to_json saved)).
Proof.
  intro Hall. unfold mount. rewrite stored_text_loads by exact Hall.
  unfold JSON_stringify, array_text. reflexivity.
Qed.

(** X20. What is saved is what the next visit loads.  The text that the
    save and the delete handlers put in the local storage is read back by
    [JSON.parse], the call of the effect that runs on mount, as the array of
    the saved descriptions: the same number of objects in the same order,
    each with its [id], [title], [content] and [date], whatever quotes,
    backslashes, line feeds or other control characters these hold. *)
Theorem saved_descriptions_round_trip (saved : list SavedJobDescription) :
  (forall jd, In jd saved -> scalar_jd jd = true) ->
  JSON_parse (JSON_stringify saved) = Some (JArr (map to_json saved)) /\
  mount (Some (JSON_stringify saved)) = Loaded (JArr (map to_json saved)).
Proof.
  intro Hall. split; [now apply stored_text_loads | now apply mount_stored_text].
Qed.




(** X20 on a description whose text holds a double quote, a backslash, a
    line feed and a control character. *)
Lemma saved_descriptions_round_trip_example :
  JSON_parse (JSON_stringify MoreSamples.saved_sample)
  = Some (JArr (map to_json MoreSamples.saved_sample)) /\
  mount (Some (JSON_stringify MoreSamples.saved_sample))
  = Loaded (JArr (map to_json MoreSamples.saved_sample)).
Proof.
  apply (saved_descriptions_round_trip MoreSamples.saved_sample).
  intros jd [<-|[]]. reflexivity.
Defined.


Lemma of_nat_aux_truthy (fuel n : nat) (acc : string) :
  JsString.truthy (JsString.of_nat_aux (S fuel) n acc) = true.
Proof.
  revert n acc. induction fuel as [|fuel IH]; intros n acc.
  - cbn [JsString.of_nat_aux]. now destruct (n / 10)%nat.
  - cbn [JsString.of_nat_aux]. destruct (n / 10)%nat; [reflexivity | apply IH].
Qed.

Lemma of_Z_truthy (z : Z) : JsString.truthy (JsString.of_Z z) = true.
Proof.
  destruct z; [reflexivity | apply of_nat_aux_truthy | reflexivity].
Qed.

(** X22. A description is saved when its text and its title are filled,
    and can then be called back.  The title that is kept is the typed one
    without the white space around it: the typed title is this one between
    two runs of white space, and it neither begins nor ends with a white
    space character (those of ECMAScript, the no-break space among them).
    With a text and a title that are not white space only, the save puts
    the new description first in the list and selects it; whatever the
    user then types, to select it again brings back the text as it was
    saved and the kept title, in the text mode, even when an older
    description has the same identifier.  With a text or a title of white
    space only the save shows a message and changes nothing else. *)
Theorem handleSaveJD_saves_filled_forms (st : Form) (now : Z) (today : string) :
  let saved := handleSaveJD now today st in
  let kept := JsString.trim (jdTitle st) in
  WhiteSpaceSpec.trimmed (jdTitle st) kept /\
  (~ WhiteSpaceSpec.white_space (jdText st) ->
   ~ WhiteSpaceSpec.white_space (jdTitle st) ->
   kept <> ""%string /\
   savedJDs saved
   = mkSavedJobDescription (JsString.of_Z now) kept (jdText st) today :: savedJDs st /\
   selectedSavedJDId saved = JsString.of_Z now /\
   alerts saved = alerts st /\
   forall text title_,
     let later := handleSelectSavedJD (JsString.of_Z now)
                    (setJdTitle title_ (setJdText text saved)) in
     jdText later = jdText st /\
     jdTitle later = kept /\
     jdMode later = TEXT /\
     savedJDs later = savedJDs saved) /\
  (WhiteSpaceSpec.white_space (jdText st) \/ WhiteSpaceSpec.white_space (jdTitle st) ->
   exists msg, saved = alert msg st).
Proof.
  cbv zeta. split; [apply trim_trimmed|]. unfold handleSaveJD. split.
  - intros Htext Htitle.
    destruct (JsString.truthy (JsString.trim (jdText st))) eqn:Et;
      [|exfalso; apply Htext; now apply trim_empty_white].
    destruct (JsString.truthy (JsString.trim (jdTitle st))) eqn:Ei;
      [|exfalso; apply Htitle; now apply trim_empty_white].
    cbn [negb savedJDs selectedSavedJDId alerts id]. split.
    { intro Hempty. rewrite Hempty in Ei. discriminate. }
    repeat split.
    all: unfold handleSelectSavedJD, setJdTitle, setJdText;
      cbn [savedJDs selectedSavedJDId jdText jdTitle jdMode storage alerts];
      rewrite of_Z_truthy; cbn [negb find id]; rewrite String.eqb_refl; reflexivity.
  - intros [Hwhite | Hwhite]; apply trim_empty_white in Hwhite.
    + rewrite Hwhite. eexists. reflexivity.
    + rewrite Hwhite. destruct (negb (JsString.truthy (JsString.trim (jdText st))));
        eexists; reflexivity.
Qed.

(** X22 on a title with a no-break space on either side, and on a title
    that is a no-break space and a line separator. *)
Lemma handleSaveJD_saves_filled_forms_example :
  (let saved := handleSaveJD 42 "1/1/2025"
                  (setJdTitle MoreSamples.nbsp_around (setJdText "Go, five years" initial)) in
   savedJDs saved
   = [mkSavedJobDescription "42" "Go developer" "Go, five years" "1/1/2025"] /\
   alerts saved = []) /\
  (let st := setJdTitle MoreSamples.nbsp_only (setJdText "Go, five years" initial) in
   exists msg, handleSaveJD 42 "1/1/2025" st = alert msg st).
Proof.
  split.
  - cbv zeta.
    destruct (handleSaveJD_saves_filled_forms
                (setJdTitle MoreSamples.nbsp_around (setJdText "Go, five years" initial))
                42 "1/1/2025") as (_ & Hsave & _).
    destruct Hsave as (_ & Hlist & _ & Halerts & _).
    + intro Hwhite. apply trim_empty_white in Hwhite. discriminate.
    + intro Hwhite. apply trim_empty_white in Hwhite. discriminate.
    + split; [exact Hlist | exact Halerts].
  - cbv zeta.
    apply (handleSaveJD_saves_filled_forms
             (setJdTitle MoreSamples.nbsp_only (setJdText "Go, five years" initial))
             42 "1/1/2025").
    right. apply trim_empty_white. reflexivity.
Defined.

Lemma find_none_after_filter (id_ : string) (saved : list SavedJobDescription) :
  find (fun j => String.eqb (id j) id_)
    (filter (fun j => negb (String.eqb (id j) id_)) saved) = None.
Proof.
  induction saved as [|jd saved IH]; [reflexivity|].
  cbn [filter]. destruct (String.eqb (id jd) id_) eqn:E; cbn [negb]; [exact IH|].
  cbn [find]. now rewrite E.
Qed.

(** X23. A deleted description is forgotten.  After a confirmed delete,
    the saved list holds the descriptions of before whose identifier is
    another, in their order, and the storage holds its JSON text; to select
    the deleted identifier afterwards finds nothing and leaves the text and
    the title as they are; when the deleted description was the selected
    one, the selection, the title and the text are emptied, whatever had
    been typed since; without the confirmation nothing changes. *)
Theorem handleDeleteSavedJD_forgets (st : Form) (id_ : string) :
  let deleted := handleDeleteSavedJD true id_ st in
  savedJDs deleted = filter (fun j => negb (String.eqb (id j) id_)) (savedJDs st) /\
  (forall jd, In jd (savedJDs deleted) <-> In jd (savedJDs st) /\ id jd <> id_) /\
  storage deleted = Some (JSON_stringify (savedJDs deleted)) /\
  (let later := handleSelectSavedJD id_ deleted in
   jdText later = jdText deleted /\ jdTitle later = jdTitle deleted /\
   jdMode later = jdMode deleted /\ savedJDs later = savedJDs deleted) /\
  (if String.eqb (selectedSavedJDId st) id_
   then selectedSavedJDId deleted = ""%string /\ jdText deleted = ""%string
        /\ jdTitle deleted = ""%string
   else selectedSavedJDId deleted = selectedSavedJDId st /\ jdText deleted = jdText st
        /\ jdTitle deleted = jdTitle st) /\
  handleDeleteSavedJD false id_ st = st.
Proof.
  cbv zeta.
  assert (Hlist : savedJDs (handleDeleteSavedJD true id_ st)
                  = filter (fun j => negb (String.eqb (id j) id_)) (savedJDs st)).
  { unfold handleDeleteSavedJD.
    now destruct (String.eqb (selectedSavedJDId st) id_). }
  split; [exact Hlist|]. split; [|split; [|split; [|split]]].
  - intro jd. rewrite Hlist, filter_In, negb_true_iff.
    split; intros [Hin Hne]; (split; [exact Hin|]).
    + intro Heq. apply String.eqb_eq in Heq. congruence.
    + apply String.eqb_neq. exact Hne.
  - unfold handleDeleteSavedJD.
    now destruct (String.eqb (selectedSavedJDId st) id_).
  - unfold handleSelectSavedJD. rewrite Hlist, find_none_after_filter.
    destruct (negb (JsString.truthy id_)); cbn; now rewrite ?Hlist.
  - unfold handleDeleteSavedJD.
    destruct (String.eqb (selectedSavedJDId st) id_); cbn; repeat split.
  - reflexivity.
Qed.

End SavedDescriptions.

Section Picker.

Import SharePointPicker PickerSpec.
Local Open Scope list_scope.

Lemma Set_has_In (x : string) (s : list string) : Set_has x s = true <-> In x s.
Proof.
  unfold Set_has. rewrite existsb_exists. split.
  - intros [y [Hy Heq]]. apply String.eqb_eq in Heq. now subst.
  - intro H. exists x. split; [exact H | apply String.eqb_refl].
Qed.

Lemma Set_add_members (x : string) (s : list string) :
  NoDup s ->
  NoDup (Set_add x s) /\ forall y, In y (Set_add x s) <-> y = x \/ In y s.
Proof.
  intro Hnd. unfold Set_add. destruct (Set_has x s) eqn:E.
  - apply Set_has_In in E. split; [exact Hnd|].
    intro y. split; [now right | intros [->|H]; assumption].
  - assert (Hx : ~ In x s).
    { intro H. apply Set_has_In in H. congruence. }
    split.
    + apply NoDup_app; [exact Hnd | repeat constructor; intros [] |].
      intros y Hy [<-|[]]. exact (Hx Hy).
    + intro y. rewrite in_app_iff. cbn. split.
      * intros [H|[<-|[]]]; [now right | now left].
      * intros [->|H]; [right; now left | now left].
Qed.

Lemma Set_delete_members (x : string) (s : list string) :
  NoDup s ->
  NoDup (Set_delete x s) /\ forall y, In y (Set_delete x s) <-> y <> x /\ In y s.
Proof.
  intro Hnd. unfold Set_delete. split; [now apply NoDup_filter|].
  intro y. rewrite filter_In, negb_true_iff. split.
  - intros [Hy Hne]. split; [|exact Hy]. apply String.eqb_neq. exact Hne.
  - intros [Hne Hy]. split; [exact Hy|]. apply String.eqb_neq. exact Hne.
Qed.

Lemma select_every_file (items : list GraphDriveItem) :
  forall acc,
    NoDup acc ->
    let all := fold_left (fun newSet item => if is_file item then Set_add (id item) newSet
                                             else newSet) items acc in
    NoDup all /\ forall y, In y all <-> In y acc \/ In y (file_ids items).
Proof.
  unfold file_ids. induction items as [|item items IH]; intros acc Hacc; cbn zeta.
  - cbn. split; [exact Hacc | tauto].
  - cbn [fold_left filter]. destruct (is_file item) eqn:E.
    + destruct (Set_add_members (id item) acc Hacc) as [Hnd Hin].
      destruct (IH _ Hnd) as [Hnd' Hin']. cbn zeta in Hnd', Hin'.
      split; [exact Hnd'|]. intro y. rewrite Hin', Hin. cbn [map In].
      split; [intros [[->|H]|H] | intros [H|[<-|H]]]; tauto.
    + apply IH. exact Hacc.
Qed.

Lemma filtered_ids_distinct (keep : GraphDriveItem -> bool)
  (items : list GraphDriveItem) :
  NoDup (map id items) -> NoDup (map id (filter keep items)).
Proof.
  induction items as [|item items IH]; intro Hnd; [constructor|].
  cbn [map] in Hnd. apply NoDup_cons_iff in Hnd. destruct Hnd as [Hnew Hnd].
  cbn [filter]. destruct (keep item); [|now apply IH].
  cbn [map]. constructor; [|now apply IH].
  intro Hin. apply Hnew. apply in_map_iff in Hin. destruct Hin as [x [Hx Hin]].
  apply filter_In in Hin. apply in_map_iff. exists x. tauto.
Qed.

Lemma click_keeps_files (items : list GraphDriveItem) (s : list string) (c : Click) :
  listing items -> offered items c ->
  NoDup s -> incl s (file_ids items) ->
  NoDup (click items s c) /\ incl (click items s c) (file_ids items).
Proof.
  intros [Hids Hfacet] Hc Hnd Hincl. destruct c as [item|]; cbn [click offered] in *.
  - destruct Hc as [Hitem Hrow].
    assert (Hfile : In (id item) (file_ids items)).
    { unfold file_ids. apply in_map. apply filter_In. split; [exact Hitem|].
      now apply Hfacet. }
    unfold toggleSelection. destruct (Set_has (id item) s).
    + destruct (Set_delete_members (id item) s Hnd) as [Hnd' Hin].
      split; [exact Hnd'|]. intros y Hy. apply Hin in Hy. apply Hincl. tauto.
    + destruct (Set_add_members (id item) s Hnd) as [Hnd' Hin].
      split; [exact Hnd'|]. intros y Hy. apply Hin in Hy.
      destruct Hy as [->|Hy]; [exact Hfile | now apply Hincl].
  - unfold handleSelectAll.
    destruct (length s =? length (filter is_file items))%nat.
    + split; [constructor | intros y []].
    + destruct (select_every_file items [] ltac:(constructor)) as [Hnd' Hin].
      cbn zeta in Hnd', Hin. split; [exact Hnd'|].
      intros y Hy. apply Hin in Hy. destruct Hy as [[]|Hy]. exact Hy.
Qed.

Lemma selection_keeps_files (items : list GraphDriveItem) (clicks : list Click) :
  listing items -> Forall (offered items) clicks ->
  forall s, NoDup s -> incl s (file_ids items) ->
            NoDup (fold_left (click items) clicks s) /\
            incl (fold_left (click items) clicks s) (file_ids items).
Proof.
  intros Hitems. induction clicks as [|c clicks IH]; intros Hclicks s Hnd Hincl.
  - split; assumption.
  - apply Forall_cons_iff in Hclicks. destruct Hclicks as [Hc Hclicks].
    destruct (click_keeps_files items s c Hitems Hc Hnd Hincl) as [Hnd' Hincl'].
    cbn [fold_left]. now apply IH.
Qed.

(** X25. The selection of the file picker.  In a folder whose items have
    distinct identifiers and are each a folder or a file, whatever rows the
    user clicks and however often the select-all button, the selection
    holds identifiers of files of the folder only, each once; the button
    then empties the selection when every file is selected and selects
    every file otherwise; and the files to download are as many as the
    selection counts. *)
Theorem select_all_selects_every_file (items : list GraphDriveItem)
  (clicks : list Click) :
  listing items -> Forall (offered items) clicks ->
  let selected := selection items clicks in
  NoDup selected /\ incl selected (file_ids items) /\
  (incl (file_ids items) selected -> handleSelectAll items selected = []) /\
  (~ incl (file_ids items) selected ->
   forall y, In y (handleSelectAll items selected) <-> In y (file_ids items)) /\
  length (filesToDownload items selected) = length selected.
Proof.
  intros Hitems Hclicks selected.
  destruct (selection_keeps_files items clicks Hitems Hclicks [] ltac:(constructor)
              ltac:(intros y [])) as [Hnd Hincl].
  fold (selection items clicks) in Hnd, Hincl. fold selected in Hnd, Hincl.
  pose proof (filtered_ids_distinct is_file items (proj1 Hitems)) as Hfiles.
  fold (file_ids items) in Hfiles.
  assert (Hlen : length (file_ids items) = length (filter is_file items))
    by (unfold file_ids; apply length_map).
  split; [exact Hnd|]. split; [exact Hincl|]. split; [|split].
  - intro Hall. unfold handleSelectAll.
    assert (length selected = length (file_ids items)).
    { apply Nat.le_antisymm; now apply NoDup_incl_length. }
    rewrite <- Hlen. replace (length selected =? length (file_ids items))%nat with true
      by (symmetry; now apply Nat.eqb_eq).
    reflexivity.
  - intros Hsome y. unfold handleSelectAll.
    destruct (length selected =? length (filter is_file items))%nat eqn:E.
    + exfalso. apply Hsome. apply Nat.eqb_eq in E.
      apply NoDup_length_incl; [exact Hnd | lia | exact Hincl].
    + destruct (select_every_file items [] ltac:(constructor)) as [_ Hin].
      cbn zeta in Hin. rewrite Hin. cbn. tauto.
  - unfold filesToDownload.
    assert (Hperm : Permutation
                      (map id (filter (fun i => Set_has (id i) selected && is_file i) items))
                      selected).
    { apply NoDup_Permutation; [|exact Hnd|].
      - apply filtered_ids_distinct. exact (proj1 Hitems).
      - intro y. rewrite in_map_iff. split.
        + intros [i [<- Hi]]. apply filter_In in Hi. destruct Hi as [_ Hi].
          apply andb_true_iff in Hi. now apply Set_has_In.
        + intro Hy. pose proof (Hincl y Hy) as Hfile. unfold file_ids in Hfile.
          apply in_map_iff in Hfile. destruct Hfile as [i [<- Hi]].
          apply filter_In in Hi. destruct Hi as [Hi Hf].
          exists i. split; [reflexivity|]. apply filter_In. split; [exact Hi|].
          apply andb_true_iff. split; [now apply Set_has_In | exact Hf]. }
    rewrite <- (Permutation_length Hperm). now rewrite length_map.
Qed.

(** X25 in a folder of two files, both rows clicked. *)
Lemma select_all_selects_every_file_example :
  selection MoreSamples.drive MoreSamples.clicks = ["f1"; "f2"]%string /\
  handleSelectAll MoreSamples.drive (selection MoreSamples.drive MoreSamples.clicks) = [] /\
  length (filesToDownload MoreSamples.drive
            (selection MoreSamples.drive MoreSamples.clicks)) = 2%nat.
Proof.
  destruct (select_all_selects_every_file MoreSamples.drive MoreSamples.clicks)
    as (_ & _ & Hall & _ & Hfiles).
  - split.
    + repeat constructor; cbn; intuition discriminate.
    + intros item [<-|[<-|[<-|[]]]]; cbn; congruence.
  - repeat constructor; cbn; tauto.
  - split; [reflexivity|]. split; [|exact Hfiles].
    apply Hall. intros y Hy. exact Hy.
Defined.

End Picker.
